(** * RSA chat: a shallow embedding of [RSA.py]

    The development follows the layout of the Python source: the [RSA]
    class (number theory, key generation, cipher, signatures) and then
    the [ChatApp] class (framing, handshake, envelopes).

    Python integers are [Z]; a [str] is the list of its code points; a
    [bytes] object is the list of its byte values.  Exceptions are
    explicit results.  The [random] module is an infinite tape of raw
    draws, read at a position that each call advances. *)

From Stdlib Require Import Ascii String.
From Stdlib Require Import ZArith Lia List Bool Znumtheory Zpow_facts.
From Stdlib Require Import Zmod.ZmodInv.
Import ListNotations.
Local Open Scope Z_scope.
Set Warnings "-register-all".

(** ** Python values, strings and exceptions *)

(** A [str]: its code points, each in [range(0x110000)]. *)
Definition pystr := list Z.

(** A [bytes] object: its bytes, each in [range(256)]. *)
Definition bytes := list Z.

Definition valid_codepoint (c : Z) : Prop := 0 <= c <= 1114111.
Definition valid_str (s : pystr) : Prop := Forall valid_codepoint s.

(** The exception classes the program can meet.  [KeyPairNotGenerated]
    and [NoModularInverse] are the two [Exception(...)] values that the
    source raises itself. *)
Inductive PyErr : Type :=
| KeyPairNotGenerated
| NoModularInverse
| ValueError
| OverflowError
| TypeError
| KeyError
| AttributeError
| ZeroDivisionError
| UnicodeEncodeError
| UnicodeDecodeError
| JSONDecodeError
| OSError.

(** A call either returns or raises. *)
Inductive res (A : Type) : Type :=
| Ret (a : A)
| Raise (e : PyErr).
Arguments Ret {A} a.
Arguments Raise {A} e.

Definition rbind {A B} (m : res A) (f : A -> res B) : res B :=
  match m with
  | Ret a => f a
  | Raise e => Raise e
  end.

Notation "x <-- m ;; k" := (rbind m (fun x => k))
  (at level 61, m at next level, right associativity).

(** [[f(x) for x in l]], stopping at the first exception. *)
Fixpoint mapM {A B} (f : A -> res B) (l : list A) : res (list B) :=
  match l with
  | [] => Ret []
  | x :: r => y <-- f x ;; ys <-- mapM f r ;; Ret (y :: ys)
  end.

(** ** Built-ins *)

(** [pow(b, e, m)] on integers.  A zero modulus raises; a negative
    exponent inverts the base first and raises when it has no inverse;
    the result has the sign of the modulus, as [%] has. *)
Definition pow3 (b e m : Z) : res Z :=
  if m =? 0 then Raise ValueError
  else if 0 <=? e then Ret (Zpow_mod b e m)
  else if Z.gcd b m =? 1 then Ret (Zpow_mod (Z.invmod b m) (- e) m)
  else Raise ValueError.

(** [chr(i)]: the argument must be in [range(0x110000)]; one that does
    not fit a C [int] overflows instead. *)
Definition chr (i : Z) : res Z :=
  if (0 <=? i) && (i <=? 1114111) then Ret i
  else if (-2147483648 <=? i) && (i <=? 2147483647) then Raise ValueError
  else Raise OverflowError.

Definition ord (c : Z) : Z := c.

(** Objects as [json.loads] builds them.  The value of a float is never
    looked at by the program and is left out. *)
Inductive pyobj : Type :=
| PNone
| PBool (b : bool)
| PInt (z : Z)
| PFloat
| PStr (s : pystr)
| PList (l : list pyobj)
| PDict (items : list (pystr * pyobj)).

(** An argument of [pow] must be an [int]; [bool] is a subclass of it. *)
Definition as_int (v : pyobj) : res Z :=
  match v with
  | PInt z => Ret z
  | PBool b => Ret (if b then 1 else 0)
  | _ => Raise TypeError
  end.

(** [for x in v]: the elements of a list, the characters of a string,
    the keys of a dict. *)
Definition py_iter (v : pyobj) : res (list pyobj) :=
  match v with
  | PList l => Ret l
  | PStr s => Ret (map (fun c => PStr [c]) s)
  | PDict items => Ret (map (fun kv => PStr (fst kv)) items)
  | _ => Raise TypeError
  end.

Definition str_eqb (a b : pystr) : bool :=
  if list_eq_dec Z.eq_dec a b then true else false.

Fixpoint dict_lookup (key : pystr) (items : list (pystr * pyobj))
  : option pyobj :=
  match items with
  | [] => None
  | (k, v) :: r => if str_eqb k key then Some v else dict_lookup key r
  end.

(** [v[key]] for a string key. *)
Definition subscript (v : pyobj) (key : pystr) : res pyobj :=
  match v with
  | PDict items =>
      match dict_lookup key items with
      | Some x => Ret x
      | None => Raise KeyError
      end
  | _ => Raise TypeError
  end.

(** [v.get(key, default)]. *)
Definition py_get (v : pyobj) (key : pystr) (default : pyobj) : res pyobj :=
  match v with
  | PDict items =>
      match dict_lookup key items with
      | Some x => Ret x
      | None => Ret default
      end
  | _ => Raise AttributeError
  end.

(** *** [int(s, base)] and [str(n)]

    [py_int] is CPython's parser of ASCII text ([PyLong_FromString]),
    which [int] applies to [bytes] as they are and to a [str] after the
    transformation [to_ascii] below: white space around, a sign, the
    [0x] prefix in base 16, then digits with single underscores between
    them.  In a base that is not a power of two a text of more than
    [int_max_str_digits] digits is refused, and so is the printing of
    such a number. *)

(** [sys.int_info.default_max_str_digits]; the program never sets
    another limit. *)
Definition int_max_str_digits : Z := 4300.

(** The bases exempt from the limit: [(base & (base - 1)) == 0]. *)
Definition binary_base (base : Z) : bool := Z.land base (base - 1) =? 0.

Definition is_space (c : Z) : bool := (c =? 32) || ((9 <=? c) && (c <=? 13)).

Definition digit_value (c : Z) : option Z :=
  if (48 <=? c) && (c <=? 57) then Some (c - 48)
  else if (97 <=? c) && (c <=? 122) then Some (c - 87)
  else if (65 <=? c) && (c <=? 90) then Some (c - 55)
  else None.

Definition is_digit (base c : Z) : bool :=
  match digit_value c with
  | Some d => d <? base
  | None => false
  end.

Fixpoint lstrip (s : list Z) : list Z :=
  match s with
  | c :: r => if is_space c then lstrip r else s
  | [] => []
  end.

(** The scan over digits and underscores: the value read, how many
    digits it has, and what follows; [None] for a doubled or a trailing
    underscore. *)
Fixpoint scan_digits (base : Z) (s : list Z) (prev_underscore : bool)
  (acc : Z) (count : nat) : option (Z * nat * list Z) :=
  let stop := if prev_underscore then None else Some (acc, count, s) in
  match s with
  | [] => stop
  | c :: r =>
      if c =? 95 then
        if prev_underscore then None else scan_digits base r true acc count
      else
        match digit_value c with
        | Some d =>
            if d <? base
            then scan_digits base r false (acc * base + d) (S count)
            else stop
        | None => stop
        end
  end.

(** The [0x] or [0X] before a number in base 16, with one underscore
    after it. *)
Definition skip_prefix (base : Z) (s : list Z) : list Z :=
  match s with
  | z :: x :: r =>
      if (z =? 48) && (base =? 16) && ((x =? 120) || (x =? 88)) then
        match r with
        | u :: r' => if u =? 95 then r' else r
        | [] => r
        end
      else s
  | _ => s
  end.

Definition py_int (base : Z) (s : list Z) : res Z :=
  let s1 := lstrip s in
  let sign :=
    match s1 with
    | c :: _ => if c =? 45 then -1 else 1
    | [] => 1
    end in
  let s2 :=
    match s1 with
    | c :: r => if (c =? 43) || (c =? 45) then r else s1
    | [] => s1
    end in
  let s3 := skip_prefix base s2 in
  if match s3 with c :: _ => c =? 95 | [] => false end
  then Raise ValueError
  else
    match scan_digits base s3 false 0 0 with
    | Some (v, S k, rest) =>
        if negb (binary_base base) && (int_max_str_digits <? Z.of_nat (S k))
        then Raise ValueError
        else
          match lstrip rest with
          | [] => Ret (sign * v)
          | _ => Raise ValueError
          end
    | _ => Raise ValueError
    end.

(** What [int] makes of a [str] before it parses: an ASCII character
    stays, a space of another script becomes a blank, a decimal digit
    of another script becomes the ASCII digit of its value, and at any
    other character the text ends in a question mark.  The digits are
    those of Unicode 14.0, each script's ten in a row from its zero. *)
Definition unicode_space (c : Z) : bool :=
  (c =? 133) || (c =? 160) || (c =? 5760)
  || ((8192 <=? c) && (c <=? 8202))
  || (c =? 8232) || (c =? 8233) || (c =? 8239) || (c =? 8287)
  || (c =? 12288).

Definition unicode_zeros : list Z :=
  [1632; 1776; 1984; 2406; 2534; 2662; 2790; 2918; 3046; 3174; 3302; 3430;
   3558; 3664; 3792; 3872; 4160; 4240; 6112; 6160; 6470; 6608; 6784; 6800;
   6992; 7088; 7232; 7248; 42528; 43216; 43264; 43472; 43504; 43600; 44016;
   65296; 66720; 68912; 69734; 69872; 69942; 70096; 70384; 70736; 70864;
   71248; 71360; 71472; 71904; 72016; 72784; 73040; 73120; 92768; 92864;
   93008; 120782; 120792; 120802; 120812; 120822; 123200; 123632; 125264;
   130032].

Definition unicode_decimal (c : Z) : option Z :=
  match find (fun z => (z <=? c) && (c <=? z + 9)) unicode_zeros with
  | Some z => Some (c - z)
  | None => None
  end.

Fixpoint to_ascii (s : pystr) : list Z :=
  match s with
  | [] => []
  | c :: r =>
      if c <? 127 then c :: to_ascii r
      else if unicode_space c then 32 :: to_ascii r
      else
        match unicode_decimal c with
        | Some d => 48 + d :: to_ascii r
        | None => [63]
        end
  end.

(** [int(s, base)] for a [str]. *)
Definition int_of_str (base : Z) (s : pystr) : res Z :=
  py_int base (to_ascii s).

(** The decimal digits of [n >= 0], most significant first. *)
Fixpoint digits_loop (fuel : nat) (n : Z) (acc : list Z) : list Z :=
  match fuel with
  | O => acc
  | S f =>
      let acc' := (48 + n mod 10) :: acc in
      if n / 10 =? 0 then acc' else digits_loop f (n / 10) acc'
  end.

Definition digits (n : Z) : list Z :=
  digits_loop (S (Z.to_nat (Z.log2 n))) n [].

(** The decimal text of [n]: a minus sign for a negative number, then
    the digits. *)
Definition str_of_int (n : Z) : pystr :=
  if n <? 0 then 45 :: digits (- n) else digits n.

(** [str(n)], also what [f"{n}"] prints: the decimal text, refused
    when it has more than [int_max_str_digits] digits. *)
Definition format_int (n : Z) : res pystr :=
  if int_max_str_digits <? Z.of_nat (length (digits (Z.abs n)))
  then Raise ValueError
  else Ret (str_of_int n).

(** *** [str.encode()] and [bytes.decode()]: UTF-8

    A surrogate cannot be encoded; the decoder takes shortest forms
    only and no surrogates. *)

Definition encode_char (c : Z) : res bytes :=
  if (c <? 0) || (1114111 <? c) then Raise UnicodeEncodeError
  else if c <? 128 then Ret [c]
  else if c <? 2048 then Ret [192 + c / 64; 128 + c mod 64]
  else if (55296 <=? c) && (c <=? 57343) then Raise UnicodeEncodeError
  else if c <? 65536 then
    Ret [224 + c / 4096; 128 + (c / 64) mod 64; 128 + c mod 64]
  else
    Ret [240 + c / 262144; 128 + (c / 4096) mod 64; 128 + (c / 64) mod 64;
         128 + c mod 64].

Definition encode (s : pystr) : res bytes :=
  chunks <-- mapM encode_char s ;; Ret (concat chunks).

(** A continuation byte [10xxxxxx]. *)
Definition is_cont (b : Z) : bool := (128 <=? b) && (b <=? 191).

Fixpoint decode (b : bytes) : res pystr :=
  match b with
  | [] => Ret []
  | b0 :: r0 =>
      if (0 <=? b0) && (b0 <? 128) then
        s <-- decode r0 ;; Ret (b0 :: s)
      else if (194 <=? b0) && (b0 <=? 223) then
        match r0 with
        | b1 :: r1 =>
            if is_cont b1 then
              s <-- decode r1 ;; Ret ((b0 - 192) * 64 + (b1 - 128) :: s)
            else Raise UnicodeDecodeError
        | _ => Raise UnicodeDecodeError
        end
      else if (224 <=? b0) && (b0 <=? 239) then
        match r0 with
        | b1 :: b2 :: r2 =>
            let c := (b0 - 224) * 4096 + (b1 - 128) * 64 + (b2 - 128) in
            if is_cont b1 && is_cont b2 && (2048 <=? c)
               && negb ((55296 <=? c) && (c <=? 57343))
            then s <-- decode r2 ;; Ret (c :: s)
            else Raise UnicodeDecodeError
        | _ => Raise UnicodeDecodeError
        end
      else if (240 <=? b0) && (b0 <=? 244) then
        match r0 with
        | b1 :: b2 :: b3 :: r3 =>
            let c := (b0 - 240) * 262144 + (b1 - 128) * 4096
                     + (b2 - 128) * 64 + (b3 - 128) in
            if is_cont b1 && is_cont b2 && is_cont b3
               && (65536 <=? c) && (c <=? 1114111)
            then s <-- decode r3 ;; Ret (c :: s)
            else Raise UnicodeDecodeError
        | _ => Raise UnicodeDecodeError
        end
      else Raise UnicodeDecodeError
  end.

(** [s.startswith(prefix)]. *)
Fixpoint startswith (s prefix : pystr) {struct prefix} : bool :=
  match prefix, s with
  | [], _ => true
  | p :: prefix', c :: s' => (c =? p) && startswith s' prefix'
  | _ :: _, [] => false
  end.

(** [s.split(sep, 1)] for a one-character separator: the parts around
    its first occurrence, or [None] when there is a single part. *)
Fixpoint split_once (sep : Z) (s : pystr) : option (pystr * pystr) :=
  match s with
  | [] => None
  | c :: r =>
      if c =? sep then Some ([], r)
      else
        match split_once sep r with
        | Some (a, b) => Some (c :: a, b)
        | None => None
        end
  end.

(** [f"{s:<width}"]: left-justified, filled with spaces. *)
Definition ljust (s : pystr) (width : Z) : pystr :=
  s ++ repeat 32 (Z.to_nat (width - Z.of_nat (length s))).

(** The code points of an ASCII literal. *)
Definition lit (s : String.string) : pystr :=
  map (fun a => Z.of_N (Ascii.N_of_ascii a)) (String.list_ascii_of_string s).
Arguments lit s%_string_scope.

(** ** [hashlib.sha256]

    The hash is the standard library's; it is written out here after
    FIPS 180-4 so that digests can be computed.  Words are integers in
    [[0, 2^32)]. *)

Module Sha256.

Definition add32 (a b : Z) : Z := (a + b) mod 2 ^ 32.

Definition rotr (n x : Z) : Z :=
  Z.lor (Z.shiftr x n) (Z.shiftl x (32 - n) mod 2 ^ 32).

Definition Ch (x y z : Z) : Z :=
  Z.lxor (Z.land x y) (Z.land (Z.lxor x 0xffffffff) z).

Definition Maj (x y z : Z) : Z :=
  Z.lxor (Z.lxor (Z.land x y) (Z.land x z)) (Z.land y z).

Definition Sigma0 (x : Z) : Z :=
  Z.lxor (Z.lxor (rotr 2 x) (rotr 13 x)) (rotr 22 x).

Definition Sigma1 (x : Z) : Z :=
  Z.lxor (Z.lxor (rotr 6 x) (rotr 11 x)) (rotr 25 x).

Definition sigma0 (x : Z) : Z :=
  Z.lxor (Z.lxor (rotr 7 x) (rotr 18 x)) (Z.shiftr x 3).

Definition sigma1 (x : Z) : Z :=
  Z.lxor (Z.lxor (rotr 17 x) (rotr 19 x)) (Z.shiftr x 10).

(** The constants are the first 32 bits of the fractional parts of the
cube roots (for [K]) and of the square roots (for [H0]) of the first
primes. *)
Definition trial_prime (n : Z) : bool :=
forallb (fun d => negb (n mod Z.of_nat d =? 0)) (seq 2 (Z.to_nat n - 2)).

Definition first_primes (count : nat) : list Z :=
firstn count (filter trial_prime (map Z.of_nat (seq 2 310))).

(** The integer cube root, by bisection between [lo] and [hi]. *)
Fixpoint cube_root_loop (fuel : nat) (lo hi n : Z) : Z :=
match fuel with
| O => lo
| S f =>
    if hi - lo <=? 1 then lo
    else
      let mid := (lo + hi) / 2 in
      if mid * mid * mid <=? n
      then cube_root_loop f mid hi n
      else cube_root_loop f lo mid n
end.

Definition cube_root (n : Z) : Z := cube_root_loop 64 0 (2 ^ 40) n.

Definition K : list Z :=
Eval vm_compute in
  map (fun p => cube_root (p * 2 ^ 96) mod 2 ^ 32) (first_primes 64).

Definition H0 : list Z :=
Eval vm_compute in
  map (fun p => Z.sqrt (p * 2 ^ 64) mod 2 ^ 32) (first_primes 8).

(** Big-endian bytes of a word, and back. *)
Definition be32 (w : Z) : bytes :=
  [(w / 2 ^ 24) mod 256; (w / 2 ^ 16) mod 256; (w / 2 ^ 8) mod 256;
   w mod 256].

Definition be64 (w : Z) : bytes := be32 (w / 2 ^ 32) ++ be32 w.

Fixpoint words (count : nat) (block : bytes) : list Z :=
  match count with
  | O => []
  | S c =>
      match block with
      | b0 :: b1 :: b2 :: b3 :: r =>
          (b0 * 2 ^ 24 + b1 * 2 ^ 16 + b2 * 2 ^ 8 + b3) :: words c r
      | _ => []
      end
  end.

(** The message, a one bit, zeros up to 56 modulo 64, and the length
    in bits on eight bytes. *)
Definition pad (m : bytes) : bytes :=
  let l := Z.of_nat (length m) in
  m ++ [128] ++ repeat 0 (Z.to_nat ((55 - l) mod 64)) ++ be64 (8 * l).

Fixpoint blocks (count : nat) (m : bytes) : list bytes :=
  match count with
  | O => []
  | S c => firstn 64 m :: blocks c (skipn 64 m)
  end.

(** The message schedule, most recent word first. *)
Fixpoint extend (count : nat) (w : list Z) : list Z :=
  match count with
  | O => w
  | S c =>
      extend c
        (add32 (add32 (sigma1 (nth 1 w 0)) (nth 6 w 0))
               (add32 (sigma0 (nth 14 w 0)) (nth 15 w 0)) :: w)
  end.

Definition schedule (block : bytes) : list Z :=
  rev (extend 48 (rev (words 16 block))).

Record state : Type :=
  { sa : Z; sb : Z; sc : Z; sd : Z; se : Z; sf : Z; sg : Z; sh : Z }.

Definition round (s : state) (kw : Z * Z) : state :=
  let t1 :=
    add32 (add32 (add32 (sh s) (Sigma1 (se s)))
                 (add32 (Ch (se s) (sf s) (sg s)) (fst kw))) (snd kw) in
  let t2 := add32 (Sigma0 (sa s)) (Maj (sa s) (sb s) (sc s)) in
  {| sa := add32 t1 t2; sb := sa s; sc := sb s; sd := sc s;
     se := add32 (sd s) t1; sf := se s; sg := sf s; sh := sg s |}.

Definition compress (h : state) (block : bytes) : state :=
  let s := fold_left round (combine K (schedule block)) h in
  {| sa := add32 (sa h) (sa s); sb := add32 (sb h) (sb s);
     sc := add32 (sc h) (sc s); sd := add32 (sd h) (sd s);
     se := add32 (se h) (se s); sf := add32 (sf h) (sf s);
     sg := add32 (sg h) (sg s); sh := add32 (sh h) (sh s) |}.

Definition initial : state :=
  {| sa := nth 0 H0 0; sb := nth 1 H0 0; sc := nth 2 H0 0;
     sd := nth 3 H0 0; se := nth 4 H0 0; sf := nth 5 H0 0;
     sg := nth 6 H0 0; sh := nth 7 H0 0 |}.

(** [hashlib.sha256(m).digest()]. *)
Definition digest (m : bytes) : bytes :=
  let padded := pad m in
  let s :=
    fold_left compress (blocks (Nat.div (length padded) 64) padded)
      initial in
  be32 (sa s) ++ be32 (sb s) ++ be32 (sc s) ++ be32 (sd s)
    ++ be32 (se s) ++ be32 (sf s) ++ be32 (sg s) ++ be32 (sh s).

Definition hex_char (d : Z) : Z := if d <? 10 then 48 + d else 87 + d.

(** [hashlib.sha256(m).hexdigest()]. *)
Definition hexdigest (m : bytes) : pystr :=
  flat_map (fun b => [hex_char (b / 16); hex_char (b mod 16)]) (digest m).

End Sha256.
(** ** Data classes *)

Record PublicKey : Type := { N : Z; E : Z }.
Record PrivateKey : Type := { D : Z }.
Record RSAKeyPair : Type :=
  { public_key : PublicKey; private_key : PrivateKey }.

(** The [RSA] object: [self.key_length] and [self.key_pair]. *)
Record RSA : Type := { key_length : Z; key_pair : option RSAKeyPair }.

(** [RSA(key_length=2048)]. *)
Definition RSA_init (key_length : Z) : RSA :=
  {| key_length := key_length; key_pair := None |}.

(** ** Number theory *)

(** [while b != 0: a, b = b, a % b]; one unit of fuel per test of the
    loop condition. *)
Fixpoint gcd_loop (fuel : nat) (a b : Z) : option Z :=
  match fuel with
  | O => None
  | S f => if b =? 0 then Some a else gcd_loop f b (a mod b)
  end.

(** [|b|] strictly decreases, so [|b| + 1] tests are enough
    ([gcd_loop_terminates] below). *)
Definition gcd (a b : Z) : Z :=
  match gcd_loop (S (Z.abs_nat b)) a b with
  | Some g => g
  | None => 0
  end.

(** [abs(a * b) // RSA.gcd(a, b)]. *)
Definition lcm (a b : Z) : res Z :=
  let g := gcd a b in
  if g =? 0 then Raise ZeroDivisionError else Ret (Z.abs (a * b) / g).

Fixpoint xgcd_loop (fuel : nat) (a b prevx x prevy y : Z)
  : option (Z * Z * Z) :=
  match fuel with
  | O => None
  | S f =>
      if b =? 0 then Some (a, prevx, prevy)
      else
        let q := a / b in
        xgcd_loop f b (a mod b) x (prevx - q * x) y (prevy - q * y)
  end.

Definition xgcd (a b : Z) : Z * Z * Z :=
  match xgcd_loop (S (Z.abs_nat b)) a b 1 0 0 1 with
  | Some r => r
  | None => (0, 0, 0)
  end.

Definition modinv (a m : Z) : res Z :=
  let '(g, x, _) := xgcd a m in
  if negb (g =? 1) then Raise NoModularInverse
  else if m =? 0 then Raise ZeroDivisionError
  else Ret (x mod m).

(** ** The [random] module

    The generator is a tape [rnd] of raw draws.  A call reads the cell
    at the current position, reduces it into the range asked for and
    moves one cell on, so every in-range outcome of every call is
    obtained by some tape.  A run that needs more loop iterations than
    its fuel allows ends in [Timeout]. *)

Inductive run (A : Type) : Type :=
| Done (a : A) (pos : nat)
| Fail (e : PyErr)
| Timeout.
Arguments Done {A} a pos.
Arguments Fail {A} e.
Arguments Timeout {A}.

Definition Rand (A : Type) : Type := nat -> run A.

Definition ret {A} (a : A) : Rand A := fun pos => Done a pos.

Definition bind {A B} (m : Rand A) (f : A -> Rand B) : Rand B :=
  fun pos =>
    match m pos with
    | Done a pos' => f a pos'
    | Fail e => Fail e
    | Timeout => Timeout
    end.

Definition lift {A} (m : res A) : Rand A :=
  fun pos =>
    match m with
    | Ret a => Done a pos
    | Raise e => Fail e
    end.

Notation "x <~ m ;; k" := (bind m (fun x => k))
  (at level 61, m at next level, right associativity).

Section Random.

Variable rnd : nat -> Z.

(** [random.getrandbits(k)]: an integer in [[0, 2^k)]. *)
Definition getrandbits (k : Z) : Rand Z :=
  fun pos =>
    if k <? 0 then Fail ValueError else Done (rnd pos mod 2 ^ k) (S pos).

(** [random.randrange(start, stop)]: an integer in [[start, stop)]. *)
Definition randrange (start stop : Z) : Rand Z :=
  fun pos =>
    if stop <=? start then Fail ValueError
    else Done (start + rnd pos mod (stop - start)) (S pos).

(** *** Miller-Rabin *)

(** [while r % 2 == 0: s += 1; r //= 2], by recursion on the binary
    digits of [r > 0]. *)
Fixpoint split_twos (r : positive) (s : Z) : Z * Z :=
  match r with
  | xO r' => split_twos r' (s + 1)
  | _ => (s, Zpos r)
  end.

(** The inner [for __ in range(s - 1)] with its [else]: [true] when
    the loop leaves by [break], [false] when it runs out. *)
Fixpoint squarings (count : nat) (x n : Z) : res bool :=
  match count with
  | O => Ret false
  | S c =>
      x' <-- pow3 x 2 n ;;
      if x' =? n - 1 then Ret true else squarings c x' n
  end.

(** The outer [for _ in range(k)]. *)
Fixpoint rounds (k : nat) (n s r : Z) : Rand bool :=
  match k with
  | O => ret true
  | S k' =>
      a <~ randrange 2 (n - 1) ;;
      x <~ lift (pow3 a r n) ;;
      if negb ((x =? 1) || (x =? n - 1)) then
        found <~ lift (squarings (Z.to_nat (s - 1)) x n) ;;
        if found then rounds k' n s r else ret false
      else rounds k' n s r
  end.

Definition is_prime (n : Z) (k : nat) : Rand bool :=
  if (n =? 2) || (n =? 3) then ret true
  else if (n <=? 1) || (n mod 2 =? 0) then ret false
  else
    (* here n is odd and at least 5, so n - 1 is positive *)
    let '(s, r) :=
      match n - 1 with
      | Zpos p => split_twos p 0
      | other => (0, other)
      end in
    rounds k n s r.

(** *** Prime and key generation *)

(** [1 << n]. *)
Definition shl1 (n : Z) : res Z :=
  if n <? 0 then Raise ValueError else Ret (Z.shiftl 1 n).

Fixpoint generate_prime_number (fuel : nat) (length : Z) : Rand Z :=
  match fuel with
  | O => fun _ => Timeout
  | S f =>
      p0 <~ getrandbits length ;;
      top <~ lift (shl1 (length - 1)) ;;
      let p := Z.lor p0 (Z.lor top 1) in
      ok <~ is_prime p 128 ;;
      if ok then ret p else generate_prime_number f length
  end.

(** The inner [while True] of [generate_keys]. *)
Fixpoint choose_e (fuel : nat) (totient : Z) : Rand Z :=
  match fuel with
  | O => fun _ => Timeout
  | S f =>
      e <~ randrange (2 ^ 16) (2 ^ 17) ;;
      if gcd e totient =? 1 then ret e else choose_e f totient
  end.

(** [generate_keys] returns the object with [self.key_pair] set. *)
Fixpoint generate_keys (fuel : nat) (self : RSA) : Rand RSA :=
  match fuel with
  | O => fun _ => Timeout
  | S f =>
      let L := key_length self in
      p <~ generate_prime_number (S f) (L / 2) ;;
      q <~ generate_prime_number (S f) (L / 2) ;;
      if negb (p =? q) then
        let n := p * q in
        totient <~ lift (lcm (p - 1) (q - 1)) ;;
        e <~ choose_e (S f) totient ;;
        d <~ lift (modinv e totient) ;;
        ret {| key_length := L;
               key_pair :=
                 Some {| public_key := {| N := n; E := e |};
                         private_key := {| D := d |} |} |}
      else generate_keys f self
  end.

End Random.

(** A tape given by a finite list, continued by zeros. *)
Definition tape (l : list Z) : nat -> Z := fun i => nth i l 0.


(** ** Cipher and signatures *)

(** [[pow(ord(char), E, N) for char in message]]. *)
Definition encrypt (message : pystr) (public_key : PublicKey)
  : res (list Z) :=
  mapM (fun char => pow3 (ord char) (E public_key) (N public_key)) message.

(** [decrypt] takes whatever object the caller hands over: the
    envelope's [message] field arrives here as parsed. *)
Definition decrypt (self : RSA) (encrypted_message : pyobj) : res pystr :=
  match key_pair self with
  | None => Raise KeyPairNotGenerated
  | Some kp =>
      items <-- py_iter encrypted_message ;;
      mapM (fun char_code =>
              c <-- as_int char_code ;;
              m <-- pow3 c (D (private_key kp)) (N (public_key kp)) ;;
              chr m)
           items
  end.

(** A list of integers as an object. *)
Definition int_list (l : list Z) : pyobj := PList (map PInt l).

(** [hashlib.sha256(message.encode()).hexdigest()]. *)
Definition create_hash (message : pystr) : res pystr :=
  data <-- encode message ;; Ret (Sha256.hexdigest data).

Definition sign (self : RSA) (message : pystr) : res Z :=
  match key_pair self with
  | None => Raise KeyPairNotGenerated
  | Some kp =>
      hash_message <-- create_hash message ;;
      h <-- py_int 16 hash_message ;;
      pow3 h (D (private_key kp)) (N (public_key kp))
  end.

(** [public_key] is [self.other_public_key] at the only call, which may
    still be [None]; reading its [E] then raises. *)
Definition verify (message : pystr) (signature : pyobj)
  (public_key : option PublicKey) : res bool :=
  hash_message <-- create_hash message ;;
  pk <-- match public_key with
         | Some pk => Ret pk
         | None => Raise AttributeError
         end ;;
  s <-- as_int signature ;;
  hash_from_signature <-- pow3 s (E pk) (N pk) ;;
  h <-- py_int 16 hash_message ;;
  Ret (h =? hash_from_signature).

(** * The chat application

    Of the [ChatApp] object the model keeps what the protocol reads and
    writes: the [RSA] instance, the connected socket, the peer's key,
    the role flag, and the contents of the three widgets the methods
    touch (nickname entry, message entry, chat display). *)

(** A connected socket: whether it still accepts writes, and what
    [sendall] has written, one entry per call. *)
Record socket : Type := { sock_open : bool; outbox : list bytes }.

Definition sendall (s : socket) (data : bytes) : res socket :=
  if sock_open s
  then Ret {| sock_open := true; outbox := outbox s ++ [data] |}
  else Raise OSError.

(** The lines [update_chat] is called with. *)
Inductive chat_line : Type :=
| ReceivedPublicKey
| PublicKeyError (e : PyErr)
| ChatFrom (nickname : pyobj) (decrypted_message : pystr)
| SignatureVerificationFailed
| JSONDecodingError (e : PyErr)
| MessageHandlingError (e : PyErr)
| EncryptionKeysNotExchanged
| YouSaid (message : pystr)
| PublicKeySent
| CannotSendPublicKey
| NotConnected
| SendingError (e : PyErr)
| ReceivingError (e : PyErr)
| ConnectedTo
| ConnectedToServer
| ConnectionError (e : PyErr).

Record ChatApp : Type :=
  { rsa : RSA;
    client_socket : option socket;
    other_public_key : option PublicKey;
    is_client : bool;
    nickname_entry : pystr;
    message_entry : pystr;
    chat_text : list chat_line }.

(** [self.header_size = 10], never reassigned. *)
Definition header_size : Z := 10.

(** [ChatApp()] once the window is set up. *)
Definition ChatApp_init : ChatApp :=
  {| rsa := RSA_init 2048;
     client_socket := None;
     other_public_key := None;
     is_client := false;
     nickname_entry := lit "Anonymous";
     message_entry := [];
     chat_text := [] |}.

Definition update_chat (self : ChatApp) (line : chat_line) : ChatApp :=
  {| rsa := rsa self;
     client_socket := client_socket self;
     other_public_key := other_public_key self;
     is_client := is_client self;
     nickname_entry := nickname_entry self;
     message_entry := message_entry self;
     chat_text := chat_text self ++ [line] |}.

Definition set_client_socket (self : ChatApp) (s : option socket)
  : ChatApp :=
  {| rsa := rsa self;
     client_socket := s;
     other_public_key := other_public_key self;
     is_client := is_client self;
     nickname_entry := nickname_entry self;
     message_entry := message_entry self;
     chat_text := chat_text self |}.

Definition set_other_public_key (self : ChatApp) (k : option PublicKey)
  : ChatApp :=
  {| rsa := rsa self;
     client_socket := client_socket self;
     other_public_key := k;
     is_client := is_client self;
     nickname_entry := nickname_entry self;
     message_entry := message_entry self;
     chat_text := chat_text self |}.

Definition set_message_entry (self : ChatApp) (s : pystr) : ChatApp :=
  {| rsa := rsa self;
     client_socket := client_socket self;
     other_public_key := other_public_key self;
     is_client := is_client self;
     nickname_entry := nickname_entry self;
     message_entry := s;
     chat_text := chat_text self |}.

(** A method leaves the object in some state, and either returns or
    raises out of it. *)
Inductive outcome : Type :=
| Normal (self : ChatApp)
| Raised (self : ChatApp) (e : PyErr).

Definition and_then (o : outcome) (k : ChatApp -> outcome) : outcome :=
  match o with
  | Normal self => k self
  | Raised self e => Raised self e
  end.

(** [except ValueError] also takes its subclasses. *)
Definition is_ValueError (e : PyErr) : bool :=
  match e with
  | ValueError | UnicodeEncodeError | UnicodeDecodeError | JSONDecodeError =>
      true
  | _ => false
  end.

(** The header [send_data] puts before [message].  A length is below
    [2^63], which the limit on printing integers never meets. *)
Definition message_header (message : bytes) : res bytes :=
  encode (ljust (str_of_int (Z.of_nat (length message))) header_size).

Definition send_data (self : ChatApp) (data : pystr) : outcome :=
  match client_socket self with
  | Some sock =>
      match (message <-- encode data ;;
             header <-- message_header message ;;
             Ret (header ++ message)) with
      | Raise e => Raised self e
      | Ret packet =>
          match sendall sock packet with
          | Ret sock' => Normal (set_client_socket self (Some sock'))
          | Raise e => Normal (update_chat self (SendingError e))
          end
      end
  | None => Normal (update_chat self NotConnected)
  end.

Definition send_public_key (self : ChatApp) : outcome :=
  match client_socket self, key_pair (rsa self) with
  | Some _, Some kp =>
      match (N_text <-- format_int (N (public_key kp)) ;;
             E_text <-- format_int (E (public_key kp)) ;;
             Ret (lit "KEYS:" ++ N_text ++ lit "," ++ E_text)) with
      | Raise e => Raised self e
      | Ret key_message =>
          and_then (send_data self key_message)
            (fun self' => Normal (update_chat self' PublicKeySent))
      end
  | _, _ => Normal (update_chat self CannotSendPublicKey)
  end.

(** The frame decoder of [listen_for_messages]: its three locals, and
    one pass of the inner loop on what [recv] returned.  The pass gives
    the body when a frame is complete. *)
Record rx : Type :=
  { full_message : bytes; new_msg : bool; msg_length : Z }.

Definition rx_initial : rx :=
  {| full_message := []; new_msg := true; msg_length := 0 |}.

Definition receive (st : rx) (message : bytes) : res (rx * option bytes) :=
  len <-- (if new_msg st
           then py_int 10 (firstn (Z.to_nat header_size) message)
           else Ret (msg_length st)) ;;
  let full := full_message st ++ message in
  if Z.of_nat (length full) - header_size =? len
  then Ret ({| full_message := []; new_msg := true; msg_length := len |},
            Some (skipn (Z.to_nat header_size) full))
  else Ret ({| full_message := full; new_msg := false; msg_length := len |},
            None).

Section Json.

(** [json.loads] and [json.dumps] are the standard library's. *)
Variable json_loads : pystr -> res pyobj.
Variable json_dumps : pyobj -> pystr.

Definition send_message (self : ChatApp) : outcome :=
  let message := message_entry self in
  match other_public_key self, key_pair (rsa self) with
  | Some other, Some _ =>
      match (signature <-- sign (rsa self) message ;;
             encrypted_message <-- encrypt message other ;;
             Ret (signature, encrypted_message)) with
      | Raise e => Raised self e
      | Ret (signature, encrypted_message) =>
          let nickname :=
            match nickname_entry self with
            | [] => lit "Anonymous"
            | s => s
            end in
          let message_with_signature :=
            PDict [(lit "nickname", PStr nickname);
                   (lit "message", int_list encrypted_message);
                   (lit "signature", PInt signature)] in
          and_then (send_data self (json_dumps message_with_signature))
            (fun self' =>
               Normal (set_message_entry
                         (update_chat self' (YouSaid message)) []))
      end
  | _, _ => Normal (update_chat self EncryptionKeysNotExchanged)
  end.

(** The [try] body of the [KEYS:] branch up to the assignments. *)
Definition parse_keys (message : pystr) : res PublicKey :=
  match split_once 58 message with
  | None => Raise ValueError
  | Some (_, key_data) =>
      match split_once 44 key_data with
      | None => Raise ValueError
      | Some (N_str, E_str) =>
          n <-- int_of_str 10 N_str ;;
          e <-- int_of_str 10 E_str ;;
          Ret {| N := n; E := e |}
      end
  end.

(** The [try] body of the other branch up to the line to display. *)
Definition open_envelope (self : ChatApp) (message : pystr)
  : res chat_line :=
  received_data <-- json_loads message ;;
  encrypted_message <-- subscript received_data (lit "message") ;;
  signature <-- subscript received_data (lit "signature") ;;
  nickname <-- py_get received_data (lit "nickname")
                 (PStr (lit "Unknown")) ;;
  decrypted_message <-- decrypt (rsa self) encrypted_message ;;
  ok <-- verify decrypted_message signature (other_public_key self) ;;
  Ret (if ok then ChatFrom nickname decrypted_message
       else SignatureVerificationFailed).

Definition handle_received_message (self : ChatApp) (message : pystr)
  : outcome :=
  if startswith message (lit "KEYS:") then
    let attempt :=
      match parse_keys message with
      | Raise e => Raised self e
      | Ret key =>
          let self1 :=
            update_chat (set_other_public_key self (Some key))
              ReceivedPublicKey in
          if negb (is_client self1) then send_public_key self1
          else Normal self1
      end in
    match attempt with
    | Raised self' e =>
        if is_ValueError e
        then Normal (update_chat self' (PublicKeyError e))
        else Raised self' e
    | done => done
    end
  else
    match open_envelope self message with
    | Ret line => Normal (update_chat self line)
    | Raise JSONDecodeError =>
        Normal (update_chat self (JSONDecodingError JSONDecodeError))
    | Raise e => Normal (update_chat self (MessageHandlingError e))
    end.

(** [listen_for_messages]: the loop is either still reading or has
    left through its [except]. *)
Inductive listener : Type :=
| Listening (self : ChatApp) (st : rx)
| Stopped (self : ChatApp).

Definition listen_step (self : ChatApp) (st : rx) (message : bytes)
  : listener :=
  match receive st message with
  | Raise e => Stopped (update_chat self (ReceivingError e))
  | Ret (st', None) => Listening self st'
  | Ret (st', Some body) =>
      match decode body with
      | Raise e => Stopped (update_chat self (ReceivingError e))
      | Ret text =>
          match handle_received_message self text with
          | Normal self' => Listening self' st'
          | Raised self' e =>
              Stopped (update_chat self' (ReceivingError e))
          end
      end
  end.

Fixpoint listen_loop (self : ChatApp) (st : rx) (reads : list bytes)
  : listener :=
  match reads with
  | [] => Listening self st
  | message :: more =>
      match listen_step self st message with
      | Listening self' st' => listen_loop self' st' more
      | Stopped self' => Stopped self'
      end
  end.

Definition listen_for_messages (self : ChatApp) (reads : list bytes)
  : listener :=
  listen_loop self rx_initial reads.

End Json.

(** [accept_connections] and [connect_to_server] from the point where
    the connection [conn] stands: the role flag is set and the key is
    announced. *)
Definition connected (o : outcome) : ChatApp :=
  match o with
  | Normal self => self
  | Raised self e => update_chat self (ConnectionError e)
  end.

Definition accept_connections (self : ChatApp) (conn : socket) : ChatApp :=
  let self0 := update_chat self ConnectedTo in
  let self1 :=
    {| rsa := rsa self0;
       client_socket := Some conn;
       other_public_key := other_public_key self0;
       is_client := false;
       nickname_entry := nickname_entry self0;
       message_entry := message_entry self0;
       chat_text := chat_text self0 |} in
  connected (send_public_key self1).

Definition connect_to_server (self : ChatApp) (conn : socket) : ChatApp :=
  let self0 :=
    update_chat (set_client_socket self (Some conn)) ConnectedToServer in
  let self1 :=
    {| rsa := rsa self0;
       client_socket := client_socket self0;
       other_public_key := other_public_key self0;
       is_client := true;
       nickname_entry := nickname_entry self0;
       message_entry := message_entry self0;
       chat_text := chat_text self0 |} in
  connected (send_public_key self1).

(** * Vocabulary of the statements *)

(** [p] went through [is_prime] with the default 128 rounds and came out
    as [True], for the draws of the tape [rnd]. *)
Definition accepted (rnd : nat -> Z) (p : Z) : Prop :=
  exists pos pos', is_prime rnd p 128 pos = Done true pos'.

(** [p] has exactly [L] bits. *)
Definition exact_bits (L p : Z) : Prop := 2 ^ (L - 1) <= p < 2 ^ L.

(** What [generate_prime_number] hands back: odd, of the length asked
    for, and accepted by the test. *)
Definition candidate (rnd : nat -> Z) (L p : Z) : Prop :=
  Z.odd p = true /\ exact_bits L p /\ accepted rnd p.

(** A modulus that really is the product of two primes. *)
Definition semiprime (n : Z) : Prop :=
  exists p q, Z.prime p /\ Z.prime q /\ n = p * q.

(** The draws of a key generation of length 10 in which the first
    candidate is 25 and every Miller-Rabin base drawn for it is 7, a
    strong liar for 25; the second candidate is 17 and the exponent
    drawn is 65537. *)
Definition tape_liar : nat -> Z :=
  tape ([25] ++ repeat 5 128 ++ [17] ++ repeat 0 128 ++ [1]).

(** The draws of a key generation of length 10 with the primes 17 and
    19 and the exponent 65537. *)
Definition tape_small : nat -> Z :=
  tape ([17] ++ repeat 0 128 ++ [19] ++ repeat 0 128 ++ [1]).

Definition keys_of (n e d : Z) : RSAKeyPair :=
  {| public_key := {| N := n; E := e |}; private_key := {| D := d |} |}.

(** A decimal digit character. *)
Definition dec (c : Z) : Prop := 48 <= c <= 57.

(** What cannot continue a run of digits. *)
Definition ends_digits (base : Z) (rest : list Z) : Prop :=
  match rest with
  | [] => True
  | c :: _ => c <> 95 /\ is_digit base c = false
  end.

(** The value a run of digit characters stands for in a base, read
    after a value [acc] already accumulated. *)
Definition digit_of (c : Z) : Z :=
  match digit_value c with
  | Some d => d
  | None => 0
  end.

Definition value_of (base : Z) (ds : list Z) (acc : Z) : Z :=
  fold_left (fun a c => a * base + digit_of c) ds acc.

(** A tape on which every draw is 9: every candidate of four bits is
    9, and the base drawn for it is 5, which exposes it. *)
Definition tape_nines : nat -> Z := fun _ => 9.

(** The objects the two example runs of length 10 return. *)
Definition rsa_liar : RSA :=
  {| key_length := 10; key_pair := Some (keys_of 425 65537 17) |}.

Definition rsa_small : RSA :=
  {| key_length := 10; key_pair := Some (keys_of 323 65537 17) |}.


(** The arithmetic of the frame decoder alone, over successive reads:
    the bodies [receive] completes.  The loop itself ([listen_loop])
    also decodes each body and calls the handler, and ends when either
    raises. *)
Fixpoint feed (st : rx) (reads : list bytes) : res (rx * list bytes) :=
  match reads with
  | [] => Ret (st, [])
  | message :: more =>
      r <-- receive st message ;;
      r' <-- feed (fst r) more ;;
      Ret (fst r',
           match snd r with
           | Some body => body :: snd r'
           | None => snd r'
           end)
  end.

(** The packet [send_data] writes for the encoded [message]: header, then body. *)
Definition packet_of (message : bytes) : bytes :=
  ljust (str_of_int (Z.of_nat (length message))) header_size ++ message.

(** The announcement [send_public_key] composes, when both numbers
    print. *)
Definition key_message (kp : RSAKeyPair) : pystr :=
  lit "KEYS:" ++ str_of_int (N (public_key kp)) ++ lit ","
    ++ str_of_int (E (public_key kp)).

(** The handshake line for a public key [(n, e)]. *)
Definition handshake_message (n e : Z) : pystr :=
  lit "KEYS:" ++ str_of_int n ++ lit "," ++ str_of_int e.

(** The lines that report an error of the envelope branch. *)
Definition is_error_line (line : chat_line) : Prop :=
  exists e, line = JSONDecodingError e \/ line = MessageHandlingError e.

(** A [json.loads] that reads every text as the object [v]; a stand-in
    for the parser where a statement holds for every parser. *)
Definition loads_as (v : pyobj) : pystr -> res pyobj := fun _ => Ret v.

(** A [json.dumps] that prints nothing; same use. *)
Definition dumps_nothing : pyobj -> pystr := fun _ => [].

(** A listener (it accepted the connection) holding the key pair of the
    spec's example, on an open socket with nothing written yet. *)
Definition listener_app (other : option PublicKey) : ChatApp :=
  {| rsa := {| key_length := 12;
               key_pair := Some (keys_of 3233 17 2753) |};
     client_socket := Some {| sock_open := true; outbox := [] |};
     other_public_key := other;
     is_client := false;
     nickname_entry := lit "Anonymous";
     message_entry := lit "hello";
     chat_text := [] |}.

(** An envelope as the sender builds it. *)
Definition envelope (nickname : pystr) (units : list Z) (signature : Z)
  : pyobj :=
  PDict [(lit "nickname", PStr nickname);
         (lit "message", int_list units);
         (lit "signature", PInt signature)].

(** A chat object holding a key pair of the primes 2003 and 2011. *)
Definition rsa_2003 : RSA :=
  {| key_length := 22; key_pair := Some (keys_of 4028033 65537 1335773) |}.

(** A way of delivering the packet of [body] in successive reads that
    the decoder copes with: the reads are not empty, they make up the
    packet and nothing more, and the first one holds at least the
    digits of the header.  The body is short enough for its length to
    fit the ten characters of the header. *)
Definition well_split (body : bytes) (reads : list bytes) : Prop :=
  Z.of_nat (length body) < 10 ^ 10
  /\ reads <> []
  /\ Forall (fun r => r <> []) reads
  /\ concat reads = packet_of body
  /\ (length (digits (Z.of_nat (length body))) <= length (hd [] reads))%nat.

(** The decoder's state between two frames. *)
Definition rx_between (len : Z) : rx :=
  {| full_message := []; new_msg := true; msg_length := len |}.

(** The candidate [generate_prime_number] builds from the draw at
    [pos]: [getrandbits(L) | (1 << L - 1) | 1]. *)
Definition candidate_at (rnd : nat -> Z) (L : Z) (pos : nat) : Z :=
  Z.lor (rnd pos mod 2 ^ L) (Z.lor (Z.shiftl 1 (L - 1)) 1).

(** The exponent [generate_keys] draws at [pos]:
    [randrange(2**16, 2**17)]. *)
Definition exponent_at (rnd : nat -> Z) (pos : nat) : Z :=
  2 ^ 16 + rnd pos mod (2 ^ 17 - 2 ^ 16).

(** A key pair as textbook RSA wants it, however it was obtained
    (generated, or loaded from the stored fields): the modulus is the
    product of two different primes and the exponents are inverse to
    each other modulo [lcm(p - 1, q - 1)]. *)
Definition textbook_key (kp : RSAKeyPair) (p q : Z) : Prop :=
  Z.prime p /\ Z.prime q /\ p <> q
  /\ N (public_key kp) = p * q
  /\ 0 <= E (public_key kp) /\ 0 <= D (private_key kp)
  /\ (E (public_key kp) * D (private_key kp)) mod Z.lcm (p - 1) (q - 1) = 1.

(** The object holding the key pair of the spec's example. *)
Definition rsa_3233 : RSA :=
  {| key_length := 12; key_pair := Some (keys_of 3233 17 2753) |}.

(** The handler called on the texts of successive frames; it stops at
    the first call that raises. *)
Fixpoint handle_all (json_loads : pystr -> res pyobj) (self : ChatApp)
  (texts : list pystr) : outcome :=
  match texts with
  | [] => Normal self
  | text :: more =>
      and_then (handle_received_message json_loads self text)
        (fun self' => handle_all json_loads self' more)
  end.

(** How the receive loop stands after the handler's [outcome]. *)
Definition listening_after (o : outcome) (st : rx) : listener :=
  match o with
  | Normal self => Listening self st
  | Raised self e => Stopped (update_chat self (ReceivingError e))
  end.

(** The nickname [send_message] puts into the envelope. *)
Definition nickname_of (self : ChatApp) : pystr :=
  match nickname_entry self with
  | [] => lit "Anonymous"
  | s => s
  end.

(** A socket after one more packet went out. *)
Definition wrote (sock : socket) (packet : bytes) : socket :=
  {| sock_open := true; outbox := outbox sock ++ [packet] |}.

(** A key pair of the primes 17 and 19. *)
Definition rsa_323 : RSA :=
  {| key_length := 10; key_pair := Some (keys_of 323 5 29) |}.

(** A connecting side holding the key pair of 17 and 19, with a peer
    key or none, on a socket that is open or not. *)
Definition client_app (other : option PublicKey) (is_open : bool)
  : ChatApp :=
  {| rsa := rsa_323;
     client_socket := Some {| sock_open := is_open; outbox := [] |};
     other_public_key := other;
     is_client := true;
     nickname_entry := lit "Bob";
     message_entry := lit "Hi";
     chat_text := [] |}.

(** [int(hashlib.sha256(b"Hi").hexdigest(), 16)]. *)
Definition hash_Hi : Z :=
  24527259151267833003934001574908471343269301438386237982880026393338197518008.

(** A peer key with the public exponent 1 and the modulus [2^256]: the
    handler stores it like any other pair of integers, and under it
    every hash is its own signature. *)
Definition open_key : PublicKey := {| N := 2 ^ 256; E := 1 |}.

(** An integer that [str] prints and [int] reads: at most
    [int_max_str_digits] decimal digits. *)
Definition printable (n : Z) : Prop := Z.abs n < 10 ^ int_max_str_digits.

(** What the receive loop does with the bodies the decoder completed,
    in order, ending in the decoder state [st]: each is decoded and its
    text handled, and the loop ends at the first that does not decode
    or whose handling raises. *)
Fixpoint deliver (json_loads : pystr -> res pyobj) (self : ChatApp)
  (bodies : list bytes) (st : rx) : listener :=
  match bodies with
  | [] => Listening self st
  | body :: more =>
      match decode body with
      | Raise e => Stopped (update_chat self (ReceivingError e))
      | Ret text =>
          match handle_received_message json_loads self text with
          | Normal self' => deliver json_loads self' more st
          | Raised self' e => Stopped (update_chat self' (ReceivingError e))
          end
      end
  end.

(** An object set by hand to a modulus of 4301 digits, which [str]
    does not print. *)
Definition rsa_unprintable : RSA :=
  {| key_length := 14288;
     key_pair := Some (keys_of (10 ^ int_max_str_digits) 65537 1) |}.
(** * Properties of the number theory *)

Lemma pow3_nonneg (b e m : Z) :
  0 <= e -> m <> 0 -> pow3 b e m = Ret (b ^ e mod m).
Proof.
  intros He Hm. unfold pow3.
  destruct (Z.eqb_spec m 0) as [->|_]; [contradiction|].
  destruct (Z.leb_spec 0 e); [|lia].
  now rewrite Zpow_mod_correct.
Qed.

Lemma chr_ok (i : Z) : valid_codepoint i -> chr i = Ret i.
Proof.
  unfold valid_codepoint, chr. intros [H0 H1].
  destruct (Z.leb_spec 0 i); [|lia].
  destruct (Z.leb_spec i 1114111); [reflexivity|lia].
Qed.

Lemma chr_inv (i c : Z) : chr i = Ret c -> c = i /\ valid_codepoint i.
Proof.
  unfold chr, valid_codepoint.
  destruct (Z.leb_spec 0 i); destruct (Z.leb_spec i 1114111); simpl;
    try (destruct (_ && _); discriminate).
  intros [= <-]. lia.
Qed.

Lemma gcd_step (a b : Z) :
  0 < b -> (if a mod b =? 0 then b else Z.gcd b (a mod b)) = Z.gcd a b.
Proof.
  intros Hb.
  assert (H : Z.gcd b (a mod b) = Z.gcd a b).
  { rewrite Z.gcd_comm, Z.gcd_mod by lia. apply Z.gcd_comm. }
  destruct (Z.eqb_spec (a mod b) 0) as [H0|H0]; [|assumption].
  rewrite <- H, H0, Z.gcd_0_r. lia.
Qed.

(** The loop of [gcd] stops within [|b| + 1] tests and computes the
    greatest common divisor when [b] is not negative. *)
Lemma gcd_loop_terminates (fuel : nat) (a b : Z) :
  0 <= b -> (Z.abs_nat b < fuel)%nat ->
  gcd_loop fuel a b = Some (if b =? 0 then a else Z.gcd a b).
Proof.
  revert a b. induction fuel as [|f IH]; intros a b Hb Hf; [lia|].
  simpl. destruct (Z.eqb_spec b 0) as [->|Hb0]; [reflexivity|].
  assert (Hm : 0 <= a mod b < b) by (apply Z.mod_pos_bound; lia).
  rewrite IH by lia. f_equal. apply gcd_step; lia.
Qed.

Lemma gcd_correct (a b : Z) : 0 < b -> gcd a b = Z.gcd a b.
Proof.
  intros Hb. unfold gcd. rewrite gcd_loop_terminates by lia.
  destruct (Z.eqb_spec b 0); [lia|reflexivity].
Qed.

Lemma lcm_correct (a b : Z) :
  0 < a -> 0 < b -> lcm a b = Ret (Z.lcm a b).
Proof.
  intros Ha Hb. unfold lcm. rewrite gcd_correct by assumption.
  pose proof (Z.gcd_nonneg a b).
  assert (Z.gcd a b <> 0) by (intros H0; apply Z.gcd_eq_0 in H0; lia).
  destruct (Z.eqb_spec (Z.gcd a b) 0); [contradiction|].
  f_equal. unfold Z.lcm.
  rewrite (Z.abs_eq (a * b)) by nia.
  rewrite Z.abs_eq.
  - apply Z.divide_div_mul_exact; [assumption|].
    apply Z.gcd_divide_r.
  - apply Z.mul_nonneg_nonneg; [lia|].
    apply Z.div_pos; lia.
Qed.

(** Bezout's invariant of the extended loop. *)
Lemma xgcd_loop_spec (a0 b0 : Z) (fuel : nat) :
  forall a b prevx x prevy y,
    0 <= b -> (Z.abs_nat b < fuel)%nat ->
    a0 * prevx + b0 * prevy = a ->
    a0 * x + b0 * y = b ->
    exists u v,
      xgcd_loop fuel a b prevx x prevy y
      = Some (if b =? 0 then a else Z.gcd a b, u, v)
      /\ a0 * u + b0 * v = (if b =? 0 then a else Z.gcd a b).
Proof.
  induction fuel as [|f IH]; intros a b prevx x prevy y Hb Hf Ha Hbz; [lia|].
  simpl. destruct (Z.eqb_spec b 0) as [->|Hb0].
  - exists prevx, prevy. split; [reflexivity|assumption].
  - assert (Hm : 0 <= a mod b < b) by (apply Z.mod_pos_bound; lia).
    destruct (IH b (a mod b) x (prevx - a / b * x) y (prevy - a / b * y))
      as (u & v & Hrun & Hbez); try lia.
    + rewrite Z.mod_eq by assumption. nia.
    + exists u, v. rewrite Hrun.
      rewrite <- (gcd_step a b) by lia.
      split; [reflexivity|assumption].
Qed.

Lemma xgcd_spec (a b : Z) :
  0 < b ->
  exists u v, xgcd a b = (Z.gcd a b, u, v) /\ a * u + b * v = Z.gcd a b.
Proof.
  intros Hb. unfold xgcd.
  destruct (xgcd_loop_spec a b (S (Z.abs_nat b)) a b 1 0 0 1)
    as (u & v & Hrun & Hbez); try lia.
  rewrite Hrun. destruct (Z.eqb_spec b 0); [lia|].
  exists u, v. split; [reflexivity|assumption].
Qed.

(** [modinv] returns the inverse of a unit, and raises otherwise. *)
Lemma modinv_spec (a m : Z) :
  1 < m -> Z.gcd a m = 1 ->
  exists d, modinv a m = Ret d /\ 0 <= d < m /\ (a * d) mod m = 1.
Proof.
  intros Hm Hg. unfold modinv.
  destruct (xgcd_spec a m) as (u & v & -> & Hbez); [lia|].
  rewrite Hg. cbn [Z.eqb Pos.eqb negb].
  destruct (Z.eqb_spec m 0); [lia|].
  exists (u mod m). split; [reflexivity|].
  split; [apply Z.mod_pos_bound; lia|].
  rewrite Z.mul_mod_idemp_r by lia.
  replace (a * u) with (1 + (- v) * m) by lia.
  rewrite Z.mod_add by lia. apply Z.mod_1_l; lia.
Qed.

Lemma modinv_raises (a m : Z) :
  0 < m -> Z.gcd a m <> 1 -> modinv a m = Raise NoModularInverse.
Proof.
  intros Hm Hg. unfold modinv.
  destruct (xgcd_spec a m) as (u & v & -> & _); [lia|].
  destruct (Z.eqb_spec (Z.gcd a m) 1); [contradiction|reflexivity].
Qed.

(** * Properties of the built-ins *)

Lemma mapM_app {A B} (f : A -> res B) (l1 l2 : list A) :
  mapM f (l1 ++ l2)
  = (a <-- mapM f l1 ;; b <-- mapM f l2 ;; Ret (a ++ b)).
Proof.
  induction l1 as [|x l1 IH]; simpl.
  - destruct (mapM f l2); reflexivity.
  - destruct (f x) as [y|e]; simpl; [|reflexivity].
    rewrite IH. destruct (mapM f l1) as [ys|e]; simpl; [|reflexivity].
    destruct (mapM f l2); reflexivity.
Qed.

Lemma is_digit_not_underscore (base c : Z) :
  is_digit base c = true -> c <> 95.
Proof. intros H ->. discriminate. Qed.

Lemma is_digit_not_space (base c : Z) :
  is_digit base c = true -> is_space c = false.
Proof.
  unfold is_digit, digit_value, is_space. intros H.
  destruct (Z.eqb_spec c 32) as [->|]; [discriminate|].
  destruct (Z.leb_spec 9 c); destruct (Z.leb_spec c 13); try reflexivity.
  destruct (Z.leb_spec 48 c); [lia|].
  destruct (Z.leb_spec 97 c); [lia|].
  destruct (Z.leb_spec 65 c); [lia|]. discriminate.
Qed.

Lemma scan_digits_run (base : Z) (ds rest : list Z) :
  Forall (fun c => is_digit base c = true) ds ->
  ends_digits base rest ->
  forall acc count,
    scan_digits base (ds ++ rest) false acc count
    = Some (value_of base ds acc, (count + length ds)%nat, rest).
Proof.
  intros Hds Hrest. induction Hds as [|c ds Hc _ IH]; intros acc count.
  - simpl. rewrite Nat.add_0_r. destruct rest as [|c r]; [reflexivity|].
    destruct Hrest as [Hu Hd]. simpl.
    destruct (Z.eqb_spec c 95); [contradiction|].
    unfold is_digit in Hd. destruct (digit_value c); [|reflexivity].
    now rewrite Hd.
  - cbn [app scan_digits length].
    pose proof (is_digit_not_underscore base c Hc).
    destruct (Z.eqb_spec c 95); [contradiction|].
    unfold is_digit in Hc. unfold value_of. cbn [fold_left].
    fold (value_of base ds (acc * base + digit_of c)). unfold digit_of.
    destruct (digit_value c) as [d|]; [|discriminate].
    rewrite Hc, IH, <- plus_n_Sm. reflexivity.
Qed.

Lemma value_of_app (base : Z) (l1 l2 : list Z) (acc : Z) :
  value_of base (l1 ++ l2) acc = value_of base l2 (value_of base l1 acc).
Proof. unfold value_of. apply fold_left_app. Qed.

Lemma value_of_bound (base : Z) (ds : list Z) :
  1 <= base ->
  Forall (fun c => is_digit base c = true) ds ->
  forall acc, 0 <= acc ->
    0 <= value_of base ds acc
         < (acc + 1) * base ^ Z.of_nat (length ds).
Proof.
  intros Hb Hds. induction Hds as [|c ds Hc _ IH]; intros acc Hacc.
  - simpl. lia.
  - unfold value_of in *. cbn [fold_left length].
    assert (Hd : 0 <= digit_of c < base).
    { unfold is_digit in Hc. unfold digit_of, digit_value in *.
      destruct ((48 <=? c) && (c <=? 57)) eqn:E1;
        [|destruct ((97 <=? c) && (c <=? 122)) eqn:E2;
          [|destruct ((65 <=? c) && (c <=? 90)) eqn:E3; [|discriminate]]];
        apply andb_prop in E1 || apply andb_prop in E2
        || apply andb_prop in E3; lia. }
    specialize (IH (acc * base + digit_of c) ltac:(nia)).
    rewrite Nat2Z.inj_succ, Z.pow_succ_r by lia.
    assert (0 < base ^ Z.of_nat (length ds)) by (apply Z.pow_pos_nonneg; lia).
    assert ((acc * base + digit_of c + 1) * base ^ Z.of_nat (length ds)
            <= (acc + 1) * base * base ^ Z.of_nat (length ds)).
    { apply Z.mul_le_mono_nonneg_r; nia. }
    rewrite Z.mul_assoc. lia.
Qed.

Lemma lstrip_spaces (k : nat) : lstrip (repeat 32 k) = [].
Proof. induction k; [reflexivity|assumption]. Qed.

(** A run of digits of the base, then spaces, reads as its value. *)
Lemma py_int_digits (base : Z) (ds : list Z) (k : nat) :
  Forall (fun c => is_digit base c = true) ds ->
  ds <> [] ->
  (forall c, nth_error ds 1 = Some c -> c <> 120 /\ c <> 88) ->
  binary_base base = true \/ Z.of_nat (length ds) <= int_max_str_digits ->
  py_int base (ds ++ repeat 32 k) = Ret (value_of base ds 0).
Proof.
  intros Hds Hne Hx Hlim. destruct ds as [|c ds]; [contradiction|].
  pose proof Hds as Hall.
  inversion Hds as [|? ? Hc Hds']; subst.
  unfold py_int. cbn [app lstrip].
  rewrite (is_digit_not_space base c Hc).
  assert (H43 : (c =? 43) = false).
  { destruct (Z.eqb_spec c 43) as [->|]; [discriminate|reflexivity]. }
  assert (H45 : (c =? 45) = false).
  { destruct (Z.eqb_spec c 45) as [->|]; [discriminate|reflexivity]. }
  assert (H95 : (c =? 95) = false).
  { destruct (Z.eqb_spec c 95) as [->|]; [discriminate|reflexivity]. }
  rewrite H43, H45. cbn [orb].
  assert (Hskip : skip_prefix base (c :: ds ++ repeat 32 k)
                  = c :: ds ++ repeat 32 k).
  { unfold skip_prefix.
    destruct (ds ++ repeat 32 k) as [|x r] eqn:Hr; [reflexivity|].
    destruct ((c =? 48) && (base =? 16)) eqn:Hb; [|reflexivity].
    destruct ds as [|x' ds'].
    - destruct k; [discriminate|]. injection Hr as <- _. reflexivity.
    - injection Hr as <- _. destruct (Hx x' eq_refl) as [H1 H2].
      destruct (Z.eqb_spec x' 120); [contradiction|].
      destruct (Z.eqb_spec x' 88); [contradiction|]. reflexivity. }
  rewrite Hskip, H95.
  change (c :: ds ++ repeat 32 k) with ((c :: ds) ++ repeat 32 k).
  rewrite scan_digits_run.
  - cbn [length Nat.add].
    assert (Hok : negb (binary_base base)
                  && (int_max_str_digits <? Z.of_nat (S (length ds)))
                  = false).
    { destruct Hlim as [->|Hlim]; [reflexivity|].
      cbn [length] in Hlim. apply andb_false_iff. right.
      apply Z.ltb_ge. exact Hlim. }
    rewrite Hok, lstrip_spaces. f_equal. lia.
  - assumption.
  - destruct k; [exact I|]. split; [discriminate|reflexivity].
Qed.

(** *** Decimal printing *)

Lemma dec_is_digit (c : Z) : dec c -> is_digit 10 c = true.
Proof.
  unfold dec, is_digit, digit_value. intros H.
  destruct (Z.leb_spec 48 c); [|lia]. destruct (Z.leb_spec c 57); [|lia].
  simpl. apply Z.ltb_lt. lia.
Qed.

Lemma dec_digit_of (c : Z) : dec c -> digit_of c = c - 48.
Proof.
  unfold dec, digit_of, digit_value. intros H.
  destruct (Z.leb_spec 48 c); [|lia]. destruct (Z.leb_spec c 57); [|lia].
  reflexivity.
Qed.

Lemma log2_div10 (n : Z) : 10 <= n -> Z.log2 (n / 10) < Z.log2 n.
Proof.
  intros Hn.
  assert (Hpos : 0 < n / 10) by (apply Z.div_str_pos; lia).
  assert (Hle : 2 * (n / 10) <= n).
  { pose proof (Z.mul_div_le n 10). lia. }
  apply Z.log2_le_mono in Hle. rewrite Z.log2_double in Hle by assumption.
  lia.
Qed.

(** The loop of [digits] prints [n]: it puts before [acc] a run of
    decimal digits that reads back as [n], no longer than [n] needs. *)
Lemma digits_loop_spec (fuel : nat) :
  forall n acc,
    0 <= n -> Z.log2 n < Z.of_nat fuel ->
    exists ds,
      digits_loop fuel n acc = ds ++ acc
      /\ ds <> [] /\ Forall dec ds
      /\ (forall a, value_of 10 ds a = a * 10 ^ Z.of_nat (length ds) + n)
      /\ (forall k, n < 10 ^ Z.of_nat (S k) -> (length ds <= S k)%nat).
Proof.
  induction fuel as [|f IH]; intros n acc Hn Hf.
  - pose proof (Z.log2_nonneg n). lia.
  - cbn [digits_loop].
    assert (Hd : dec (48 + n mod 10)).
    { unfold dec. pose proof (Z.mod_pos_bound n 10). lia. }
    destruct (Z.eqb_spec (n / 10) 0) as [H0|H0].
    + exists [48 + n mod 10]. repeat split.
      * discriminate.
      * constructor; [assumption|constructor].
      * intros a. unfold value_of. cbn [fold_left length].
        rewrite dec_digit_of by assumption.
        pose proof (Z.div_mod n 10). change (10 ^ Z.of_nat 1) with 10. lia.
      * intros k _. simpl. lia.
    + assert (H10 : 10 <= n).
      { destruct (Z.lt_ge_cases n 10); [|assumption].
        rewrite Z.div_small in H0 by lia. contradiction. }
      destruct (IH (n / 10) ((48 + n mod 10) :: acc)) as
        (ds & Heq & Hne & Hall & Hval & Hlen).
      * apply Z.div_pos; lia.
      * pose proof (log2_div10 n H10). lia.
      * exists (ds ++ [48 + n mod 10]). repeat split.
        -- rewrite Heq, <- app_assoc. reflexivity.
        -- destruct ds; discriminate.
        -- apply Forall_app. split; [assumption|].
           constructor; [assumption|constructor].
        -- intros a. rewrite value_of_app, Hval.
           unfold value_of. cbn [fold_left].
           rewrite dec_digit_of by assumption.
           rewrite length_app, Nat2Z.inj_add. cbn [length].
           change (Z.of_nat 1) with 1.
           rewrite Z.pow_add_r, Z.pow_1_r by lia.
           pose proof (Z.div_mod n 10). lia.
        -- intros k Hk. rewrite length_app. cbn [length].
           destruct k as [|k].
           { change (10 ^ Z.of_nat 1) with 10 in Hk. lia. }
           assert (n / 10 < 10 ^ Z.of_nat (S k)).
           { apply Z.div_lt_upper_bound; [lia|].
             rewrite (Nat2Z.inj_succ (S k)), Z.pow_succ_r in Hk by lia.
             lia. }
           specialize (Hlen k H). lia.
Qed.

Lemma digits_spec (n : Z) :
  0 <= n ->
  digits n <> [] /\ Forall dec (digits n)
  /\ value_of 10 (digits n) 0 = n
  /\ (forall k, n < 10 ^ Z.of_nat (S k) -> (length (digits n) <= S k)%nat).
Proof.
  intros Hn. unfold digits.
  destruct (digits_loop_spec (S (Z.to_nat (Z.log2 n))) n [] Hn)
    as (ds & Heq & Hne & Hall & Hval & Hlen).
  - pose proof (Z.log2_nonneg n). lia.
  - rewrite Heq, app_nil_r. repeat split; try assumption.
    rewrite Hval. lia.
Qed.

Lemma dec_not_x (ds : list Z) :
  Forall dec ds ->
  forall c, nth_error ds 1 = Some c -> c <> 120 /\ c <> 88.
Proof.
  intros Hall c Hc. apply nth_error_In in Hc.
  rewrite Forall_forall in Hall. apply Hall in Hc. unfold dec in Hc. lia.
Qed.

(** A number that prints has at most [int_max_str_digits] digits. *)
Lemma printable_digits (n : Z) :
  printable n ->
  Z.of_nat (length (digits (Z.abs n))) <= int_max_str_digits.
Proof.
  unfold printable. intros Hn.
  destruct (digits_spec (Z.abs n) (Z.abs_nonneg n)) as (_ & _ & _ & Hlen).
  specialize (Hlen 4299%nat Hn).
  change int_max_str_digits with (Z.of_nat 4300). now apply inj_le.
Qed.

Lemma printable_small (n : Z) : 0 <= n < 10 ^ 10 -> printable n.
Proof.
  intros Hn. unfold printable. rewrite Z.abs_eq by lia.
  apply Z.lt_trans with (10 ^ 10); [lia|].
  apply Z.pow_lt_mono_r; [lia|discriminate|reflexivity].
Qed.

(** [int] reads back what [str] printed, spaces after it or not. *)
Lemma py_int_digits_of (n : Z) (k : nat) :
  0 <= n -> printable n -> py_int 10 (digits n ++ repeat 32 k) = Ret n.
Proof.
  intros Hn Hp. destruct (digits_spec n Hn) as (Hne & Hall & Hval & _).
  rewrite py_int_digits.
  - now rewrite Hval.
  - eapply Forall_impl; [|exact Hall]. apply dec_is_digit.
  - assumption.
  - now apply dec_not_x.
  - right. apply printable_digits in Hp. now rewrite Z.abs_eq in Hp.
Qed.

(** A minus sign before a text that starts with a digit negates what
    the text reads as. *)
Lemma py_int_minus (base c : Z) (ds : list Z) :
  is_digit base c = true ->
  py_int base (45 :: c :: ds) = (v <-- py_int base (c :: ds) ;; Ret (- v)).
Proof.
  intros Hc. unfold py_int. cbn [lstrip].
  change (is_space 45) with false.
  rewrite (is_digit_not_space base c Hc). cbn iota.
  assert (H45 : (c =? 45) = false).
  { destruct (Z.eqb_spec c 45) as [->|]; [discriminate|reflexivity]. }
  assert (H43 : (c =? 43) = false).
  { destruct (Z.eqb_spec c 43) as [->|]; [discriminate|reflexivity]. }
  rewrite H45, H43.
  change (45 =? 45) with true. change ((45 =? 43) || true) with true.
  cbn [orb]. cbn iota.
  destruct (match skip_prefix base (c :: ds) with
            | [] => false
            | c0 :: _ => c0 =? 95
            end); [reflexivity|].
  destruct (scan_digits base (skip_prefix base (c :: ds)) false 0 0)
    as [[[v [|cnt]] rest]|]; try reflexivity.
  destruct (negb (binary_base base)
            && (int_max_str_digits <? Z.of_nat (S cnt))); [reflexivity|].
  destruct (lstrip rest); [|reflexivity].
  cbn [rbind]. f_equal. lia.
Qed.

Lemma py_int_str_of_int (n : Z) :
  printable n -> py_int 10 (str_of_int n) = Ret n.
Proof.
  intros Hp. unfold str_of_int. destruct (Z.ltb_spec n 0) as [Hneg|Hpos].
  - assert (Hn : 0 <= - n) by lia.
    assert (Hp' : printable (- n)).
    { unfold printable in *. now rewrite Z.abs_opp. }
    destruct (digits_spec (- n) Hn) as (Hne & Hall & _).
    pose proof (py_int_digits_of (- n) 0 Hn Hp') as Hd.
    rewrite app_nil_r in Hd.
    destruct (digits (- n)) as [|c ds]; [contradiction|].
    rewrite py_int_minus, Hd.
    + cbn [rbind]. f_equal. lia.
    + apply dec_is_digit. now inversion Hall.
  - pose proof (py_int_digits_of n 0 Hpos Hp) as Hd.
    now rewrite app_nil_r in Hd.
Qed.

(** On a text of ASCII characters [int] parses the text itself. *)
Lemma to_ascii_ascii (s : pystr) :
  Forall (fun c => c < 127) s -> to_ascii s = s.
Proof.
  intros H. induction H as [|c s Hc _ IH]; [reflexivity|].
  cbn [to_ascii]. destruct (Z.ltb_spec c 127); [|lia]. now rewrite IH.
Qed.

Lemma str_of_int_below_127 (n : Z) : Forall (fun c => c < 127) (str_of_int n).
Proof.
  unfold str_of_int. destruct (Z.ltb_spec n 0).
  - constructor; [reflexivity|].
    destruct (digits_spec (- n)) as (_ & Hd & _); [lia|].
    eapply Forall_impl; [|exact Hd]. unfold dec. intros; lia.
  - destruct (digits_spec n) as (_ & Hd & _); [lia|].
    eapply Forall_impl; [|exact Hd]. unfold dec. intros; lia.
Qed.

Lemma int_of_str_str_of_int (n : Z) :
  printable n -> int_of_str 10 (str_of_int n) = Ret n.
Proof.
  intros Hp. unfold int_of_str.
  rewrite to_ascii_ascii by apply str_of_int_below_127.
  now apply py_int_str_of_int.
Qed.

(** [str] prints every number of at most [int_max_str_digits] digits,
    and no other. *)
Lemma format_int_printable (n : Z) :
  printable n -> format_int n = Ret (str_of_int n).
Proof.
  intros Hp. unfold format_int. apply printable_digits in Hp.
  destruct (Z.ltb_spec int_max_str_digits
              (Z.of_nat (length (digits (Z.abs n))))); [lia|reflexivity].
Qed.

Lemma format_int_Raise (n : Z) (e : PyErr) :
  format_int n = Raise e -> e = ValueError.
Proof.
  unfold format_int.
  destruct (int_max_str_digits <? _); [congruence|discriminate].
Qed.

Lemma digits_length_bound (n : Z) :
  0 <= n -> n < 10 ^ Z.of_nat (length (digits n)).
Proof.
  intros Hn. destruct (digits_spec n Hn) as (_ & Hall & Hval & _).
  assert (Hd : Forall (fun c => is_digit 10 c = true) (digits n)).
  { eapply Forall_impl; [|exact Hall]. apply dec_is_digit. }
  pose proof (value_of_bound 10 (digits n) ltac:(lia) Hd 0 ltac:(lia)) as Hb.
  rewrite Hval in Hb. lia.
Qed.

Lemma unprintable_digits (n : Z) :
  ~ printable n ->
  int_max_str_digits < Z.of_nat (length (digits (Z.abs n))).
Proof.
  intros Hn.
  destruct (Z.lt_ge_cases int_max_str_digits
              (Z.of_nat (length (digits (Z.abs n))))) as [|Hle];
    [assumption|].
  exfalso. apply Hn. unfold printable.
  apply Z.lt_le_trans with (10 ^ Z.of_nat (length (digits (Z.abs n)))).
  - apply digits_length_bound, Z.abs_nonneg.
  - apply Z.pow_le_mono_r; [lia|exact Hle].
Qed.

Lemma format_int_unprintable (n : Z) :
  ~ printable n -> format_int n = Raise ValueError.
Proof.
  intros Hn. unfold format_int. apply unprintable_digits in Hn.
  destruct (Z.ltb_spec int_max_str_digits
              (Z.of_nat (length (digits (Z.abs n))))); [reflexivity|lia].
Qed.

(** A run of more than [int_max_str_digits] digits is refused in a
    base that is not a power of two. *)
Lemma py_int_digits_over (base : Z) (ds : list Z) (k : nat) :
  Forall (fun c => is_digit base c = true) ds ->
  (forall c, nth_error ds 1 = Some c -> c <> 120 /\ c <> 88) ->
  binary_base base = false ->
  int_max_str_digits < Z.of_nat (length ds) ->
  py_int base (ds ++ repeat 32 k) = Raise ValueError.
Proof.
  intros Hds Hx Hbase Hlim.
  destruct ds as [|c ds]; [discriminate Hlim|].
  pose proof Hds as Hall.
  inversion Hds as [|? ? Hc Hds']; subst.
  unfold py_int. cbn [app lstrip].
  rewrite (is_digit_not_space base c Hc).
  assert (H43 : (c =? 43) = false).
  { destruct (Z.eqb_spec c 43) as [->|]; [discriminate|reflexivity]. }
  assert (H45 : (c =? 45) = false).
  { destruct (Z.eqb_spec c 45) as [->|]; [discriminate|reflexivity]. }
  assert (H95 : (c =? 95) = false).
  { destruct (Z.eqb_spec c 95) as [->|]; [discriminate|reflexivity]. }
  rewrite H43, H45. cbn [orb].
  assert (Hskip : skip_prefix base (c :: ds ++ repeat 32 k)
                  = c :: ds ++ repeat 32 k).
  { unfold skip_prefix.
    destruct (ds ++ repeat 32 k) as [|x r] eqn:Hr; [reflexivity|].
    destruct ((c =? 48) && (base =? 16)) eqn:Hb; [|reflexivity].
    destruct ds as [|x' ds'].
    - destruct k; [discriminate|]. injection Hr as <- _. reflexivity.
    - injection Hr as <- _. destruct (Hx x' eq_refl) as [H1 H2].
      destruct (Z.eqb_spec x' 120); [contradiction|].
      destruct (Z.eqb_spec x' 88); [contradiction|]. reflexivity. }
  rewrite Hskip, H95.
  change (c :: ds ++ repeat 32 k) with ((c :: ds) ++ repeat 32 k).
  rewrite scan_digits_run.
  - cbn [length Nat.add]. rewrite Hbase. cbn [negb andb].
    cbn [length] in Hlim.
    destruct (Z.ltb_spec int_max_str_digits (Z.of_nat (S (length ds))));
      [reflexivity|lia].
  - assumption.
  - destruct k; [exact I|]. split; [discriminate|reflexivity].
Qed.

Lemma py_int_str_of_int_over (n : Z) :
  ~ printable n -> py_int 10 (str_of_int n) = Raise ValueError.
Proof.
  intros Hp.
  assert (Hover : forall m, 0 <= m -> ~ printable m ->
                            py_int 10 (digits m) = Raise ValueError).
  { intros m Hm Hpm. destruct (digits_spec m Hm) as (_ & Hall & _).
    rewrite <- (app_nil_r (digits m)).
    apply (py_int_digits_over 10 (digits m) 0).
    - eapply Forall_impl; [|exact Hall]. apply dec_is_digit.
    - now apply dec_not_x.
    - reflexivity.
    - apply unprintable_digits in Hpm. now rewrite Z.abs_eq in Hpm. }
  unfold str_of_int. destruct (Z.ltb_spec n 0) as [Hneg|Hpos].
  - assert (Hn : 0 <= - n) by lia.
    assert (Hp' : ~ printable (- n)).
    { unfold printable in *. now rewrite Z.abs_opp. }
    destruct (digits_spec (- n) Hn) as (Hne & Hall & _).
    pose proof (Hover (- n) Hn Hp') as Hd.
    destruct (digits (- n)) as [|c ds]; [contradiction|].
    rewrite py_int_minus, Hd; [reflexivity|].
    apply dec_is_digit. now inversion Hall.
  - now apply Hover.
Qed.

Lemma int_of_str_str_of_int_over (n : Z) :
  ~ printable n -> int_of_str 10 (str_of_int n) = Raise ValueError.
Proof.
  intros Hp. unfold int_of_str.
  rewrite to_ascii_ascii by apply str_of_int_below_127.
  now apply py_int_str_of_int_over.
Qed.

(** [bytes.decode()] raises nothing but [UnicodeDecodeError]. *)
Lemma decode_Raise (b : bytes) (e : PyErr) :
  decode b = Raise e -> e = UnicodeDecodeError.
Proof.
  assert (H : forall n b, (length b <= n)%nat ->
                          forall e, decode b = Raise e ->
                                    e = UnicodeDecodeError).
  { clear. induction n as [|n IH]; intros b Hlen e Hd.
    - destruct b; [discriminate|cbn in Hlen; lia].
    - destruct b as [|b0 r0]; [discriminate|].
      cbn [decode] in Hd. cbn [length] in Hlen.
      assert (Hrec : forall r,
                 (length r <= n)%nat ->
                 forall k : pystr -> res pystr,
                   (forall s, exists s', k s = Ret s') ->
                   (s <-- decode r ;; k s) = Raise e ->
                   e = UnicodeDecodeError).
      { intros r Hr k Hk Hrun.
        destruct (decode r) as [s|e'] eqn:Hdr; cbn [rbind] in Hrun.
        - destruct (Hk s) as [s' Hs]. congruence.
        - injection Hrun as <-. now apply (IH r Hr). }
      destruct ((0 <=? b0) && (b0 <? 128)).
      { apply (Hrec r0) with (k := fun s => Ret (b0 :: s));
          [lia|eauto|exact Hd]. }
      destruct ((194 <=? b0) && (b0 <=? 223)).
      { destruct r0 as [|b1 r1]; [congruence|].
        destruct (is_cont b1); [|congruence].
        cbn [length] in Hlen.
        apply (Hrec r1)
          with (k := fun s => Ret ((b0 - 192) * 64 + (b1 - 128) :: s));
          [lia|eauto|exact Hd]. }
      destruct ((224 <=? b0) && (b0 <=? 239)).
      { destruct r0 as [|b1 [|b2 r2]]; try congruence.
        cbv zeta in Hd.
        destruct (is_cont b1 && is_cont b2 && _ && _); [|congruence].
        cbn [length] in Hlen.
        eapply (Hrec r2); [lia| |exact Hd]. eauto. }
      destruct ((240 <=? b0) && (b0 <=? 244)); [|congruence].
      destruct r0 as [|b1 [|b2 [|b3 r3]]]; try congruence.
      cbv zeta in Hd.
      destruct (is_cont b1 && is_cont b2 && is_cont b3 && _ && _);
        [|congruence].
      cbn [length] in Hlen.
      eapply (Hrec r3); [lia| |exact Hd]. eauto. }
  apply (H (length b) b). lia.
Qed.

(** *** The digest as an integer *)

Lemma hex_char_digit (d : Z) :
  0 <= d < 16 ->
  is_digit 16 (Sha256.hex_char d) = true
  /\ Sha256.hex_char d <> 120 /\ Sha256.hex_char d <> 88.
Proof.
  intros H.
  assert (Hd : d = 0 \/ d = 1 \/ d = 2 \/ d = 3 \/ d = 4 \/ d = 5 \/ d = 6
               \/ d = 7 \/ d = 8 \/ d = 9 \/ d = 10 \/ d = 11 \/ d = 12
               \/ d = 13 \/ d = 14 \/ d = 15) by lia.
  repeat (destruct Hd as [->|Hd]; [repeat split; discriminate|]).
  subst d. repeat split; discriminate.
Qed.

Lemma digest_bytes (m : bytes) :
  length (Sha256.digest m) = 32%nat
  /\ Forall (fun b => 0 <= b < 256) (Sha256.digest m).
Proof.
  unfold Sha256.digest. cbv zeta.
  set (s := fold_left Sha256.compress _ _). clearbody s.
  split; [reflexivity|].
  unfold Sha256.be32.
  repeat (apply Forall_cons || apply Forall_nil || cbn [app]);
    apply Z.mod_pos_bound; reflexivity.
Qed.

Lemma hexdigest_digits (m : bytes) :
  length (Sha256.hexdigest m) = 64%nat
  /\ Forall (fun c => is_digit 16 c = true /\ c <> 120 /\ c <> 88)
       (Sha256.hexdigest m).
Proof.
  unfold Sha256.hexdigest. destruct (digest_bytes m) as [Hlen Hall].
  assert (H : length (flat_map (fun b => [Sha256.hex_char (b / 16);
                                           Sha256.hex_char (b mod 16)])
                        (Sha256.digest m))
              = (2 * length (Sha256.digest m))%nat
              /\ Forall (fun c => is_digit 16 c = true /\ c <> 120 /\ c <> 88)
                   (flat_map (fun b => [Sha256.hex_char (b / 16);
                                        Sha256.hex_char (b mod 16)])
                      (Sha256.digest m))).
  { clear Hlen. induction Hall as [|b l Hb _ [IHlen IHall]].
    - split; [reflexivity|constructor].
    - cbn [flat_map app length]. split; [rewrite IHlen; lia|].
      constructor; [|constructor; [|assumption]]; apply hex_char_digit.
      + split; [apply Z.div_pos; lia|apply Z.div_lt_upper_bound; lia].
      + apply Z.mod_pos_bound. lia. }
  rewrite Hlen in H. exact H.
Qed.

(** [int(create_hash(message), 16)] is a number below [2^256]. *)
Lemma hash_int (message : pystr) (data : bytes) :
  encode message = Ret data ->
  exists hash_message h,
    create_hash message = Ret hash_message
    /\ py_int 16 hash_message = Ret h
    /\ 0 <= h < 2 ^ 256.
Proof.
  intros Henc. unfold create_hash. rewrite Henc. cbn [rbind].
  destruct (hexdigest_digits data) as [Hlen Hall].
  set (hex := Sha256.hexdigest data) in *.
  assert (Hdig : Forall (fun c => is_digit 16 c = true) hex).
  { eapply Forall_impl; [|exact Hall]. intros c Hc. apply Hc. }
  exists hex, (value_of 16 hex 0). split; [reflexivity|]. split.
  - rewrite <- (app_nil_r hex) at 1. apply (py_int_digits 16 hex 0).
    + assumption.
    + intros ->. discriminate.
    + intros c Hc. apply nth_error_In in Hc.
      rewrite Forall_forall in Hall. apply Hall in Hc. tauto.
    + left. reflexivity.
  - pose proof (value_of_bound 16 hex ltac:(lia) Hdig 0 ltac:(lia)) as Hb.
    rewrite Hlen in Hb. exact Hb.
Qed.

(** The model of the hash agrees with the published digests of the
    empty message, of [abc] and of a message of two blocks. *)
Example sha256_vectors :
  Sha256.hexdigest []
  = lit "e3b0c44298fc1c149afbf4c8996fb92427ae41e4649b934ca495991b7852b855"
  /\ Sha256.hexdigest (lit "abc")
     = lit "ba7816bf8f01cfea414140de5dae2223b00361a396177a9cb410ff61f20015ad"
  /\ Sha256.hexdigest (repeat 97 100)
     = lit "2816597888e4a0d3a36b82b83316ab32680eb8f00f8cd3b904d681246d285a0e".
Proof.
  split; [vm_compute; reflexivity|].
  split; vm_compute; reflexivity.
Qed.

(** * Why textbook RSA inverts itself *)

Lemma pow_mod_mod (a e n : Z) : n <> 0 -> (a mod n) ^ e mod n = a ^ e mod n.
Proof.
  intros Hn. destruct (Z.le_gt_cases 0 e) as [He|He].
  - pattern e. apply natlike_ind; [reflexivity| |assumption].
    intros x Hx IH. rewrite !Z.pow_succ_r by assumption.
    rewrite Z.mul_mod, IH, Z.mod_mod, <- Z.mul_mod by assumption.
    reflexivity.
  - now rewrite !Z.pow_neg_r by assumption.
Qed.

(** Fermat's little theorem, for the exponents RSA uses. *)
Lemma fermat_exponent (p m j : Z) :
  Z.prime p -> 0 <= j -> m ^ (1 + (p - 1) * j) mod p = m mod p.
Proof.
  intros Hp Hj. pose proof (Z.prime_ge_2 p Hp) as Hp2.
  rewrite Z.pow_add_r, Z.pow_1_r, Z.pow_mul_r by nia.
  destruct (Z.eq_dec (m mod p) 0) as [H0|H0].
  - rewrite Z.mul_mod, H0 by lia. now rewrite Z.mul_0_l, Z.mod_0_l by lia.
  - rewrite Z.mul_mod, <- (pow_mod_mod (m ^ (p - 1))) by lia.
    rewrite Z.fermat_nz by assumption.
    rewrite Z.pow_1_l, (Z.mod_1_l p), Z.mul_1_r, Z.mod_mod by lia.
    reflexivity.
Qed.

Lemma coprime_divide_mul (p q x : Z) :
  Z.gcd p q = 1 -> (p | x) -> (q | x) -> (p * q | x).
Proof.
  intros Hg [k ->] Hq. rewrite Z.mul_comm in Hq.
  apply Z.gauss in Hq; [|now rewrite Z.gcd_comm].
  destruct Hq as [j ->]. exists j. ring.
Qed.

Lemma distinct_primes_coprime (p q : Z) :
  Z.prime p -> Z.prime q -> p <> q -> Z.gcd p q = 1.
Proof.
  intros Hp Hq Hne. apply Z.coprime_prime_l; [assumption|].
  intros Hd. apply Hne. now apply Z.divide_prime_prime.
Qed.

(** With [e * d = 1] modulo a common multiple of [p - 1] and [q - 1],
    raising to [e * d] is the identity modulo [p * q]. *)
Lemma rsa_exponent (p q t e d m : Z) :
  Z.prime p -> Z.prime q -> p <> q ->
  (p - 1 | t) -> (q - 1 | t) -> 0 < t ->
  0 <= e -> 0 <= d -> (e * d) mod t = 1 ->
  m ^ (e * d) mod (p * q) = m mod (p * q).
Proof.
  intros Hp Hq Hne Hpt Hqt Ht He Hd Hed.
  pose proof (Z.prime_ge_2 p Hp). pose proof (Z.prime_ge_2 q Hq).
  assert (Hk : e * d = 1 + t * (e * d / t)).
  { rewrite (Z.div_mod (e * d) t) at 1 by lia. lia. }
  assert (Hk0 : 0 <= e * d / t) by (apply Z.div_pos; nia).
  set (k := e * d / t) in *.
  assert (Hmodp : forall r, Z.prime r -> (r - 1 | t) ->
                            (r | m ^ (e * d) - m)).
  { intros r Hr [a Ha]. pose proof (Z.prime_ge_2 r Hr).
    apply Z.mod_divide; [lia|].
    rewrite Zminus_mod, Hk, Ha.
    replace (a * (r - 1) * k) with ((r - 1) * (a * k)) by ring.
    rewrite fermat_exponent by (try assumption; nia).
    now rewrite Z.sub_diag, Z.mod_0_l by lia. }
  assert (Hdiv : (p * q | m ^ (e * d) - m)).
  { apply coprime_divide_mul; auto using distinct_primes_coprime. }
  destruct Hdiv as [c Hc].
  replace (m ^ (e * d)) with (m + c * (p * q)) by lia.
  apply Z.mod_add. nia.
Qed.

(** The two exponentiations of a round trip, as [pow3] computes them. *)
Lemma pow3_pow3 (m e d n : Z) :
  0 <= e -> 0 <= d -> n <> 0 ->
  (c <-- pow3 m e n ;; pow3 c d n) = Ret (m ^ (e * d) mod n).
Proof.
  intros He Hd Hn. rewrite pow3_nonneg by assumption. simpl.
  rewrite pow3_nonneg by assumption.
  now rewrite pow_mod_mod, <- Z.pow_mul_r by assumption.
Qed.

(** * Properties of prime and key generation *)

Lemma bind_Done {A B} (m : Rand A) (k : A -> Rand B) pos b pos' :
  bind m k pos = Done b pos' ->
  exists a pos1, m pos = Done a pos1 /\ k a pos1 = Done b pos'.
Proof.
  unfold bind. destruct (m pos) as [a pos1| |]; try discriminate.
  intros H. exists a, pos1. split; [reflexivity|assumption].
Qed.

Lemma lift_Done {A} (m : res A) pos a pos' :
  lift m pos = Done a pos' -> m = Ret a /\ pos' = pos.
Proof.
  unfold lift. destruct m; [|discriminate].
  intros [= -> ->]. split; reflexivity.
Qed.

(** What [p |= (1 << length - 1) | 1] does to a draw of [length] bits. *)
Lemma candidate_bits (x L : Z) :
  1 <= L -> 0 <= x < 2 ^ L ->
  Z.odd (Z.lor x (Z.lor (Z.shiftl 1 (L - 1)) 1)) = true
  /\ 2 ^ (L - 1) <= Z.lor x (Z.lor (Z.shiftl 1 (L - 1)) 1) < 2 ^ L.
Proof.
  intros HL Hx. rewrite Z.shiftl_1_l.
  set (p := Z.lor x (Z.lor (2 ^ (L - 1)) 1)).
  assert (Hodd : Z.odd p = true).
  { unfold p. rewrite <- Z.bit0_odd, !Z.lor_spec.
    rewrite (Z.bit0_odd 1). simpl. now rewrite !orb_true_r. }
  split; [assumption|].
  assert (Hpow : 0 < 2 ^ (L - 1)) by (apply Z.pow_pos_nonneg; lia).
  assert (Hnn : 0 <= p).
  { unfold p. rewrite !Z.lor_nonneg. lia. }
  assert (Hpos : 0 < p).
  { destruct (Z.eq_dec p 0) as [H0|]; [|lia].
    rewrite H0 in Hodd. discriminate. }
  assert (Hlog : Z.log2 p = L - 1).
  { unfold p. rewrite !Z.log2_lor by first [lia | rewrite Z.lor_nonneg; lia].
    rewrite Z.log2_pow2 by lia. change (Z.log2 1) with 0.
    assert (Z.log2 x < L).
    { destruct (Z.eq_dec x 0) as [->|]; [simpl; lia|].
      apply Z.log2_lt_pow2; lia. }
    lia. }
  pose proof (Z.log2_spec p Hpos) as Hs. rewrite Hlog in Hs.
  replace (Z.succ (L - 1)) with L in Hs by lia. exact Hs.
Qed.

Section Generation.

Variable rnd : nat -> Z.

Lemma accepted_ge_2 (p : Z) : accepted rnd p -> 2 <= p.
Proof.
  intros (pos & pos' & H). unfold is_prime in H.
  destruct (Z.eqb_spec p 2); [lia|]. destruct (Z.eqb_spec p 3); [lia|].
  cbn [orb] in H. destruct (Z.leb_spec p 1); [discriminate|]. lia.
Qed.

(** The squarings and the rounds never raise on a modulus [n >= 2]. *)
Lemma squarings_total (count : nat) (x n : Z) :
  2 <= n -> exists b, squarings count x n = Ret b.
Proof.
  intros Hn. revert x. induction count as [|c IH]; intros x; simpl.
  - now exists false.
  - rewrite pow3_nonneg by lia. simpl.
    destruct (_ =? _); [now exists true|apply IH].
Qed.

Lemma rounds_total (k : nat) (n s r : Z) (pos : nat) :
  5 <= n -> 0 <= r ->
  exists b pos', rounds rnd k n s r pos = Done b pos'.
Proof.
  intros Hn Hr. revert pos. induction k as [|k IH]; intros pos; simpl.
  - now exists true, pos.
  - unfold bind at 1, randrange.
    destruct (Z.leb_spec (n - 1) 2); [lia|].
    unfold bind at 1. rewrite pow3_nonneg by lia. unfold lift at 1.
    destruct (negb _).
    + unfold bind, lift.
      match goal with
      | |- context [squarings ?c ?x n] =>
          destruct (squarings_total c x n) as [b ->]; [lia|]
      end.
      destruct b; [apply IH|]. now exists false, (S pos).
    + apply IH.
Qed.

Lemma split_twos_nonneg (p : positive) (s : Z) :
  0 <= snd (split_twos p s).
Proof.
  revert s. induction p; intros s; simpl; try lia. apply IHp.
Qed.

Lemma is_prime_total (n : Z) (k : nat) (pos : nat) :
  exists b pos', is_prime rnd n k pos = Done b pos'.
Proof.
  unfold is_prime.
  destruct (Z.eqb_spec n 2); [now exists true, pos|].
  destruct (Z.eqb_spec n 3); [now exists true, pos|]. simpl.
  destruct (Z.leb_spec n 1); [now exists false, pos|]. simpl.
  destruct (Z.eqb_spec (n mod 2) 0) as [|Hodd]; [now exists false, pos|].
  assert (5 <= n).
  { destruct (Z.eq_dec n 4) as [->|]; [now compute in Hodd|]. lia. }
  destruct (n - 1) as [|p|p] eqn:Hp; try lia.
  pose proof (split_twos_nonneg p 0).
  destruct (split_twos p 0) as [s r]. apply rounds_total; assumption.
Qed.

(** One pass of the loop of [generate_prime_number]. *)
Lemma generate_prime_number_step (fuel : nat) (L : Z) (pos : nat) :
  1 <= L ->
  generate_prime_number rnd (S fuel) L pos
  = let p := Z.lor (rnd pos mod 2 ^ L) (Z.lor (Z.shiftl 1 (L - 1)) 1) in
    match is_prime rnd p 128 (S pos) with
    | Done true pos' => Done p pos'
    | Done false pos' => generate_prime_number rnd fuel L pos'
    | Fail e => Fail e
    | Timeout => Timeout
    end.
Proof.
  intros HL. simpl. unfold bind at 1, getrandbits.
  destruct (Z.ltb_spec L 0); [lia|].
  unfold bind at 1, lift, shl1.
  destruct (Z.ltb_spec (L - 1) 0); [lia|].
  unfold bind. destruct (is_prime _ _ _ _) as [[|] pos'| |]; reflexivity.
Qed.

Lemma generate_prime_number_spec (fuel : nat) (L : Z) :
  1 <= L ->
  forall pos,
    generate_prime_number rnd fuel L pos = Timeout
    \/ exists p pos',
        generate_prime_number rnd fuel L pos = Done p pos'
        /\ candidate rnd L p.
Proof.
  intros HL. induction fuel as [|f IH]; intros pos; [now left|].
  rewrite generate_prime_number_step by assumption. cbv zeta.
  set (p := Z.lor _ _).
  destruct (is_prime_total p 128 (S pos)) as (b & pos' & Hrun).
  rewrite Hrun. destruct b; [|apply IH].
  right. exists p, pos'. split; [reflexivity|].
  destruct (candidate_bits (rnd pos mod 2 ^ L) L) as [Hodd Hbits];
    [lia|apply Z.mod_pos_bound; apply Z.pow_pos_nonneg; lia|].
  repeat split; try assumption; try apply Hbits.
  now exists (S pos), pos'.
Qed.

Lemma generate_prime_number_Done (fuel : nat) (L : Z) pos p pos' :
  generate_prime_number rnd fuel L pos = Done p pos' ->
  1 <= L /\ candidate rnd L p.
Proof.
  intros H.
  assert (HL : 1 <= L).
  { destruct fuel as [|f]; [discriminate|]. simpl in H.
    apply bind_Done in H. destruct H as (p0 & pos1 & _ & H).
    apply bind_Done in H. destruct H as (top & pos2 & H & _).
    apply lift_Done in H. destruct H as [H _]. unfold shl1 in H.
    destruct (Z.ltb_spec (L - 1) 0); [discriminate|lia]. }
  split; [assumption|].
  destruct (generate_prime_number_spec fuel L HL pos)
    as [Ht|(p1 & pos1 & Hrun & Hrest)]; [congruence|].
  rewrite Hrun in H. injection H as -> ->. exact Hrest.
Qed.

(** A run that has returned returns the same with more passes allowed:
    the number of passes is the model's, not the program's. *)
Lemma generate_prime_number_more (fuel : nat) (L : Z) :
  forall pos p pos',
    generate_prime_number rnd fuel L pos = Done p pos' ->
    forall more,
      generate_prime_number rnd (fuel + more) L pos = Done p pos'.
Proof.
  induction fuel as [|f IH]; intros pos p pos' H more; [discriminate|].
  destruct (generate_prime_number_Done _ _ _ _ _ H) as [HL _].
  cbn [Nat.add]. rewrite generate_prime_number_step in * by assumption.
  cbv zeta in *.
  destruct (is_prime rnd _ 128 (S pos)) as [[|] pos1| |];
    try assumption. now apply IH.
Qed.

End Generation.
Lemma randrange_spec rnd (start stop : Z) pos :
  start < stop ->
  exists v, randrange rnd start stop pos = Done v (S pos)
            /\ start <= v < stop.
Proof.
  intros H. unfold randrange. destruct (Z.leb_spec stop start); [lia|].
  eexists. split; [reflexivity|].
  pose proof (Z.mod_pos_bound (rnd pos) (stop - start)). lia.
Qed.

Lemma choose_e_Done rnd (fuel : nat) (totient : Z) pos e pos' :
    choose_e rnd fuel totient pos = Done e pos' ->
    2 ^ 16 <= e < 2 ^ 17 /\ gcd e totient = 1.
Proof.
    revert pos. induction fuel as [|f IH]; intros pos H; [discriminate|].
    cbn [choose_e] in H. unfold bind in H.
    destruct (randrange_spec rnd (2 ^ 16) (2 ^ 17) pos) as (v & Hr & Hv);
      [reflexivity|].
    rewrite Hr in H.
    destruct (Z.eqb_spec (gcd v totient) 1) as [Hg|Hg].
    - unfold ret in H. assert (v = e) by congruence. subst v.
      split; assumption.
    - apply IH in H. assumption.
Qed.

(** What a finished run of [generate_keys] went through. *)
Lemma generate_keys_Done (rnd : nat -> Z) (fuel : nat) (self : RSA) :
  forall pos self' pos',
    generate_keys rnd fuel self pos = Done self' pos' ->
    exists p q totient e d,
      candidate rnd (key_length self / 2) p
      /\ candidate rnd (key_length self / 2) q
      /\ p <> q
      /\ lcm (p - 1) (q - 1) = Ret totient
      /\ (2 ^ 16 <= e < 2 ^ 17 /\ gcd e totient = 1)
      /\ modinv e totient = Ret d
      /\ self' = {| key_length := key_length self;
                    key_pair := Some (keys_of (p * q) e d) |}.
Proof.
  induction fuel as [|f IH]; intros pos self' pos' H; [discriminate|].
  cbn [generate_keys] in H.
  apply bind_Done in H. destruct H as (p & pos1 & Hp & H).
  apply bind_Done in H. destruct H as (q & pos2 & Hq & H).
  destruct (Z.eqb_spec p q) as [Heq|Hne]; cbn [negb] in H.
  - apply IH in H. exact H.
  - apply bind_Done in H. destruct H as (totient & pos3 & Ht & H).
    apply lift_Done in Ht. destruct Ht as [Ht ->].
    apply bind_Done in H. destruct H as (e & pos4 & He & H).
    apply bind_Done in H. destruct H as (d & pos5 & Hd & H).
    apply lift_Done in Hd. destruct Hd as [Hd ->].
    unfold ret in H. injection H as <- <-.
    apply generate_prime_number_Done in Hp, Hq.
    apply choose_e_Done in He.
    exists p, q, totient, e, d. unfold keys_of. intuition.
Qed.

(** Two accepted odd numbers that differ have a totient of at least 2,
    which the source's [lcm] computes. *)
Lemma totient_of_candidates (rnd : nat -> Z) (L p q : Z) :
  candidate rnd L p -> candidate rnd L q ->
  3 <= p /\ 3 <= q
  /\ lcm (p - 1) (q - 1) = Ret (Z.lcm (p - 1) (q - 1))
  /\ 2 <= Z.lcm (p - 1) (q - 1).
Proof.
  intros (Hop & _ & Hap) (Hoq & _ & Haq).
  apply accepted_ge_2 in Hap, Haq.
  assert (p <> 2) by (intros ->; discriminate).
  assert (q <> 2) by (intros ->; discriminate).
  repeat split; try lia.
  - apply lcm_correct; lia.
  - pose proof (Z.lcm_nonneg (p - 1) (q - 1)).
    destruct (Z.divide_lcm_l (p - 1) (q - 1)) as [k Hk].
    assert (Z.lcm (p - 1) (q - 1) <> 0).
    { intros Hz. apply Z.lcm_eq_0 in Hz. lia. }
    assert (0 < k) by nia. nia.
Qed.

(** * The generated keys *)

(** If the product of two numbers above 1 is a product of two primes,
    they are those primes. *)
Lemma semiprime_factors (p q : Z) :
  1 < p -> 1 < q -> semiprime (p * q) -> Z.prime p /\ Z.prime q.
Proof.
  intros Hp Hq (p' & q' & Hp' & Hq' & Heq).
  pose proof (Z.prime_ge_2 p' Hp'). pose proof (Z.prime_ge_2 q' Hq').
  assert (Hcase : forall a b a' b',
             1 < a -> 1 < b -> Z.prime a' -> Z.prime b' -> 2 <= a' ->
             2 <= b' -> a * b = a' * b' -> (a' | a) ->
             Z.prime a /\ Z.prime b).
  { intros a b a' b' Ha Hb Ha' Hb' Ha2 Hb2 Hab [k Hk].
    assert (Hb'k : b' = k * b) by nia.
    assert (Hdiv : (b | b')) by (exists k; exact Hb'k).
    apply (Z.divide_prime_r b b' Hb') in Hdiv.
    assert (Eb : b = b') by lia.
    assert (Ek : k = 1) by nia.
    assert (Ea : a = a') by lia.
    rewrite Ea, Eb. split; assumption. }
  assert (Hdvd : (p' | p * q)) by (exists q'; lia).
  apply Z.divide_prime_mul in Hdvd; [|assumption].
  destruct Hdvd as [Hd|Hd].
  - apply (Hcase p q p' q'); auto.
  - apply and_comm. apply (Hcase q p p' q'); auto. lia.
Qed.

(** The arithmetic facts about a generated key pair. *)
Lemma generated_key_facts (rnd : nat -> Z) (fuel : nat) (self : RSA)
  (pos : nat) (self' : RSA) (pos' : nat) :
  generate_keys rnd fuel self pos = Done self' pos' ->
  exists p q e d,
    key_length self' = key_length self
    /\ key_pair self' = Some (keys_of (p * q) e d)
    /\ candidate rnd (key_length self / 2) p
    /\ candidate rnd (key_length self / 2) q
    /\ p <> q /\ 3 <= p /\ 3 <= q
    /\ lcm (p - 1) (q - 1) = Ret (Z.lcm (p - 1) (q - 1))
    /\ 2 <= Z.lcm (p - 1) (q - 1)
    /\ 2 ^ 16 <= e < 2 ^ 17
    /\ gcd e (Z.lcm (p - 1) (q - 1)) = 1
    /\ Z.gcd e (Z.lcm (p - 1) (q - 1)) = 1
    /\ modinv e (Z.lcm (p - 1) (q - 1)) = Ret d
    /\ 0 <= d < Z.lcm (p - 1) (q - 1)
    /\ (e * d) mod Z.lcm (p - 1) (q - 1) = 1.
Proof.
  intros H. apply generate_keys_Done in H.
  destruct H as (p & q & t & e & d & Hp & Hq & Hne & Ht & [He Hg] & Hd & ->).
  destruct (totient_of_candidates rnd _ p q Hp Hq) as (Hp3 & Hq3 & Hl & Hl2).
  rewrite Hl in Ht. injection Ht as <-.
  assert (Hg' : Z.gcd e (Z.lcm (p - 1) (q - 1)) = 1).
  { rewrite <- gcd_correct by lia. assumption. }
  destruct (modinv_spec e (Z.lcm (p - 1) (q - 1))) as (d' & Hd' & Hr & Hm);
    [lia|assumption|].
  rewrite Hd' in Hd. injection Hd as <-.
  exists p, q, e, d'.
  repeat match goal with
         | |- _ /\ _ => split
         end; try assumption; try reflexivity; lia.
Qed.

(** * Cipher and signature over a key pair *)

Lemma encrypt_units (pk : PublicKey) (plaintext : pystr) :
  0 <= E pk -> N pk <> 0 ->
  encrypt plaintext pk
  = Ret (map (fun c => c ^ E pk mod N pk) plaintext).
Proof.
  intros He Hn. unfold encrypt, ord.
  induction plaintext as [|c s IH]; [reflexivity|].
  cbn [mapM map]. rewrite pow3_nonneg by assumption. cbn [rbind].
  rewrite IH. reflexivity.
Qed.

Lemma decrypt_units (self : RSA) (kp : RSAKeyPair) (units : list Z)
  (plaintext : pystr) :
  key_pair self = Some kp ->
  0 <= D (private_key kp) -> N (public_key kp) <> 0 ->
  valid_str plaintext ->
  map (fun c => c ^ D (private_key kp) mod N (public_key kp)) units
  = plaintext ->
  decrypt self (int_list units) = Ret plaintext.
Proof.
  intros Hkp Hd Hn Hv Hmap. unfold decrypt, int_list. rewrite Hkp.
  cbn [py_iter rbind]. revert plaintext Hv Hmap.
  induction units as [|c units IH]; intros plaintext Hv Hmap.
  - simpl in Hmap. subst plaintext. reflexivity.
  - destruct plaintext as [|m s]; [discriminate|].
    cbn [map] in Hmap. injection Hmap as Hm Hs.
    inversion Hv as [|? ? Hvm Hvs]; subst.
    cbn [map mapM as_int rbind]. rewrite pow3_nonneg by assumption.
    cbn [rbind]. rewrite chr_ok by assumption. cbn [rbind].
    rewrite (IH _ Hvs eq_refl). reflexivity.
Qed.

(** Round trip over a key with prime factors. *)
Lemma roundtrip_units (p q e d : Z) (plaintext : pystr) :
  Z.prime p -> Z.prime q -> p <> q ->
  0 <= e -> 0 <= d -> (e * d) mod Z.lcm (p - 1) (q - 1) = 1 ->
  Forall (fun c => 0 <= c < p * q) plaintext ->
  map (fun c => c ^ d mod (p * q))
      (map (fun c => c ^ e mod (p * q)) plaintext)
  = plaintext.
Proof.
  intros Hp Hq Hne He Hd Hed Hall.
  pose proof (Z.prime_ge_2 p Hp). pose proof (Z.prime_ge_2 q Hq).
  assert (Hl : 0 < Z.lcm (p - 1) (q - 1)).
  { pose proof (Z.lcm_nonneg (p - 1) (q - 1)).
    assert (Z.lcm (p - 1) (q - 1) <> 0).
    { intros Hz. apply Z.lcm_eq_0 in Hz. lia. }
    lia. }
  induction Hall as [|c s Hc _ IH]; [reflexivity|].
  cbn [map]. rewrite IH. f_equal.
  rewrite pow_mod_mod, <- Z.pow_mul_r by nia.
  rewrite (rsa_exponent p q (Z.lcm (p - 1) (q - 1))); try assumption.
  - apply Z.mod_small. assumption.
  - apply Z.divide_lcm_l.
  - apply Z.divide_lcm_r.
Qed.

(** * Which exceptions the cipher can raise *)

Lemma mapM_Ret {A B} (f : A -> res B) (l : list A) (ys : list B) :
  mapM f l = Ret ys -> Forall2 (fun x y => f x = Ret y) l ys.
Proof.
  revert ys. induction l as [|x l IH]; intros ys H.
  - injection H as <-. constructor.
  - cbn [mapM] in H. destruct (f x) as [y|e] eqn:Hx; [|discriminate].
    cbn [rbind] in H. destruct (mapM f l) as [ys'|e]; [|discriminate].
    injection H as <-. constructor; [assumption|]. now apply IH.
Qed.

Lemma mapM_Raise {A B} (f : A -> res B) (l : list A) (e : PyErr) :
  mapM f l = Raise e -> exists x, In x l /\ f x = Raise e.
Proof.
  induction l as [|x l IH]; intros H; [discriminate|].
  cbn [mapM] in H. destruct (f x) as [y|e'] eqn:Hx.
  - cbn [rbind] in H. destruct (mapM f l) as [ys|e'']; [discriminate|].
    injection H as ->. destruct (IH eq_refl) as (x' & Hin & Hx').
    exists x'. split; [now right|assumption].
  - injection H as ->. exists x. split; [now left|assumption].
Qed.

Lemma pow3_Raise (b e m : Z) (err : PyErr) :
  pow3 b e m = Raise err -> err = ValueError.
Proof.
  unfold pow3. destruct (m =? 0); [congruence|].
  destruct (0 <=? e); [discriminate|].
  destruct (Z.gcd b m =? 1); [discriminate|congruence].
Qed.

Lemma chr_Raise (i : Z) (err : PyErr) :
  chr i = Raise err ->
  ~ valid_codepoint i /\ (err = ValueError \/ err = OverflowError).
Proof.
  unfold chr, valid_codepoint.
  destruct ((0 <=? i) && (i <=? 1114111)) eqn:E1; [discriminate|].
  intros H. split.
  - intros [H0 H1]. apply andb_false_iff in E1.
    destruct E1 as [E1|E1]; apply Z.leb_gt in E1; lia.
  - destruct (_ && _) in H; injection H as <-; tauto.
Qed.

Lemma as_int_Raise (v : pyobj) (err : PyErr) :
  as_int v = Raise err -> err = TypeError.
Proof. destruct v; simpl; congruence. Qed.

Lemma py_iter_Raise (v : pyobj) (err : PyErr) :
  py_iter v = Raise err -> err = TypeError.
Proof. destruct v; simpl; congruence. Qed.

Lemma encode_char_Raise (c : Z) (err : PyErr) :
  encode_char c = Raise err -> err = UnicodeEncodeError.
Proof.
  unfold encode_char.
  repeat match goal with
         | |- context [if ?b then _ else _] => destruct b
         end; congruence.
Qed.

Lemma encode_Raise (s : pystr) (err : PyErr) :
  encode s = Raise err -> err = UnicodeEncodeError.
Proof.
  unfold encode. destruct (mapM encode_char s) eqn:H; [discriminate|].
  intros [= <-]. apply mapM_Raise in H. destruct H as (c & _ & H).
  now apply encode_char_Raise in H.
Qed.

Lemma py_int_Raise (base : Z) (s : list Z) (err : PyErr) :
  py_int base s = Raise err -> err = ValueError.
Proof.
  unfold py_int.
  repeat match goal with
         | |- context [if ?b then _ else _] => destruct b
         | |- context [match ?x with _ => _ end] => destruct x
         end; congruence.
Qed.

Lemma create_hash_Raise (message : pystr) (err : PyErr) :
  create_hash message = Raise err -> err = UnicodeEncodeError.
Proof.
  unfold create_hash. destruct (encode message) eqn:H; [discriminate|].
  intros [= <-]. now apply encode_Raise in H.
Qed.

(** The exceptions of [decrypt] once the key pair is there. *)
Lemma decrypt_Raise (self : RSA) (kp : RSAKeyPair) (v : pyobj) (err : PyErr) :
  key_pair self = Some kp ->
  decrypt self v = Raise err ->
  err = TypeError \/ err = ValueError \/ err = OverflowError.
Proof.
  intros Hkp. unfold decrypt. rewrite Hkp.
  destruct (py_iter v) as [items|e] eqn:Hiter; cbn [rbind].
  - intros H. apply mapM_Raise in H. destruct H as (x & _ & H).
    destruct (as_int x) as [c|e] eqn:Hc; cbn [rbind] in H.
    + destruct (pow3 c _ _) as [m|e] eqn:Hm; cbn [rbind] in H.
      * apply chr_Raise in H. tauto.
      * injection H as <-. apply pow3_Raise in Hm. tauto.
    + injection H as <-. apply as_int_Raise in Hc. tauto.
  - intros [= <-]. apply py_iter_Raise in Hiter. tauto.
Qed.

Lemma sign_Raise (self : RSA) (kp : RSAKeyPair) (message : pystr)
  (err : PyErr) :
  key_pair self = Some kp ->
  sign self message = Raise err ->
  err = UnicodeEncodeError \/ err = ValueError.
Proof.
  intros Hkp. unfold sign. rewrite Hkp.
  destruct (create_hash message) as [hex|e] eqn:Hh; cbn [rbind].
  - destruct (py_int 16 hex) as [h|e] eqn:Hi; cbn [rbind].
    + intros H. apply pow3_Raise in H. tauto.
    + intros [= <-]. apply py_int_Raise in Hi. tauto.
  - intros [= <-]. apply create_hash_Raise in Hh. tauto.
Qed.


(** * Properties of the chat application *)

Lemma encode_ascii (s : pystr) :
  Forall (fun c => 0 <= c < 128) s -> encode s = Ret s.
Proof.
  intros H. unfold encode.
  assert (Hm : mapM encode_char s = Ret (map (fun c => [c]) s)).
  { induction H as [|c s Hc _ IH]; [reflexivity|].
    cbn [mapM map]. unfold encode_char at 1.
    destruct (Z.ltb_spec c 0); [lia|].
    destruct (Z.ltb_spec 1114111 c); [lia|].
    destruct (Z.ltb_spec c 128); [|lia].
    cbn [orb rbind]. rewrite IH. reflexivity. }
  rewrite Hm. cbn [rbind]. f_equal. clear.
  induction s as [|c s IH]; [reflexivity|].
  cbn [map concat app]. now f_equal.
Qed.

Lemma dec_ascii (ds : list Z) :
  Forall dec ds -> Forall (fun c => 0 <= c < 128) ds.
Proof.
  intros H. eapply Forall_impl; [|exact H].
  unfold dec. intros; lia.
Qed.

Lemma str_of_int_chars (n : Z) :
  Forall (fun c => c = 45 \/ dec c) (str_of_int n).
Proof.
  unfold str_of_int. destruct (Z.ltb_spec n 0).
  - constructor; [now left|].
    destruct (digits_spec (- n)) as (_ & Hd & _); [lia|].
    eapply Forall_impl; [|exact Hd]. intros; now right.
  - destruct (digits_spec n) as (_ & Hd & _); [lia|].
    eapply Forall_impl; [|exact Hd]. intros; now right.
Qed.

Lemma str_of_int_ascii (n : Z) :
  Forall (fun c => 0 <= c < 128) (str_of_int n).
Proof.
  eapply Forall_impl; [|apply str_of_int_chars].
  unfold dec. intros c [->|H]; lia.
Qed.

Lemma ljust_ascii (s : pystr) (width : Z) :
  Forall (fun c => 0 <= c < 128) s ->
  Forall (fun c => 0 <= c < 128) (ljust s width).
Proof.
  intros H. unfold ljust. apply Forall_app. split; [assumption|].
  apply Forall_forall. intros c Hc. apply repeat_spec in Hc. lia.
Qed.

(** The header never fails to encode, and is what [ljust] printed. *)
Lemma message_header_eq (message : bytes) :
  message_header message
  = Ret (ljust (str_of_int (Z.of_nat (length message))) header_size).
Proof.
  unfold message_header. apply encode_ascii, ljust_ascii, str_of_int_ascii.
Qed.

Lemma send_data_open (self : ChatApp) (sock : socket) (data : pystr)
  (message : bytes) :
  client_socket self = Some sock -> sock_open sock = true ->
  encode data = Ret message ->
  send_data self data
  = Normal (set_client_socket self
              (Some {| sock_open := true;
                       outbox := outbox sock ++ [packet_of message] |})).
Proof.
  intros Hs Ho He. unfold send_data, sendall. rewrite Hs, He.
  cbn [rbind]. rewrite message_header_eq. cbn [rbind]. rewrite Ho.
  reflexivity.
Qed.

Lemma key_message_ascii (kp : RSAKeyPair) :
  Forall (fun c => 0 <= c < 128) (key_message kp).
Proof.
  unfold key_message. repeat (apply Forall_app; split);
    try apply str_of_int_ascii; repeat constructor; lia.
Qed.

Lemma format_int_cases (n : Z) :
  format_int n = Ret (str_of_int n) \/ format_int n = Raise ValueError.
Proof.
  unfold format_int. destruct (int_max_str_digits <? _); [now right|now left].
Qed.

(** The text [send_public_key] prints, or its [ValueError]. *)
Lemma key_text_cases (kp : RSAKeyPair) :
  (N_text <-- format_int (N (public_key kp)) ;;
   E_text <-- format_int (E (public_key kp)) ;;
   Ret (lit "KEYS:" ++ N_text ++ lit "," ++ E_text))
  = Ret (key_message kp)
  \/ (N_text <-- format_int (N (public_key kp)) ;;
      E_text <-- format_int (E (public_key kp)) ;;
      Ret (lit "KEYS:" ++ N_text ++ lit "," ++ E_text))
     = Raise ValueError.
Proof.
  destruct (format_int_cases (N (public_key kp))) as [->| ->];
    cbn [rbind]; [|now right].
  destruct (format_int_cases (E (public_key kp))) as [->| ->];
    cbn [rbind]; [now left|now right].
Qed.

Lemma key_text_printable (kp : RSAKeyPair) :
  printable (N (public_key kp)) -> printable (E (public_key kp)) ->
  (N_text <-- format_int (N (public_key kp)) ;;
   E_text <-- format_int (E (public_key kp)) ;;
   Ret (lit "KEYS:" ++ N_text ++ lit "," ++ E_text))
  = Ret (key_message kp).
Proof.
  intros Hn He. rewrite !format_int_printable by assumption. reflexivity.
Qed.

(** [send_public_key] raises only [ValueError], only when a number of
    the own key does not print, and then before anything is done;
    otherwise it leaves the peer's key, the role and the key pair as
    they are. *)
Lemma send_public_key_outcome (self : ChatApp) :
  (exists self',
      send_public_key self = Normal self'
      /\ other_public_key self' = other_public_key self
      /\ is_client self' = is_client self
      /\ rsa self' = rsa self
      /\ (client_socket self = None -> client_socket self' = None)
      /\ (key_pair (rsa self) = None ->
          client_socket self' = client_socket self))
  \/ send_public_key self = Raised self ValueError.
Proof.
  unfold send_public_key.
  destruct (client_socket self) as [sock|] eqn:Hs;
    [destruct (key_pair (rsa self)) as [kp|] eqn:Hk|].
  - destruct (key_text_cases kp) as [-> | ->]; [left|now right].
    unfold send_data. rewrite Hs.
    rewrite (encode_ascii _ (key_message_ascii kp)). cbn [rbind].
    rewrite message_header_eq. cbn [rbind and_then].
    destruct (sendall sock _) as [sock'|e]; cbn [and_then];
      eexists; (split; [reflexivity|]); cbn; repeat split;
      congruence.
  - left. eexists. split; [reflexivity|]. cbn. repeat split; congruence.
  - left. eexists. split; [reflexivity|]. cbn. repeat split; congruence.
Qed.

Lemma send_public_key_open (self : ChatApp) (sock : socket)
  (kp : RSAKeyPair) :
  client_socket self = Some sock -> sock_open sock = true ->
  key_pair (rsa self) = Some kp ->
  printable (N (public_key kp)) -> printable (E (public_key kp)) ->
  send_public_key self
  = Normal (update_chat
              (set_client_socket self
                 (Some {| sock_open := true;
                          outbox := outbox sock
                                    ++ [packet_of (key_message kp)] |}))
              PublicKeySent).
Proof.
  intros Hs Ho Hk Hn He. unfold send_public_key. rewrite Hs, Hk.
  rewrite (key_text_printable kp Hn He).
  rewrite (send_data_open self sock (key_message kp) (key_message kp));
    try assumption; [reflexivity|].
  apply encode_ascii, key_message_ascii.
Qed.

(** A number that does not print stops [send_public_key] before it
    writes. *)
Lemma send_public_key_unprintable (self : ChatApp) (sock : socket)
  (kp : RSAKeyPair) :
  client_socket self = Some sock -> key_pair (rsa self) = Some kp ->
  format_int (N (public_key kp)) = Raise ValueError
  \/ format_int (E (public_key kp)) = Raise ValueError ->
  send_public_key self = Raised self ValueError.
Proof.
  intros Hs Hk H. unfold send_public_key. rewrite Hs, Hk.
  destruct (format_int_cases (N (public_key kp))) as [Hn|Hn]; rewrite Hn;
    cbn [rbind]; [|reflexivity].
  destruct H as [H|H]; [congruence|]. rewrite H. reflexivity.
Qed.

(** * The frame decoder *)

Lemma feed_app (st : rx) (a b : list bytes) :
  feed st (a ++ b)
  = (r1 <-- feed st a ;;
     r2 <-- feed (fst r1) b ;;
     Ret (fst r2, snd r1 ++ snd r2)).
Proof.
  revert st. induction a as [|m a IH]; intros st.
  - cbn [app feed rbind fst snd]. destruct (feed st b) as [[st' l]|];
      reflexivity.
  - cbn [app feed]. destruct (receive st m) as [[st1 o]|]; cbn [rbind];
      [|reflexivity].
    cbn [fst snd]. rewrite IH.
    destruct (feed st1 a) as [[st2 l2]|]; cbn [rbind fst snd];
      [|reflexivity].
    destruct (feed st2 b) as [[st3 l3]|]; cbn [rbind fst snd];
      [|reflexivity].
    destruct o; reflexivity.
Qed.

Lemma firstn_repeat {A} (x : A) (k m : nat) :
  (k <= m)%nat -> firstn k (repeat x m) = repeat x k.
Proof.
  revert m. induction k as [|k IH]; intros m H; [reflexivity|].
  destruct m as [|m]; [lia|]. cbn [repeat firstn]. f_equal. apply IH. lia.
Qed.

(** The header of a body shorter than [10^10]: the digits of its length
    and spaces up to ten characters. *)
Lemma header_shape (body : bytes) :
  Z.of_nat (length body) < 10 ^ 10 ->
  exists pad,
    packet_of body
    = digits (Z.of_nat (length body)) ++ repeat 32 pad ++ body
    /\ (length (digits (Z.of_nat (length body))) + pad = 10)%nat.
Proof.
  intros Hlen. unfold packet_of, ljust, str_of_int, header_size.
  destruct (Z.ltb_spec (Z.of_nat (length body)) 0); [lia|].
  destruct (digits_spec (Z.of_nat (length body))) as (_ & _ & _ & Hd); [lia|].
  specialize (Hd 9%nat Hlen).
  exists (Z.to_nat (10 - Z.of_nat (length (digits (Z.of_nat (length body)))))).
  split; [now rewrite <- app_assoc|lia].
Qed.

(** What the decoder reads as the length in the first read. *)
Lemma first_read_length (body r1 : bytes) (more : bytes) :
  Z.of_nat (length body) < 10 ^ 10 ->
  r1 ++ more = packet_of body ->
  (length (digits (Z.of_nat (length body))) <= length r1)%nat ->
  py_int 10 (firstn (Z.to_nat header_size) r1)
  = Ret (Z.of_nat (length body)).
Proof.
  intros Hlen Heq Hdig.
  destruct (header_shape body Hlen) as (pad & Hshape & Hpad).
  set (ds := digits (Z.of_nat (length body))) in *.
  change (Z.to_nat header_size) with 10%nat.
  set (k := Nat.min 10 (length r1)).
  assert (Hk : firstn 10 r1 = firstn k (r1 ++ more)).
  { unfold k. destruct (Nat.le_gt_cases 10 (length r1)).
    - rewrite Nat.min_l by assumption.
      rewrite firstn_app. replace (10 - length r1)%nat with 0%nat by lia.
      now rewrite firstn_O, app_nil_r.
    - rewrite Nat.min_r by lia. rewrite firstn_all2 by lia.
      rewrite firstn_app, Nat.sub_diag, firstn_O, app_nil_r.
      now rewrite firstn_all. }
  rewrite Hk, Heq, Hshape.
  assert (Hkd : (length ds <= k <= 10)%nat) by (unfold k; lia).
  rewrite firstn_app, (firstn_all2 ds) by lia.
  rewrite firstn_app, repeat_length.
  replace (k - length ds - pad)%nat with 0%nat by lia.
  rewrite firstn_O, app_nil_r, firstn_repeat by lia.
  apply py_int_digits_of; [lia|apply printable_small; lia].
Qed.

(** The reads after the first, up to the end of the frame. *)
Lemma feed_rest (frame : bytes) (len : Z) :
  Z.of_nat (length frame) - header_size = len ->
  forall reads acc,
    reads <> [] -> Forall (fun r => r <> []) reads ->
    acc ++ concat reads = frame ->
    feed {| full_message := acc; new_msg := false; msg_length := len |}
      reads
    = Ret (rx_between len, [skipn (Z.to_nat header_size) frame]).
Proof.
  intros Hlen. induction reads as [|r rest IH]; intros acc Hne Hall Heq;
    [contradiction|].
  pose proof (Forall_inv Hall) as Hr.
  pose proof (Forall_inv_tail Hall) as Hrest.
  cbn [feed]. unfold receive. cbn [new_msg msg_length full_message rbind].
  destruct rest as [|r' rest'].
  - cbn [concat] in Heq. rewrite app_nil_r in Heq.
    rewrite Heq, Hlen, Z.eqb_refl. reflexivity.
  - assert (Hshort : (length (acc ++ r) < length frame)%nat).
    { rewrite <- Heq. cbn [concat]. rewrite !length_app.
      pose proof (Forall_inv Hrest) as Hr'.
      destruct r' as [|x r']; [contradiction|]. cbn [length]. lia. }
    destruct (Z.eqb_spec (Z.of_nat (length (acc ++ r)) - header_size) len)
      as [Hc|_]; [lia|].
    cbn [rbind fst snd].
    rewrite (IH (acc ++ r)); [reflexivity|discriminate|assumption|].
    rewrite <- app_assoc. exact Heq.
Qed.

(** One frame, delivered in a way the decoder copes with. *)
Lemma feed_frame (body : bytes) (reads : list bytes) (st : rx) :
  new_msg st = true -> full_message st = [] ->
  well_split body reads ->
  feed st reads = Ret (rx_between (Z.of_nat (length body)), [body]).
Proof.
  intros Hnew Hfull (Hlen & Hne & Hall & Hcat & Hdig).
  destruct reads as [|r1 rest]; [contradiction|].
  cbn [hd concat] in *.
  pose proof (first_read_length body r1 (concat rest) Hlen Hcat Hdig) as Hint.
  destruct (header_shape body Hlen) as (pad & Hshape & Hpad).
  assert (Hflen : Z.of_nat (length (packet_of body)) - header_size
                  = Z.of_nat (length body)).
  { rewrite Hshape, !length_app, repeat_length. unfold header_size. lia. }
  assert (Hskip : skipn (Z.to_nat header_size) (packet_of body) = body).
  { rewrite Hshape, app_assoc. change (Z.to_nat header_size) with 10%nat.
    rewrite skipn_app, skipn_all2 by (rewrite length_app, repeat_length; lia).
    rewrite length_app, repeat_length.
    replace (10 - (length (digits (Z.of_nat (length body))) + pad))%nat
      with 0%nat by lia.
    reflexivity. }
  pose proof (Forall_inv Hall) as Hr1.
  pose proof (Forall_inv_tail Hall) as Hrest.
  cbn [feed]. unfold receive. rewrite Hnew, Hint, Hfull.
  cbn [rbind app].
  destruct rest as [|r2 rest'].
  - cbn [concat] in Hcat. rewrite app_nil_r in Hcat. subst r1.
    rewrite Hflen, Z.eqb_refl. cbn [rbind feed fst snd].
    rewrite Hskip. reflexivity.
  - assert (Hshort : (length r1 < length (packet_of body))%nat).
    { rewrite <- Hcat, length_app. cbn [concat]. rewrite length_app.
      pose proof (Forall_inv Hrest) as Hr2.
      destruct r2 as [|x r2]; [contradiction|]. cbn [length]. lia. }
    destruct (Z.eqb_spec (Z.of_nat (length r1) - header_size)
                (Z.of_nat (length body))) as [Hc|_]; [lia|].
    cbn [rbind fst snd].
    rewrite (feed_rest (packet_of body) (Z.of_nat (length body)) Hflen
               (r2 :: rest') r1); [|discriminate|assumption|assumption].
    cbn [rbind fst snd]. rewrite Hskip. reflexivity.
Qed.


(** The receive loop on reads over which the decoder completes
    [bodies]: it decodes and handles them in order. *)
Lemma listen_loop_deliver
  (json_loads : pystr -> res pyobj) (reads : list bytes) :
  forall (self : ChatApp) (st st' : rx) (bodies : list bytes),
    feed st reads = Ret (st', bodies) ->
    listen_loop json_loads self st reads
    = deliver json_loads self bodies st'.
Proof.
  induction reads as [|message more IH]; intros self st st' bodies Hfeed.
  - cbn [feed] in Hfeed. injection Hfeed as <- <-. reflexivity.
  - cbn [feed] in Hfeed.
    destruct (receive st message) as [[st1 o]|] eqn:Hrecv; [|discriminate].
    cbn [rbind fst snd] in Hfeed.
    destruct (feed st1 more) as [[st2 l]|] eqn:Hmore; [|discriminate].
    cbn [rbind fst snd] in Hfeed. injection Hfeed as <- <-.
    cbn [listen_loop]. unfold listen_step. rewrite Hrecv.
    destruct o as [body|].
    + cbn [deliver]. destruct (decode body) as [text|e]; [|reflexivity].
      destruct (handle_received_message json_loads self text)
        as [self1|self1 e]; [|reflexivity].
      now apply (IH self1 st1 st2 l).
    + now apply (IH self st1 st2 l).
Qed.

(** The decoder over frames delivered one after the other, each well
    split. *)
Lemma feed_well_split (bodies : list bytes) (splits : list (list bytes)) :
  Forall2 well_split bodies splits ->
  forall st,
    new_msg st = true -> full_message st = [] ->
    exists st',
      feed st (concat splits) = Ret (st', bodies)
      /\ new_msg st' = true /\ full_message st' = [].
Proof.
  intros H. induction H as [|body reads bodies splits Hsplit _ IH];
    intros st Hnew Hfull.
  - exists st. repeat split; assumption.
  - cbn [concat]. rewrite feed_app.
    rewrite (feed_frame body reads st Hnew Hfull Hsplit).
    cbn [rbind fst snd].
    destruct (IH (rx_between (Z.of_nat (length body))) eq_refl eq_refl)
      as (st' & Hrun & Hn & Hf).
    exists st'. rewrite Hrun. repeat split; assumption.
Qed.
(** * The handler *)

Lemma parse_keys_Raise (message : pystr) (e : PyErr) :
  parse_keys message = Raise e -> e = ValueError.
Proof.
  unfold parse_keys.
  destruct (split_once 58 message) as [[a key_data]|]; [|congruence].
  destruct (split_once 44 key_data) as [[N_str E_str]|]; [|congruence].
  unfold int_of_str.
  destruct (py_int 10 (to_ascii N_str)) as [n|e1] eqn:Hn; cbn [rbind].
  - destruct (py_int 10 (to_ascii E_str)) as [v|e2] eqn:He; cbn [rbind];
      [discriminate|].
    intros [= <-]. now apply py_int_Raise in He.
  - intros [= <-]. now apply py_int_Raise in Hn.
Qed.

Lemma handle_received_message_normal
  (json_loads : pystr -> res pyobj) (self : ChatApp) (message : pystr) :
  exists self',
    handle_received_message json_loads self message = Normal self'
    /\ rsa self' = rsa self /\ is_client self' = is_client self
    /\ (startswith message (lit "KEYS:") = false ->
        client_socket self' = client_socket self
        /\ other_public_key self' = other_public_key self).
Proof.
  unfold handle_received_message.
  destruct (startswith message (lit "KEYS:")).
  - destruct (parse_keys message) as [key|e] eqn:Hp.
    + set (self1 := update_chat (set_other_public_key self (Some key))
                      ReceivedPublicKey).
      change (is_client self1) with (is_client self).
      destruct (is_client self) eqn:Hc; cbn [negb].
      * exists self1. repeat split; try assumption; discriminate.
      * destruct (send_public_key_outcome self1)
          as [(self' & -> & _ & Hcl & Hrsa & _)| ->].
        -- exists self'. split; [reflexivity|]. split; [exact Hrsa|].
           split; [now rewrite Hcl|discriminate].
        -- cbn [is_ValueError]. eexists. split; [reflexivity|].
           repeat split; try assumption; discriminate.
    + apply parse_keys_Raise in Hp. subst e. cbn [is_ValueError].
      eexists. split; [reflexivity|]. repeat split; discriminate.
  - destruct (open_envelope json_loads self message) as [line|e].
    + eexists. split; [reflexivity|]. repeat split.
    + destruct e; (eexists; split; [reflexivity|]; repeat split).
Qed.


(** The handler on several texts never raises either. *)
Lemma handle_all_normal
  (json_loads : pystr -> res pyobj) (texts : list pystr) :
  forall self, exists self', handle_all json_loads self texts = Normal self'.
Proof.
  induction texts as [|text more IH]; intros self; [now exists self|].
  cbn [handle_all].
  destruct (handle_received_message_normal json_loads self text)
    as (self1 & -> & _). cbn [and_then]. apply IH.
Qed.

(** What the loop does with bodies that all decode. *)
Lemma deliver_decoded
  (json_loads : pystr -> res pyobj) (bodies : list bytes) :
  forall self texts st,
    mapM decode bodies = Ret texts ->
    deliver json_loads self bodies st
    = listening_after (handle_all json_loads self texts) st.
Proof.
  induction bodies as [|body more IH]; intros self texts st H.
  - injection H as <-. reflexivity.
  - cbn [mapM] in H. cbn [deliver].
    destruct (decode body) as [text|]; [|discriminate]. cbn [rbind] in H.
    destruct (mapM decode more) as [ts|] eqn:Hts; [|discriminate].
    cbn [rbind] in H. injection H as <-. cbn [handle_all].
    destruct (handle_received_message json_loads self text)
      as [self1|self1 e]; cbn [and_then]; [|reflexivity].
    now apply IH.
Qed.

(** And with bodies of which one does not decode. *)
Lemma deliver_undecoded
  (json_loads : pystr -> res pyobj) (good : list bytes) :
  forall self texts self' bad rest st e,
    mapM decode good = Ret texts ->
    handle_all json_loads self texts = Normal self' ->
    decode bad = Raise e ->
    deliver json_loads self (good ++ bad :: rest) st
    = Stopped (update_chat self' (ReceivingError e)).
Proof.
  induction good as [|body more IH];
    intros self texts self' bad rest st e H Hall Hbad.
  - injection H as <-. cbn [handle_all] in Hall. injection Hall as <-.
    cbn [app deliver]. now rewrite Hbad.
  - cbn [mapM] in H. cbn [app deliver].
    destruct (decode body) as [text|]; [|discriminate]. cbn [rbind] in H.
    destruct (mapM decode more) as [ts|] eqn:Hts; [|discriminate].
    cbn [rbind] in H. injection H as <-. cbn [handle_all] in Hall.
    destruct (handle_received_message json_loads self text)
      as [self1|self1 e1]; cbn [and_then] in Hall; [|discriminate].
    now apply (IH self1 ts self').
Qed.

(** * The claims about the RSA class *)

(** Trial division for the small primes of the examples. *)
Ltac try_divisors n :=
  first
    [ lia
    | match goal with
      | H : ?lo < n < ?hi |- _ =>
          let Hc := fresh in
          assert (Hc : n = lo + 1 \/ lo + 1 < n < hi) by lia;
          clear H; destruct Hc as [Hc|Hc]; [subst n; lia|try_divisors n]
      end ].

Ltac trial_division :=
  split; [lia|];
  let n := fresh "n" in
  let k := fresh "k" in
  intros n ? [k ?]; try_divisors n.

Lemma prime_17 : Z.prime 17.
Proof. trial_division. Qed.

Lemma prime_19 : Z.prime 19.
Proof. trial_division. Qed.

Lemma generate_keys_liar :
  generate_keys tape_liar 1 (RSA_init 10) 0%nat = Done rsa_liar 259.
Proof. vm_compute. reflexivity. Qed.

Lemma generate_keys_small :
  generate_keys tape_small 1 (RSA_init 10) 0%nat = Done rsa_small 259.
Proof. vm_compute. reflexivity. Qed.

Lemma semiprime_323 : semiprime 323.
Proof.
  exists 17, 19. split; [apply prime_17|]. split; [apply prime_19|].
  reflexivity.
Qed.

(** ** C9 *)

(** C9, as amended: for every bit length [L >= 2] and every tape of
    draws, [generate_prime_number] never raises, and a run that returns
    returns an odd integer of exactly [L] bits that [is_prime]
    accepted.  Each pass builds the candidate from the next draw and
    tests it: when the test accepts, the run returns that candidate at
    once; when it rejects, the run goes on with the next pass.  What a
    run returns does not depend on how many more passes it is
    allowed. *)
Theorem generate_prime_number_returns_candidate
  (rnd : nat -> Z) (L : Z) (pos : nat) :
  2 <= L ->
  (forall fuel,
      generate_prime_number rnd fuel L pos = Timeout
      \/ exists p pos',
          generate_prime_number rnd fuel L pos = Done p pos'
          /\ Z.odd p = true
          /\ 2 ^ (L - 1) <= p < 2 ^ L
          /\ accepted rnd p)
  /\ (exists b pos',
        is_prime rnd (candidate_at rnd L pos) 128 (S pos) = Done b pos'
        /\ forall fuel,
            generate_prime_number rnd (S fuel) L pos
            = if b then Done (candidate_at rnd L pos) pos'
              else generate_prime_number rnd fuel L pos')
  /\ (forall fuel p pos',
        generate_prime_number rnd fuel L pos = Done p pos' ->
        forall more,
          generate_prime_number rnd (fuel + more) L pos = Done p pos').
Proof.
  intros HL. split; [|split].
  - intros fuel.
    destruct (generate_prime_number_spec rnd fuel L ltac:(lia) pos)
      as [Ht|(p & pos' & Hrun & Hodd & Hbits & Hacc)].
    + left. exact Ht.
    + right. exists p, pos'. repeat split; try assumption; apply Hbits.
  - destruct (is_prime_total rnd (candidate_at rnd L pos) 128 (S pos))
      as (b & pos' & Hrun).
    exists b, pos'. split; [exact Hrun|]. intros fuel.
    rewrite generate_prime_number_step by lia. cbv zeta.
    fold (candidate_at rnd L pos). rewrite Hrun. destruct b; reflexivity.
  - intros fuel p pos'. apply generate_prime_number_more.
Qed.

Lemma generate_prime_number_returns_candidate_witness :
  2 <= 5
  /\ (generate_prime_number tape_small 1 5 0%nat = Timeout
      \/ exists p pos',
          generate_prime_number tape_small 1 5 0%nat = Done p pos'
          /\ Z.odd p = true
          /\ 2 ^ (5 - 1) <= p < 2 ^ 5
          /\ accepted tape_small p)
  /\ (exists b pos',
        is_prime tape_small (candidate_at tape_small 5 0) 128 1%nat
        = Done b pos'
        /\ forall fuel,
            generate_prime_number tape_small (S fuel) 5 0%nat
            = if b then Done (candidate_at tape_small 5 0) pos'
              else generate_prime_number tape_small fuel 5 pos').
Proof.
  assert (H : 2 <= 5) by lia.
  split; [exact H|].
  pose proof (generate_prime_number_returns_candidate tape_small 5 0%nat H)
    as (Hsafe & Hstep & _).
  split; [exact (Hsafe 1%nat)|exact Hstep].
Defined.

(** The run behind the witness returns the prime 17. *)
Example generate_prime_number_17 :
  generate_prime_number tape_small 1 5 0%nat = Done 17 129.
Proof. vm_compute. reflexivity. Qed.

(** C9 as stated fails: on the tape of nines, [generate_prime_number(4)]
    draws the candidate 9 and rejects it in every pass, so it returns
    for no number of passes. *)
Lemma generate_prime_number_never_returns :
  ~ exists fuel p pos',
      generate_prime_number tape_nines fuel 4 0%nat = Done p pos'.
Proof.
  assert (Hloop : forall fuel pos,
             generate_prime_number tape_nines fuel 4 pos = Timeout).
  { induction fuel as [|f IH]; intros pos; [reflexivity|].
    rewrite generate_prime_number_step by lia. cbv zeta.
    assert (Hno : is_prime tape_nines
                    (Z.lor (tape_nines pos mod 2 ^ 4)
                       (Z.lor (Z.shiftl 1 (4 - 1)) 1)) 128 (S pos)
                  = Done false (S (S pos))).
    { vm_compute. reflexivity. }
    rewrite Hno. apply IH. }
  intros (fuel & p & pos' & H). rewrite Hloop in H. discriminate.
Qed.

(** ** C3 *)

(** C3, as amended: a key pair returned by [generate_keys] has
    [N = p * q] for two different odd numbers of [key_length // 2] bits
    that [is_prime] accepted; with [totient = lcm(p - 1, q - 1)], the
    public exponent lies in [[2^16, 2^17)] and is coprime to the
    totient, and [D] is the inverse [modinv] returns:
    [(E * D) mod totient = 1]. *)
Theorem generate_keys_key_pair
  (rnd : nat -> Z) (fuel : nat) (self : RSA) (pos : nat)
  (self' : RSA) (pos' : nat) :
  generate_keys rnd fuel self pos = Done self' pos' ->
  exists p q kp,
    key_pair self' = Some kp
    /\ N (public_key kp) = p * q
    /\ p <> q
    /\ candidate rnd (key_length self / 2) p
    /\ candidate rnd (key_length self / 2) q
    /\ lcm (p - 1) (q - 1) = Ret (Z.lcm (p - 1) (q - 1))
    /\ 2 ^ 16 <= E (public_key kp) < 2 ^ 17
    /\ gcd (E (public_key kp)) (Z.lcm (p - 1) (q - 1)) = 1
    /\ modinv (E (public_key kp)) (Z.lcm (p - 1) (q - 1))
       = Ret (D (private_key kp))
    /\ (E (public_key kp) * D (private_key kp))
         mod Z.lcm (p - 1) (q - 1) = 1.
Proof.
  intros H. apply generated_key_facts in H.
  destruct H as (p & q & e & d & _ & Hkp & Hp & Hq & Hne & _ & _ & Hl & _
                 & He & Hg & _ & Hd & _ & Hed).
  exists p, q, (keys_of (p * q) e d). cbn [keys_of N E D public_key private_key].
  repeat match goal with
         | |- _ /\ _ => split
         end; first [assumption | reflexivity | apply He].
Qed.

Lemma generate_keys_key_pair_witness :
  generate_keys tape_small 1 (RSA_init 10) 0%nat = Done rsa_small 259
  /\ exists p q kp,
      key_pair rsa_small = Some kp
      /\ N (public_key kp) = p * q
      /\ p <> q
      /\ candidate tape_small (key_length (RSA_init 10) / 2) p
      /\ candidate tape_small (key_length (RSA_init 10) / 2) q
      /\ lcm (p - 1) (q - 1) = Ret (Z.lcm (p - 1) (q - 1))
      /\ 2 ^ 16 <= E (public_key kp) < 2 ^ 17
      /\ gcd (E (public_key kp)) (Z.lcm (p - 1) (q - 1)) = 1
      /\ modinv (E (public_key kp)) (Z.lcm (p - 1) (q - 1))
         = Ret (D (private_key kp))
      /\ (E (public_key kp) * D (private_key kp))
           mod Z.lcm (p - 1) (q - 1) = 1.
Proof.
  assert (H : generate_keys tape_small 1 (RSA_init 10) 0%nat
              = Done rsa_small 259) by (vm_compute; reflexivity).
  split; [exact H|].
  exact (generate_keys_key_pair tape_small 1 (RSA_init 10) 0%nat rsa_small 259 H).
Defined.

(** C3 as stated fails: on [tape_liar] the run of length 10 returns the
    modulus 425 = 25 * 17, which is not the product of two primes of
    five bits. *)
Lemma generate_keys_composite_factor :
  generate_keys tape_liar 1 (RSA_init 10) 0%nat = Done rsa_liar 259
  /\ ~ exists p q,
         Z.prime p /\ Z.prime q /\ p <> q
         /\ exact_bits 5 p /\ exact_bits 5 q /\ 425 = p * q.
Proof.
  split; [apply generate_keys_liar|].
  intros (p & q & Hp & Hq & _ & Bp & Bq & Hpq).
  unfold exact_bits in Bp, Bq.
  change (2 ^ (5 - 1)) with 16 in *. change (2 ^ 5) with 32 in *.
  assert (Hcase : p = 17 /\ q = 25 \/ p = 25 /\ q = 17).
  { assert (Hp' : 15 < p < 32) by lia. clear Bp Hp Hq. try_divisors p. }
  destruct Hcase as [[-> ->]|[-> ->]].
  - apply (Z.not_prime_square 5). exact Hq.
  - apply (Z.not_prime_square 5). exact Hp.
Qed.

(** ** C1 *)

(** C1, as amended: for every key pair [generate_keys] returns whose
    modulus is the product of two primes, and every string whose code
    points are below the modulus, [decrypt] of [encrypt] is the
    string. *)
Theorem decrypt_encrypt_roundtrip
  (rnd : nat -> Z) (fuel : nat) (self : RSA) (pos : nat)
  (self' : RSA) (pos' : nat) (kp : RSAKeyPair) (plaintext : pystr) :
  generate_keys rnd fuel self pos = Done self' pos' ->
  key_pair self' = Some kp ->
  semiprime (N (public_key kp)) ->
  valid_str plaintext ->
  Forall (fun c => ord c < N (public_key kp)) plaintext ->
  exists units,
    encrypt plaintext (public_key kp) = Ret units
    /\ decrypt self' (int_list units) = Ret plaintext.
Proof.
  intros Hgen Hkp Hsemi Hvalid Hlt.
  apply generated_key_facts in Hgen.
  destruct Hgen as (p & q & e & d & _ & Hkp' & _ & _ & Hne & Hp3 & Hq3 & _
                    & Hl2 & He & _ & _ & _ & Hd & Hed).
  rewrite Hkp in Hkp'. injection Hkp' as ->.
  cbn [keys_of N E D public_key private_key] in *.
  destruct (semiprime_factors p q) as [Hp Hq]; [lia|lia|assumption|].
  assert (He0 : 0 <= e).
  { assert (0 < 2 ^ 16) by reflexivity. lia. }
  exists (map (fun c => c ^ e mod (p * q)) plaintext). split.
  - apply (encrypt_units {| N := p * q; E := e |}); cbn [N E]; [assumption|nia].
  - apply (decrypt_units self' (keys_of (p * q) e d));
      cbn [keys_of N E D public_key private_key];
      [assumption|lia|nia|assumption|].
    apply roundtrip_units; try assumption; try lia.
    unfold valid_str, valid_codepoint, ord in *.
    rewrite Forall_forall in *. intros c Hc.
    specialize (Hvalid c Hc). specialize (Hlt c Hc). lia.
Qed.

Lemma decrypt_encrypt_roundtrip_witness :
  generate_keys tape_small 1 (RSA_init 10) 0%nat = Done rsa_small 259
  /\ key_pair rsa_small = Some (keys_of 323 65537 17)
  /\ semiprime (N (public_key (keys_of 323 65537 17)))
  /\ valid_str (lit "Hi")
  /\ Forall (fun c => ord c < N (public_key (keys_of 323 65537 17)))
       (lit "Hi")
  /\ exists units,
      encrypt (lit "Hi") (public_key (keys_of 323 65537 17)) = Ret units
      /\ decrypt rsa_small (int_list units) = Ret (lit "Hi").
Proof.
  assert (H1 : generate_keys tape_small 1 (RSA_init 10) 0%nat
               = Done rsa_small 259) by (vm_compute; reflexivity).
  assert (H2 : key_pair rsa_small = Some (keys_of 323 65537 17))
    by reflexivity.
  assert (H3 : semiprime (N (public_key (keys_of 323 65537 17))))
    by exact semiprime_323.
  assert (H4 : valid_str (lit "Hi")).
  { repeat constructor; discriminate. }
  assert (H5 : Forall (fun c => ord c < N (public_key (keys_of 323 65537 17)))
                 (lit "Hi")).
  { repeat constructor. }
  repeat split; try assumption.
  exact (decrypt_encrypt_roundtrip tape_small 1 (RSA_init 10) 0%nat
           rsa_small 259 (keys_of 323 65537 17) (lit "Hi") H1 H2 H3 H4 H5).
Defined.

(** The spec's own numbers: with [N = 3233], [E = 17], [D = 2753] the
    letter A goes to 2790 and back. *)
Example encrypt_A :
  encrypt (lit "A") {| N := 3233; E := 17 |} = Ret [2790]
  /\ decrypt {| key_length := 12; key_pair := Some (keys_of 3233 17 2753) |}
       (int_list [2790]) = Ret (lit "A").
Proof. split; vm_compute; reflexivity. Qed.

(** C1 as stated fails: the key pair that [generate_keys] returns on
    [tape_liar] has the modulus 425 = 25 * 17; the character of code
    point 5 is below it, encrypts to 175 and decrypts to the character
    of code point 175. *)
Lemma decrypt_encrypt_liar :
  generate_keys tape_liar 1 (RSA_init 10) 0%nat = Done rsa_liar 259
  /\ valid_str [5] /\ 5 < 425
  /\ encrypt [5] {| N := 425; E := 65537 |} = Ret [175]
  /\ decrypt rsa_liar (int_list [175]) = Ret [175]
  /\ decrypt rsa_liar (int_list [175]) <> Ret [5].
Proof.
  split; [apply generate_keys_liar|].
  split; [repeat constructor; discriminate|].
  split; [reflexivity|].
  split; [vm_compute; reflexivity|].
  split; [vm_compute; reflexivity|].
  vm_compute. discriminate.
Qed.

(** ** C2 *)

(** C2, as amended: for every key pair [generate_keys] returns whose
    modulus is the product of two primes, and every message that can be
    encoded, [sign] returns a signature and [verify] of it returns
    whether the hash, as an integer [h < 2^256], is below the modulus;
    so it returns [True] for every modulus of at least [2^256]. *)
Theorem verify_sign
  (rnd : nat -> Z) (fuel : nat) (self : RSA) (pos : nat)
  (self' : RSA) (pos' : nat) (kp : RSAKeyPair)
  (message : pystr) (data : bytes) :
  generate_keys rnd fuel self pos = Done self' pos' ->
  key_pair self' = Some kp ->
  semiprime (N (public_key kp)) ->
  encode message = Ret data ->
  exists hash_message h signature,
    create_hash message = Ret hash_message
    /\ py_int 16 hash_message = Ret h
    /\ 0 <= h < 2 ^ 256
    /\ sign self' message = Ret signature
    /\ verify message (PInt signature) (Some (public_key kp))
       = Ret (h <? N (public_key kp))
    /\ (2 ^ 256 <= N (public_key kp) ->
        verify message (PInt signature) (Some (public_key kp)) = Ret true).
Proof.
  intros Hgen Hkp Hsemi Henc.
  apply generated_key_facts in Hgen.
  destruct Hgen as (p & q & e & d & _ & Hkp' & _ & _ & Hne & Hp3 & Hq3 & _
                    & Hl2 & He & _ & _ & _ & Hd & Hed).
  rewrite Hkp in Hkp'. injection Hkp' as ->.
  cbn [keys_of N E D public_key private_key] in *.
  destruct (semiprime_factors p q) as [Hp Hq]; [lia|lia|assumption|].
  assert (He0 : 0 <= e).
  { assert (0 < 2 ^ 16) by reflexivity. lia. }
  assert (Hn : p * q <> 0) by nia.
  destruct (hash_int message data Henc) as (hex & h & Hhash & Hint & Hh).
  assert (Hback : (h ^ d mod (p * q)) ^ e mod (p * q) = h mod (p * q)).
  { rewrite pow_mod_mod, <- Z.pow_mul_r by lia.
    rewrite (Z.mul_comm d e).
    apply (rsa_exponent p q (Z.lcm (p - 1) (q - 1))); try assumption;
      try lia.
    - apply Z.divide_lcm_l.
    - apply Z.divide_lcm_r. }
  assert (Hverify : verify message (PInt (h ^ d mod (p * q)))
                      (Some {| N := p * q; E := e |})
                    = Ret (h <? p * q)).
  { unfold verify. rewrite Hhash. cbn [rbind as_int N E].
    rewrite pow3_nonneg by assumption. cbn [rbind]. rewrite Hint.
    cbn [rbind]. rewrite Hback. f_equal.
    assert (0 <= h mod (p * q) < p * q) by (apply Z.mod_pos_bound; nia).
    destruct (Z.ltb_spec h (p * q)) as [Hlt|Hge].
    - rewrite Z.mod_small by lia. apply Z.eqb_refl.
    - apply Z.eqb_neq. lia. }
  exists hex, h, (h ^ d mod (p * q)).
  repeat match goal with
         | |- _ /\ _ => split
         end; try assumption; try apply Hh.
  - unfold sign. rewrite Hkp. cbn [keys_of N D public_key private_key].
    rewrite Hhash. cbn [rbind]. rewrite Hint. cbn [rbind].
    apply pow3_nonneg; lia.
  - intros Hbig. rewrite Hverify. f_equal. apply Z.ltb_lt. lia.
Qed.

Lemma verify_sign_witness :
  generate_keys tape_small 1 (RSA_init 10) 0%nat = Done rsa_small 259
  /\ key_pair rsa_small = Some (keys_of 323 65537 17)
  /\ semiprime (N (public_key (keys_of 323 65537 17)))
  /\ encode (lit "Hi") = Ret (lit "Hi")
  /\ exists hash_message h signature,
      create_hash (lit "Hi") = Ret hash_message
      /\ py_int 16 hash_message = Ret h
      /\ 0 <= h < 2 ^ 256
      /\ sign rsa_small (lit "Hi") = Ret signature
      /\ verify (lit "Hi") (PInt signature)
           (Some (public_key (keys_of 323 65537 17)))
         = Ret (h <? N (public_key (keys_of 323 65537 17)))
      /\ (2 ^ 256 <= N (public_key (keys_of 323 65537 17)) ->
          verify (lit "Hi") (PInt signature)
            (Some (public_key (keys_of 323 65537 17))) = Ret true).
Proof.
  assert (H1 : generate_keys tape_small 1 (RSA_init 10) 0%nat
               = Done rsa_small 259) by (vm_compute; reflexivity).
  assert (H2 : key_pair rsa_small = Some (keys_of 323 65537 17))
    by reflexivity.
  assert (H3 : semiprime (N (public_key (keys_of 323 65537 17))))
    by exact semiprime_323.
  assert (H4 : encode (lit "Hi") = Ret (lit "Hi")) by reflexivity.
  repeat split; try assumption.
  exact (verify_sign tape_small 1 (RSA_init 10) 0%nat rsa_small 259
           (keys_of 323 65537 17) (lit "Hi") (lit "Hi") H1 H2 H3 H4).
Defined.

(** C2 as stated fails: [generate_keys] returns on [tape_small] the key
    pair of the primes 17 and 19; the signature of the empty message
    under it is 47 and does not verify, the hash being far above the
    modulus 323. *)
Lemma verify_sign_small_modulus :
  generate_keys tape_small 1 (RSA_init 10) 0%nat = Done rsa_small 259
  /\ sign rsa_small [] = Ret 47
  /\ verify [] (PInt 47) (Some {| N := 323; E := 65537 |}) = Ret false.
Proof.
  split; [apply generate_keys_small|].
  split; vm_compute; reflexivity.
Qed.

(** ** C6 *)

(** C6: [decrypt] and [sign] raise "Key pair not generated" exactly
    when the object has no key pair; with a key pair neither raises
    it, whatever the arguments. *)
Theorem key_pair_not_generated
  (self : RSA) (encrypted_message : pyobj) (message : pystr) :
  (decrypt self encrypted_message = Raise KeyPairNotGenerated
   <-> key_pair self = None)
  /\ (sign self message = Raise KeyPairNotGenerated
      <-> key_pair self = None).
Proof.
  split; split.
  - intros H. destruct (key_pair self) as [kp|] eqn:Hkp; [|reflexivity].
    apply (decrypt_Raise self kp) in H; [|assumption].
    destruct H as [H|[H|H]]; discriminate.
  - intros H. unfold decrypt. now rewrite H.
  - intros H. destruct (key_pair self) as [kp|] eqn:Hkp; [|reflexivity].
    apply (sign_Raise self kp) in H; [|assumption].
    destruct H as [H|H]; discriminate.
  - intros H. unfold sign. now rewrite H.
Qed.

(** * The claims about the chat application *)

(** ** C7 *)

(** C7: a send request made while the peer's public key is unknown or
    the local key pair is missing writes nothing to the socket; it only
    reports "Encryption keys not exchanged." and returns. *)
Theorem send_message_not_ready
  (json_dumps : pyobj -> pystr) (self : ChatApp) :
  other_public_key self = None \/ key_pair (rsa self) = None ->
  exists self',
    send_message json_dumps self = Normal self'
    /\ client_socket self' = client_socket self
    /\ chat_text self' = chat_text self ++ [EncryptionKeysNotExchanged]
    /\ message_entry self' = message_entry self.
Proof.
  intros H. exists (update_chat self EncryptionKeysNotExchanged).
  split; [|repeat split].
  unfold send_message.
  destruct H as [H|H]; rewrite H; [reflexivity|].
  destruct (other_public_key self); reflexivity.
Qed.

Lemma send_message_not_ready_witness :
  (other_public_key (listener_app None) = None
   \/ key_pair (rsa (listener_app None)) = None)
  /\ exists self',
      send_message dumps_nothing (listener_app None) = Normal self'
      /\ client_socket self' = client_socket (listener_app None)
      /\ chat_text self'
         = chat_text (listener_app None) ++ [EncryptionKeysNotExchanged]
      /\ message_entry self' = message_entry (listener_app None).
Proof.
  assert (H : other_public_key (listener_app None) = None
              \/ key_pair (rsa (listener_app None)) = None)
    by (left; reflexivity).
  split; [exact H|].
  exact (send_message_not_ready dumps_nothing (listener_app None) H).
Defined.

(** ** C8 *)

Lemma verify_without_key (message : pystr) (signature : pyobj) :
  exists e, verify message signature None = Raise e.
Proof.
  unfold verify. destruct (create_hash message); cbn [rbind]; eauto.
Qed.

Lemma open_envelope_without_key
  (json_loads : pystr -> res pyobj) (self : ChatApp) (message : pystr) :
  other_public_key self = None ->
  exists e, open_envelope json_loads self message = Raise e.
Proof.
  intros Hk. unfold open_envelope. rewrite Hk.
  destruct (json_loads message) as [d|]; cbn [rbind]; eauto.
  destruct (subscript d _); cbn [rbind]; eauto.
  destruct (subscript d _) as [sg|]; cbn [rbind]; eauto.
  destruct (py_get d _ _); cbn [rbind]; eauto.
  destruct (decrypt _ _) as [text|]; cbn [rbind]; eauto.
  destruct (verify_without_key text sg) as [e ->]. cbn [rbind]. eauto.
Qed.

(** C8: a message that is not a handshake, received while no peer key
    is stored, adds exactly one line to the display, and that line is
    an error line ("JSON decoding error" or "Message handling error"),
    so no text of a peer is shown; the handler returns normally,
    nothing else of the state changes (socket, peer key, key pair), and
    the receive loop goes on reading. *)
Theorem envelope_without_remote_key
  (json_loads : pystr -> res pyobj) (self : ChatApp) (message : pystr) :
  startswith message (lit "KEYS:") = false ->
  other_public_key self = None ->
  exists line,
    is_error_line line
    /\ handle_received_message json_loads self message
       = Normal (update_chat self line)
    /\ chat_text (update_chat self line) = chat_text self ++ [line]
    /\ client_socket (update_chat self line) = client_socket self
    /\ other_public_key (update_chat self line) = None
    /\ rsa (update_chat self line) = rsa self
    /\ forall st read st' body,
        receive st read = Ret (st', Some body) ->
        decode body = Ret message ->
        listen_step json_loads self st read
        = Listening (update_chat self line) st'.
Proof.
  intros Hp Hk.
  destruct (open_envelope_without_key json_loads self message Hk)
    as [e He].
  assert (Hh : exists line,
             is_error_line line
             /\ handle_received_message json_loads self message
                = Normal (update_chat self line)).
  { unfold handle_received_message. rewrite Hp, He.
    destruct e;
      (eexists; split; [|reflexivity]; eexists; (now left) || (now right)). }
  destruct Hh as (line & Hline & Hh).
  exists line. split; [assumption|]. split; [assumption|].
  split; [reflexivity|]. split; [reflexivity|]. split; [exact Hk|].
  split; [reflexivity|].
  intros st read st' body Hr Hd. unfold listen_step.
  rewrite Hr, Hd, Hh. reflexivity.
Qed.

(** ** C5 *)

Lemma split_once_app (sep : Z) (a b : pystr) :
  Forall (fun c => c <> sep) a ->
  split_once sep (a ++ sep :: b) = Some (a, b).
Proof.
  intros H. induction H as [|c a Hc _ IH]; cbn [app split_once].
  - now rewrite Z.eqb_refl.
  - destruct (Z.eqb_spec c sep); [contradiction|]. now rewrite IH.
Qed.

Lemma handshake_message_split (n e : Z) :
  parse_keys (handshake_message n e)
  = (n' <-- int_of_str 10 (str_of_int n) ;;
     e' <-- int_of_str 10 (str_of_int e) ;;
     Ret {| N := n'; E := e' |}).
Proof.
  unfold parse_keys, handshake_message.
  change (split_once 58 (lit "KEYS:" ++ str_of_int n ++ lit "," ++ str_of_int e))
    with (Some (lit "KEYS", str_of_int n ++ lit "," ++ str_of_int e)).
  cbv beta iota.
  change (lit "," ++ str_of_int e) with (44 :: str_of_int e).
  rewrite split_once_app; [reflexivity|].
  eapply Forall_impl; [|apply str_of_int_chars].
  unfold dec. intros c [->|H]; lia.
Qed.

Lemma parse_keys_handshake (n e : Z) :
  printable n -> printable e ->
  parse_keys (handshake_message n e) = Ret {| N := n; E := e |}.
Proof.
  intros Hn He. rewrite handshake_message_split.
  now rewrite !int_of_str_str_of_int.
Qed.

Lemma parse_keys_handshake_over (n e : Z) :
  ~ printable n \/ ~ printable e ->
  parse_keys (handshake_message n e) = Raise ValueError.
Proof.
  intros H. rewrite handshake_message_split.
  destruct (Z.lt_ge_cases (Z.abs n) (10 ^ int_max_str_digits)) as [Hn|Hn].
  - rewrite (int_of_str_str_of_int n Hn). cbn [rbind].
    destruct H as [H|H]; [contradiction|].
    now rewrite (int_of_str_str_of_int_over e H).
  - rewrite (int_of_str_str_of_int_over n); [reflexivity|].
    unfold printable. lia.
Qed.

(** C5, as amended: on a handshake line [KEYS:<N>,<E>] whose numbers
    have at most 4300 digits each, the handler stores [(N, E)] as the
    peer's key and returns normally.  When [is_client] is set it writes
    nothing.  When it is not set, and the socket is open and a key pair
    exists, it writes its own handshake line as one packet, whether or
    not a peer key was already stored, provided the numbers of its own
    key have at most 4300 digits; if one has more, it writes nothing
    and shows "Public key error" after "Received public key".  On a
    handshake line with a number of more than 4300 digits it shows
    "Public key error" alone and stores and writes nothing. *)
Theorem handshake_received
  (json_loads : pystr -> res pyobj) (self : ChatApp) (n e : Z) :
  (printable n -> printable e ->
   exists self',
     handle_received_message json_loads self (handshake_message n e)
     = Normal self'
     /\ other_public_key self' = Some {| N := n; E := e |}
     /\ (is_client self = true -> client_socket self' = client_socket self)
     /\ (is_client self = false ->
         forall sock kp,
           client_socket self = Some sock -> sock_open sock = true ->
           key_pair (rsa self) = Some kp ->
           (printable (N (public_key kp)) ->
            printable (E (public_key kp)) ->
            client_socket self'
            = Some {| sock_open := true;
                      outbox := outbox sock
                                ++ [packet_of (key_message kp)] |})
           /\ (~ printable (N (public_key kp))
               \/ ~ printable (E (public_key kp)) ->
               client_socket self' = Some sock
               /\ chat_text self'
                  = chat_text self
                    ++ [ReceivedPublicKey; PublicKeyError ValueError])))
  /\ (~ printable n \/ ~ printable e ->
      handle_received_message json_loads self (handshake_message n e)
      = Normal (update_chat self (PublicKeyError ValueError))).
Proof.
  split.
  - intros Hn He. unfold handle_received_message.
    change (startswith (handshake_message n e) (lit "KEYS:")) with true.
    cbn iota. rewrite (parse_keys_handshake n e Hn He).
    set (self1 := update_chat
                    (set_other_public_key self (Some {| N := n; E := e |}))
                    ReceivedPublicKey).
    change (is_client self1) with (is_client self).
    destruct (is_client self) eqn:Hc; cbn [negb].
    + exists self1. repeat split; try discriminate.
    + destruct (send_public_key_outcome self1)
        as [(self' & Hrun & Hk & _ & _ & _ & _)|Hrun].
      * exists self'. rewrite Hrun. split; [reflexivity|].
        split; [now rewrite Hk|]. split; [discriminate|].
        intros _ sock kp Hs Ho Hkp. split.
        -- intros Hpn Hpe.
           rewrite (send_public_key_open self1 sock kp) in Hrun;
             try assumption.
           injection Hrun as <-. reflexivity.
        -- intros Hover.
           rewrite (send_public_key_unprintable self1 sock kp) in Hrun;
             [discriminate|assumption|assumption|].
           destruct Hover as [H|H]; [left|right];
             now apply format_int_unprintable.
      * rewrite Hrun. cbn [is_ValueError].
        exists (update_chat self1 (PublicKeyError ValueError)).
        split; [reflexivity|]. split; [reflexivity|].
        split; [discriminate|].
        intros _ sock kp Hs Ho Hkp. split.
        -- intros Hpn Hpe.
           rewrite (send_public_key_open self1 sock kp) in Hrun;
             try assumption.
           discriminate.
        -- intros _. split; [exact Hs|].
           cbn [chat_text update_chat self1 set_other_public_key].
           now rewrite <- app_assoc.
  - intros Hover. unfold handle_received_message.
    change (startswith (handshake_message n e) (lit "KEYS:")) with true.
    cbn iota. now rewrite (parse_keys_handshake_over n e Hover).
Qed.

Lemma printable_3127 : printable 3127.
Proof. apply printable_small. lia. Qed.

Lemma printable_13 : printable 13.
Proof. apply printable_small. lia. Qed.

Lemma handshake_received_witness :
  printable 3127 /\ printable 13
  /\ exists self',
      handle_received_message (loads_as PNone) (listener_app None)
        (handshake_message 3127 13)
      = Normal self'
      /\ other_public_key self' = Some {| N := 3127; E := 13 |}
      /\ (is_client (listener_app None) = true ->
          client_socket self' = client_socket (listener_app None))
      /\ (is_client (listener_app None) = false ->
          forall sock kp,
            client_socket (listener_app None) = Some sock ->
            sock_open sock = true ->
            key_pair (rsa (listener_app None)) = Some kp ->
            (printable (N (public_key kp)) ->
             printable (E (public_key kp)) ->
             client_socket self'
             = Some {| sock_open := true;
                       outbox := outbox sock
                                 ++ [packet_of (key_message kp)] |})
            /\ (~ printable (N (public_key kp))
                \/ ~ printable (E (public_key kp)) ->
                client_socket self' = Some sock
                /\ chat_text self'
                   = chat_text (listener_app None)
                     ++ [ReceivedPublicKey; PublicKeyError ValueError])).
Proof.
  split; [exact printable_3127|]. split; [exact printable_13|].
  exact (proj1 (handshake_received (loads_as PNone) (listener_app None)
                  3127 13)
           printable_3127 printable_13).
Defined.

(** The run behind the witness: the listener stores the key and
    answers with its own. *)
Example handshake_received_run :
  handle_received_message (loads_as PNone) (listener_app None)
    (lit "KEYS:3127,13")
  = Normal
      {| rsa := rsa (listener_app None);
         client_socket :=
           Some {| sock_open := true;
                   outbox := [lit "12        KEYS:3233,17"] |};
         other_public_key := Some {| N := 3127; E := 13 |};
         is_client := false;
         nickname_entry := lit "Anonymous";
         message_entry := lit "hello";
         chat_text := [ReceivedPublicKey; PublicKeySent] |}.
Proof. vm_compute. reflexivity. Qed.

(** C5 as stated fails on "only the first key": a listener that already
    holds the peer's key and receives the handshake line again writes
    its own handshake line once more. *)
Lemma handshake_answered_again :
  other_public_key (listener_app (Some {| N := 3127; E := 13 |}))
  = Some {| N := 3127; E := 13 |}
  /\ exists self',
      handle_received_message (loads_as PNone)
        (listener_app (Some {| N := 3127; E := 13 |}))
        (lit "KEYS:3127,13")
      = Normal self'
      /\ client_socket self'
         = Some {| sock_open := true;
                   outbox := [lit "12        KEYS:3233,17"] |}.
Proof.
  split; [reflexivity|]. eexists. split; vm_compute; reflexivity.
Qed.

Lemma envelope_without_remote_key_witness :
  startswith (lit "{}") (lit "KEYS:") = false
  /\ other_public_key (listener_app None) = None
  /\ exists line,
      is_error_line line
      /\ handle_received_message (loads_as (envelope (lit "Bob") [2790] 1))
           (listener_app None) (lit "{}")
         = Normal (update_chat (listener_app None) line)
      /\ chat_text (update_chat (listener_app None) line)
         = chat_text (listener_app None) ++ [line]
      /\ client_socket (update_chat (listener_app None) line)
         = client_socket (listener_app None)
      /\ other_public_key (update_chat (listener_app None) line) = None
      /\ rsa (update_chat (listener_app None) line)
         = rsa (listener_app None)
      /\ forall st read st' body,
          receive st read = Ret (st', Some body) ->
          decode body = Ret (lit "{}") ->
          listen_step (loads_as (envelope (lit "Bob") [2790] 1))
            (listener_app None) st read
          = Listening (update_chat (listener_app None) line) st'.
Proof.
  assert (H1 : startswith (lit "{}") (lit "KEYS:") = false) by reflexivity.
  assert (H2 : other_public_key (listener_app None) = None) by reflexivity.
  split; [exact H1|]. split; [exact H2|].
  exact (envelope_without_remote_key
           (loads_as (envelope (lit "Bob") [2790] 1)) (listener_app None)
           (lit "{}") H1 H2).
Defined.

(** A well-formed envelope that decrypts is reported as
    "Message handling error" with the attribute error of the missing
    key. *)
Example envelope_without_remote_key_attribute_error :
  handle_received_message (loads_as (envelope (lit "Bob") [2790] 1))
    (listener_app None) (lit "{}")
  = Normal (update_chat (listener_app None)
              (MessageHandlingError AttributeError)).
Proof. vm_compute. reflexivity. Qed.

(** ** C10 *)

Lemma decrypt_int_list_Ret (self : RSA) (kp : RSAKeyPair) (units : list Z)
  (s : pystr) :
  key_pair self = Some kp ->
  decrypt self (int_list units) = Ret s ->
  Forall2 (fun c m =>
             pow3 c (D (private_key kp)) (N (public_key kp)) = Ret m
             /\ valid_codepoint m) units s.
Proof.
  intros Hkp. unfold decrypt, int_list. rewrite Hkp. cbn [py_iter rbind].
  intros H. apply mapM_Ret in H. revert s H.
  induction units as [|c units IH]; intros s H; inversion H; subst.
  - constructor.
  - constructor; [|now apply IH].
    cbn [as_int rbind] in *.
    destruct (pow3 c _ _) as [m|]; [|discriminate].
    cbn [rbind] in *.
    match goal with
    | Hc : chr m = Ret _ |- _ => apply chr_inv in Hc; destruct Hc as [-> Hc]
    end.
    split; [reflexivity|assumption].
Qed.

Lemma decrypt_int_list_Raise (self : RSA) (kp : RSAKeyPair)
  (units : list Z) (e : PyErr) :
  key_pair self = Some kp ->
  decrypt self (int_list units) = Raise e ->
  e = ValueError \/ e = OverflowError.
Proof.
  intros Hkp. unfold decrypt, int_list. rewrite Hkp. cbn [py_iter rbind].
  intros H. apply mapM_Raise in H. destruct H as (x & Hin & H).
  apply in_map_iff in Hin. destruct Hin as (c & <- & _).
  cbn [as_int rbind] in H.
  destruct (pow3 c _ _) as [m|e'] eqn:Hm; cbn [rbind] in H.
  - apply chr_Raise in H. tauto.
  - injection H as <-. apply pow3_Raise in Hm. tauto.
Qed.

(** C10: with a key pair present, [decrypt] still raises ([ValueError]
    or [OverflowError]) as soon as one unit's residue [pow(c, D, N)] is
    above 0x10FFFF; when it returns a string, every unit's residue is a
    valid code point and the string is these residues; and the handler
    passes the units of an envelope to [decrypt] as they came, so that
    such an envelope ends in "Message handling error". *)
Theorem decrypt_partial
  (json_loads : pystr -> res pyobj) (self : ChatApp) (kp : RSAKeyPair)
  (units : list Z) :
  key_pair (rsa self) = Some kp ->
  (forall c m,
      In c units ->
      pow3 c (D (private_key kp)) (N (public_key kp)) = Ret m ->
      1114111 < m ->
      exists e, decrypt (rsa self) (int_list units) = Raise e
                /\ (e = ValueError \/ e = OverflowError))
  /\ (forall s,
         decrypt (rsa self) (int_list units) = Ret s ->
         Forall2 (fun c m =>
                    pow3 c (D (private_key kp)) (N (public_key kp)) = Ret m
                    /\ valid_codepoint m) units s)
  /\ (forall message items signature e,
         startswith message (lit "KEYS:") = false ->
         json_loads message = Ret (PDict items) ->
         dict_lookup (lit "message") items = Some (int_list units) ->
         dict_lookup (lit "signature") items = Some signature ->
         decrypt (rsa self) (int_list units) = Raise e ->
         handle_received_message json_loads self message
         = Normal (update_chat self (MessageHandlingError e))).
Proof.
  intros Hkp. split; [|split].
  - intros c m Hin Hm Hbig.
    destruct (decrypt (rsa self) (int_list units)) as [s|e] eqn:Hd.
    + exfalso. apply (decrypt_int_list_Ret _ kp) in Hd; [|assumption].
      clear Hkp. induction Hd as [|c' m' units' s' [Hc' Hv] _ IH];
        [contradiction|].
      destruct Hin as [->|Hin]; [|now apply IH].
      rewrite Hm in Hc'. injection Hc' as <-.
      unfold valid_codepoint in Hv. lia.
    + exists e. split; [reflexivity|].
      now apply (decrypt_int_list_Raise (rsa self) kp units).
  - intros s Hd. now apply (decrypt_int_list_Ret (rsa self) kp).
  - intros message items signature e Hp Hj Hm Hs Hd.
    pose proof (decrypt_int_list_Raise (rsa self) kp units e Hkp Hd) as He.
    unfold handle_received_message, open_envelope.
    rewrite Hp, Hj. cbn [rbind subscript py_get]. rewrite Hm, Hs.
    cbn [rbind]. destruct (dict_lookup (lit "nickname") items);
      cbn [rbind]; rewrite Hd; cbn [rbind];
      destruct He as [-> | ->]; reflexivity.
Qed.

Lemma decrypt_partial_witness :
  key_pair rsa_2003 = Some (keys_of 4028033 65537 1335773)
  /\ exists e,
      decrypt rsa_2003 (int_list [1593561; 3813171]) = Raise e
      /\ (e = ValueError \/ e = OverflowError).
Proof.
  assert (H : key_pair
                (rsa {| rsa := rsa_2003; client_socket := None;
                        other_public_key := None; is_client := false;
                        nickname_entry := []; message_entry := [];
                        chat_text := [] |})
              = Some (keys_of 4028033 65537 1335773)) by reflexivity.
  split; [reflexivity|].
  exact (proj1 (decrypt_partial (loads_as PNone) _ _
                  [1593561; 3813171] H)
           3813171 2000000 (or_intror (or_introl eq_refl)) eq_refl eq_refl).
Defined.

(** The run behind the witness: the first unit is the letter H, the
    second decrypts to 2000000 and [chr] refuses it. *)
Example decrypt_out_of_range :
  decrypt rsa_2003 (int_list [1593561]) = Ret (lit "H")
  /\ decrypt rsa_2003 (int_list [1593561; 3813171]) = Raise ValueError.
Proof. split; vm_compute; reflexivity. Qed.

(** ** C4 *)

(** C4, as amended: for bodies shorter than [10^10] bytes, each
    delivered in non-empty reads that make up its packet and nothing
    more, the first of which holds at least the digits of the length,
    the receive loop reassembles every body.  When the bodies are valid
    UTF-8 it hands their texts to the handler, in order, and awaits a
    new frame after each; at a body that is not valid UTF-8 it ends
    with "Receiving error", after the bodies before it were handled.
    The empty body and any number of frames in a row are included;
    nothing is said of reads that split the digits of a header or that
    run across the boundary of two packets. *)
Theorem listen_frames
  (json_loads : pystr -> res pyobj) (self : ChatApp)
  (bodies : list bytes) (splits : list (list bytes)) :
  Forall2 well_split bodies splits ->
  (forall texts,
      mapM decode bodies = Ret texts ->
      exists self' st',
        handle_all json_loads self texts = Normal self'
        /\ listen_for_messages json_loads self (concat splits)
           = Listening self' st'
        /\ new_msg st' = true /\ full_message st' = [])
  /\ (forall good bad rest texts e,
        bodies = good ++ bad :: rest ->
        mapM decode good = Ret texts ->
        decode bad = Raise e ->
        exists self',
          handle_all json_loads self texts = Normal self'
          /\ e = UnicodeDecodeError
          /\ listen_for_messages json_loads self (concat splits)
             = Stopped (update_chat self'
                          (ReceivingError UnicodeDecodeError))).
Proof.
  intros Hsplit.
  destruct (feed_well_split bodies splits Hsplit rx_initial eq_refl eq_refl)
    as (st' & Hfeed & Hnew & Hfull).
  pose proof (listen_loop_deliver json_loads (concat splits) self
                rx_initial st' bodies Hfeed) as Hloop.
  split.
  - intros texts Hdec.
    destruct (handle_all_normal json_loads texts self) as [self' Hall].
    exists self', st'. split; [exact Hall|]. split; [|now split].
    unfold listen_for_messages. rewrite Hloop.
    rewrite (deliver_decoded json_loads bodies self texts st' Hdec).
    now rewrite Hall.
  - intros good bad rest texts e -> Hdec Hbad.
    destruct (handle_all_normal json_loads texts self) as [self' Hall].
    exists self'. split; [exact Hall|].
    pose proof (decode_Raise bad e Hbad) as He. split; [exact He|].
    unfold listen_for_messages. rewrite Hloop. subst e.
    now apply (deliver_undecoded json_loads good self texts self').
Qed.

Lemma well_split_hello :
  well_split (lit "hello world!")
    [lit "12   "; lit "     hello wo"; lit "rld!"].
Proof.
  unfold well_split. split; [reflexivity|]. split; [discriminate|].
  split; [repeat constructor; discriminate|]. split; [reflexivity|].
  vm_compute. repeat constructor.
Defined.

Lemma well_split_empty : well_split [] [lit "0"; lit "         "].
Proof.
  unfold well_split. split; [reflexivity|]. split; [discriminate|].
  split; [repeat constructor; discriminate|]. split; [reflexivity|].
  vm_compute. repeat constructor.
Defined.

Lemma listen_frames_witness :
  Forall2 well_split [lit "hello world!"; []]
    [[lit "12   "; lit "     hello wo"; lit "rld!"];
     [lit "0"; lit "         "]]
  /\ mapM decode [lit "hello world!"; []] = Ret [lit "hello world!"; []]
  /\ exists self' st',
      handle_all (loads_as PNone) (listener_app None)
        [lit "hello world!"; []]
      = Normal self'
      /\ listen_for_messages (loads_as PNone) (listener_app None)
           (concat [[lit "12   "; lit "     hello wo"; lit "rld!"];
                    [lit "0"; lit "         "]])
         = Listening self' st'
      /\ new_msg st' = true /\ full_message st' = [].
Proof.
  assert (H : Forall2 well_split [lit "hello world!"; []]
                [[lit "12   "; lit "     hello wo"; lit "rld!"];
                 [lit "0"; lit "         "]]).
  { constructor; [exact well_split_hello|].
    constructor; [exact well_split_empty|constructor]. }
  assert (Hd : mapM decode [lit "hello world!"; []]
               = Ret [lit "hello world!"; []]) by reflexivity.
  split; [exact H|]. split; [exact Hd|].
  exact (proj1 (listen_frames (loads_as PNone) (listener_app None) _ _ H)
           _ Hd).
Defined.

(** A body that is not UTF-8 (the byte 255), well delivered before the
    body [a], ends the loop: [a] is never handled. *)
Example listen_frames_undecodable :
  listen_for_messages (loads_as PNone) (listener_app None)
    [lit "1         " ++ [255]; lit "1         a"]
  = Stopped (update_chat (listener_app None)
               (ReceivingError UnicodeDecodeError)).
Proof. vm_compute. reflexivity. Qed.

(** C4 as stated fails.  Two packets, of the bodies [a] and [b], that
    arrive as a read of 16 bytes and a read of 6 are never handed to
    the handler: the loop waits for a total that the first read has
    already passed.  And a packet whose first read stops inside the
    digits of the header (here after the [1] of [12]) is not handed on
    either: the loop takes 1 for the length. *)
Lemma listen_misses_frames :
  concat [lit "1         a1    "; lit "     b"]
  = packet_of (lit "a") ++ packet_of (lit "b")
  /\ listen_for_messages (loads_as PNone) (listener_app None)
       [lit "1         a1    "; lit "     b"]
     = Listening (listener_app None)
         {| full_message := lit "1         a1         b";
            new_msg := false; msg_length := 1 |}
  /\ concat [lit "1"; lit "2        hello w"; lit "orld!"]
     = packet_of (lit "hello world!")
  /\ listen_for_messages (loads_as PNone) (listener_app None)
       [lit "1"; lit "2        hello w"; lit "orld!"]
     = Listening (listener_app None)
         {| full_message := lit "12        hello world!";
            new_msg := false; msg_length := 1 |}.
Proof. repeat split; vm_compute; reflexivity. Qed.

(** * Further properties of the number theory *)

Lemma mod_abs_lt (a b : Z) : b <> 0 -> Z.abs (a mod b) < Z.abs b.
Proof.
  intros Hb. destruct (Z.lt_ge_cases 0 b).
  - pose proof (Z.mod_pos_bound a b). lia.
  - pose proof (Z.mod_neg_bound a b). lia.
Qed.

Lemma gcd_loop_general (fuel : nat) :
  forall a b,
    (Z.abs_nat b < fuel)%nat ->
    exists g, gcd_loop fuel a b = Some g /\ Z.abs g = Z.gcd a b.
Proof.
  induction fuel as [|f IH]; intros a b Hf; [lia|].
  cbn [gcd_loop]. destruct (Z.eqb_spec b 0) as [->|Hb].
  - exists a. split; [reflexivity|]. now rewrite Z.gcd_0_r.
  - pose proof (mod_abs_lt a b Hb).
    destruct (IH b (a mod b)) as (g & Hrun & Hg); [lia|].
    exists g. split; [assumption|].
    rewrite Hg, Z.gcd_comm, Z.gcd_mod by assumption. apply Z.gcd_comm.
Qed.

(** X1: the loop of [gcd] ends on all integers, within [|b| + 1] tests
    of its condition; the result is the greatest common divisor up to
    sign, and exactly it when neither argument is negative. *)
Theorem gcd_all_integers (a b : Z) :
  (exists g, gcd_loop (S (Z.abs_nat b)) a b = Some g /\ gcd a b = g)
  /\ Z.abs (gcd a b) = Z.gcd a b
  /\ (0 <= a -> 0 <= b -> gcd a b = Z.gcd a b).
Proof.
  destruct (gcd_loop_general (S (Z.abs_nat b)) a b) as (g & Hrun & Hg); [lia|].
  assert (Heq : gcd a b = g) by (unfold gcd; now rewrite Hrun).
  split; [exists g; split; assumption|]. split; [now rewrite Heq|].
  intros Ha Hb. destruct (Z.eq_dec b 0) as [->|Hb0].
  - unfold gcd. cbn. rewrite Z.gcd_0_r. lia.
  - apply gcd_correct. lia.
Qed.

Lemma xgcd_loop_general (a0 b0 : Z) (fuel : nat) :
  forall a b prevx x prevy y,
    (Z.abs_nat b < fuel)%nat ->
    a0 * prevx + b0 * prevy = a ->
    a0 * x + b0 * y = b ->
    exists g u v,
      xgcd_loop fuel a b prevx x prevy y = Some (g, u, v)
      /\ a0 * u + b0 * v = g /\ Z.abs g = Z.gcd a b.
Proof.
  induction fuel as [|f IH]; intros a b prevx x prevy y Hf Ha Hb; [lia|].
  cbn [xgcd_loop]. destruct (Z.eqb_spec b 0) as [->|Hb0].
  - exists a, prevx, prevy. split; [reflexivity|]. split; [assumption|].
    now rewrite Z.gcd_0_r.
  - pose proof (mod_abs_lt a b Hb0).
    destruct (IH b (a mod b) x (prevx - a / b * x) y (prevy - a / b * y))
      as (g & u & v & Hrun & Hbez & Hg); [lia|assumption| |].
    + rewrite Z.mod_eq by assumption. nia.
    + exists g, u, v. split; [assumption|]. split; [assumption|].
      rewrite Hg, Z.gcd_comm, Z.gcd_mod by assumption. apply Z.gcd_comm.
Qed.

(** X2: [xgcd(a, b)] returns, for all integers, a triple [(g, x, y)]
    with [a * x + b * y = g], where [g] is the greatest common divisor
    up to sign, and exactly it when [b > 0]. *)
Theorem xgcd_bezout (a b : Z) :
  exists g x y,
    xgcd a b = (g, x, y)
    /\ a * x + b * y = g
    /\ Z.abs g = Z.gcd a b
    /\ (0 < b -> g = Z.gcd a b).
Proof.
  destruct (xgcd_loop_general a b (S (Z.abs_nat b)) a b 1 0 0 1)
    as (g & u & v & Hrun & Hbez & Hg); try lia.
  exists g, u, v. unfold xgcd. rewrite Hrun.
  repeat split; try assumption.
  intros Hb. destruct (xgcd_spec a b Hb) as (u' & v' & Hx & _).
  unfold xgcd in Hx. rewrite Hrun in Hx. congruence.
Qed.

(** X3: for a modulus [m > 1], [modinv(a, m)] returns the inverse of
    [a] in [[0, m)] when [a] and [m] are coprime, and raises "Modular
    inverse does not exist" when they are not. *)
Theorem modinv_inverse_or_raise (a m : Z) :
  1 < m ->
  (Z.gcd a m = 1 ->
   exists d, modinv a m = Ret d /\ 0 <= d < m /\ (a * d) mod m = 1)
  /\ (Z.gcd a m <> 1 -> modinv a m = Raise NoModularInverse).
Proof.
  intros Hm. split.
  - intros Hg. now apply modinv_spec.
  - intros Hg. apply modinv_raises; [lia|assumption].
Qed.

Lemma modinv_inverse_or_raise_witness :
  1 < 3120
  /\ (Z.gcd 17 3120 = 1 ->
      exists d, modinv 17 3120 = Ret d /\ 0 <= d < 3120
                /\ (17 * d) mod 3120 = 1)
  /\ (Z.gcd 17 3120 <> 1 -> modinv 17 3120 = Raise NoModularInverse).
Proof.
  split; [lia|]. apply (modinv_inverse_or_raise 17 3120). lia.
Defined.

(** X4: [lcm(a, b)] is the least common multiple whenever [b > 0], and
    it divides by zero exactly when both arguments are zero. *)
Theorem lcm_least_common_multiple (a b : Z) :
  (0 < b -> lcm a b = Ret (Z.lcm a b))
  /\ (lcm a b = Raise ZeroDivisionError <-> a = 0 /\ b = 0).
Proof.
  destruct (gcd_all_integers a b) as (_ & Habs & _).
  split.
  - intros Hb. unfold lcm. rewrite gcd_correct by assumption.
    pose proof (Z.gcd_nonneg a b).
    assert (Hg : Z.gcd a b <> 0).
    { intros H0. apply Z.gcd_eq_0 in H0. lia. }
    destruct (Z.eqb_spec (Z.gcd a b) 0); [contradiction|].
    f_equal. unfold Z.lcm.
    rewrite !Z.abs_mul.
    rewrite (Z.abs_eq b), (Z.abs_eq (b / Z.gcd a b))
      by (try lia; apply Z.div_pos; lia).
    apply Z.divide_div_mul_exact; [assumption|apply Z.gcd_divide_r].
  - unfold lcm. destruct (Z.eqb_spec (gcd a b) 0) as [H0|H0].
    + split; [intros _|reflexivity].
      rewrite H0 in Habs. symmetry in Habs. now apply Z.gcd_eq_0 in Habs.
    + split; [discriminate|]. intros [-> ->]. now compute in H0.
Qed.

(** * Miller-Rabin never rejects a prime *)

Lemma split_twos_spec (p : positive) (s0 : Z) :
  0 <= s0 ->
  let '(s, r) := split_twos p s0 in
  s0 <= s /\ Zpos p = r * 2 ^ (s - s0) /\ Z.odd r = true.
Proof.
  revert s0. induction p as [p IH|p IH|]; intros s0 Hs; cbn [split_twos].
  - rewrite Z.sub_diag. repeat split; first [lia | reflexivity].
  - specialize (IH (s0 + 1) ltac:(lia)).
    destruct (split_twos p (s0 + 1)) as [s r].
    destruct IH as (Hle & Heq & Hodd). repeat split; try lia; [|assumption].
    replace (s - s0) with (Z.succ (s - (s0 + 1))) by lia.
    rewrite Z.pow_succ_r by lia. lia.
  - rewrite Z.sub_diag. repeat split; first [lia | reflexivity].
Qed.

Lemma sqrt_one_prime (n x : Z) :
  Z.prime n -> 0 <= x < n -> (x * x) mod n = 1 -> x = 1 \/ x = n - 1.
Proof.
  intros Hn Hx Hsq. pose proof (Z.prime_ge_2 n Hn).
  assert (Hd : (n | (x - 1) * (x + 1))).
  { apply Z.mod_divide; [lia|].
    replace ((x - 1) * (x + 1)) with (x * x - 1) by ring.
    rewrite Zminus_mod, Hsq, Z.mod_1_l by lia. reflexivity. }
  apply Z.divide_prime_mul in Hd; [|assumption].
  destruct Hd as [[k Hk]|[k Hk]].
  - left. assert (k = 0) by nia. lia.
  - right. assert (k = 1) by nia. lia.
Qed.

Lemma squarings_prime (n : Z) :
  Z.prime n ->
  forall count x,
    0 <= x < n -> x <> 1 -> x <> n - 1 ->
    x ^ (2 ^ Z.of_nat (S count)) mod n = 1 ->
    squarings count x n = Ret true.
Proof.
  intros Hn. pose proof (Z.prime_ge_2 n Hn).
  induction count as [|c IH]; intros x Hx H1 Hm1 Hpow.
  - exfalso. change (2 ^ Z.of_nat 1) with 2 in Hpow.
    rewrite Z.pow_2_r in Hpow.
    destruct (sqrt_one_prime n x Hn Hx Hpow); contradiction.
  - cbn [squarings]. rewrite pow3_nonneg by lia. cbn [rbind].
    rewrite Z.pow_2_r.
    destruct (Z.eqb_spec (x * x mod n) (n - 1)) as [|Hne]; [reflexivity|].
    apply IH.
    + apply Z.mod_pos_bound. lia.
    + intros Hone. destruct (sqrt_one_prime n x Hn Hx Hone); contradiction.
    + assumption.
    + rewrite pow_mod_mod by lia. rewrite <- Z.pow_2_r, <- Z.pow_mul_r by lia.
      rewrite <- Z.pow_succ_r by lia. rewrite <- Nat2Z.inj_succ. exact Hpow.
Qed.

Lemma round_prime (n s r a : Z) :
  Z.prime n -> 1 <= s -> 0 <= r -> n - 1 = r * 2 ^ s ->
  2 <= a <= n - 2 ->
  let x := a ^ r mod n in
  x = 1 \/ x = n - 1 \/ squarings (Z.to_nat (s - 1)) x n = Ret true.
Proof.
  intros Hn Hs Hr Hdec Ha x. pose proof (Z.prime_ge_2 n Hn).
  destruct (Z.eq_dec x 1) as [|H1]; [now left|].
  destruct (Z.eq_dec x (n - 1)) as [|Hm1]; [now right; left|].
  right. right. apply squarings_prime; try assumption.
  - apply Z.mod_pos_bound. lia.
  - unfold x. rewrite pow_mod_mod, <- Z.pow_mul_r by lia.
    rewrite Nat2Z.inj_succ, Z2Nat.id by lia.
    replace (Z.succ (s - 1)) with s by lia. rewrite <- Hdec.
    apply Z.fermat_nz; [assumption|].
    rewrite Z.mod_small by lia. lia.
Qed.

Lemma rounds_prime (rnd : nat -> Z) (n s r : Z) :
  Z.prime n -> 5 <= n -> 1 <= s -> 0 <= r -> n - 1 = r * 2 ^ s ->
  forall k pos, rounds rnd k n s r pos = Done true (pos + k).
Proof.
  intros Hn H5 Hs Hr Hdec. induction k as [|k IH]; intros pos.
  - cbn [rounds]. unfold ret. now rewrite Nat.add_0_r.
  - cbn [rounds]. unfold bind at 1.
    destruct (randrange_spec rnd 2 (n - 1) pos) as (a & -> & Ha); [lia|].
    unfold bind at 1, lift at 1. rewrite pow3_nonneg by lia.
    destruct (round_prime n s r a Hn Hs Hr Hdec ltac:(lia)) as [Hx|[Hx|Hx]].
    + rewrite Hx. cbn [Z.eqb orb negb]. rewrite IH. f_equal. lia.
    + rewrite Hx, Z.eqb_refl, orb_true_r. cbn [negb].
      rewrite IH. f_equal. lia.
    + destruct (negb _).
      * unfold bind, lift. rewrite Hx, IH. f_equal. lia.
      * rewrite IH. f_equal. lia.
Qed.

(** X5: [is_prime] accepts every prime, whatever bases are drawn and
    however many rounds are asked for; it draws one base per round,
    and none for 2 and 3. *)
Theorem is_prime_accepts_primes
  (rnd : nat -> Z) (n : Z) (k : nat) (pos : nat) :
  Z.prime n ->
  is_prime rnd n k pos
  = Done true (if (n =? 2) || (n =? 3) then pos else (pos + k)%nat).
Proof.
  intros Hn. pose proof (Z.prime_ge_2 n Hn). unfold is_prime.
  destruct ((n =? 2) || (n =? 3)) eqn:Hsmall; [reflexivity|].
  apply orb_false_iff in Hsmall. destruct Hsmall as [H2 H3].
  apply Z.eqb_neq in H2, H3.
  destruct (Z.leb_spec n 1); [lia|]. cbn [orb].
  assert (Hodd : n mod 2 <> 0).
  { intros Hz. apply Z.mod_divide in Hz; [|lia].
    apply (Z.divide_prime_prime 2 n Z.prime_2 Hn) in Hz. lia. }
  destruct (Z.eqb_spec (n mod 2) 0); [contradiction|].
  assert (H5 : 5 <= n).
  { destruct (Z.eq_dec n 4) as [->|]; [now compute in Hodd|]. lia. }
  destruct (n - 1) as [|p|p] eqn:Hp; try lia.
  pose proof (split_twos_spec p 0 ltac:(lia)) as Hsplit.
  destruct (split_twos p 0) as [s r].
  destruct Hsplit as (Hs & Hdec & Hr). rewrite Z.sub_0_r in Hdec.
  assert (Hr0 : 0 <= r).
  { assert (0 < 2 ^ s) by (apply Z.pow_pos_nonneg; lia). nia. }
  assert (Hs1 : 1 <= s).
  { destruct (Z.eq_dec s 0) as [->|]; [|lia].
    rewrite Z.pow_0_r, Z.mul_1_r in Hdec.
    apply Z.odd_spec in Hr. destruct Hr as [m Hm]. exfalso. apply Hodd.
    replace n with ((m + 1) * 2) by lia. apply Z.mod_mul. lia. }
  apply rounds_prime; try assumption. lia.
Qed.

Lemma is_prime_accepts_primes_witness :
  Z.prime 17
  /\ is_prime tape_small 17 128 0%nat
     = Done true (if (17 =? 2) || (17 =? 3) then 0%nat else (0 + 128)%nat).
Proof.
  split; [exact prime_17|].
  exact (is_prime_accepts_primes tape_small 17 128 0%nat prime_17).
Defined.

(** * Further properties of prime and key generation *)

Lemma rounds_draws (rnd : nat -> Z) (n s r : Z) :
  5 <= n -> 0 <= r ->
  forall k pos,
    exists b pos',
      rounds rnd k n s r pos = Done b pos'
      /\ (pos <= pos' <= pos + k)%nat.
Proof.
  intros Hn Hr. induction k as [|k IH]; intros pos.
  - exists true, pos. split; [reflexivity|lia].
  - cbn [rounds]. unfold bind at 1.
    destruct (randrange_spec rnd 2 (n - 1) pos) as (a & -> & Ha); [lia|].
    unfold bind at 1, lift at 1. rewrite pow3_nonneg by lia.
    destruct (IH (S pos)) as (b & pos' & Hrun & Hpos).
    destruct (negb _).
    + unfold bind, lift.
      match goal with
      | |- context [squarings ?c ?x n] =>
          destruct (squarings_total c x n) as [found ->]; [lia|]
      end.
      destruct found.
      * exists b, pos'. split; [assumption|lia].
      * exists false, (S pos). split; [reflexivity|lia].
    + exists b, pos'. split; [assumption|lia].
Qed.

(** X6: [is_prime] never raises, for any integer and any draws; it
    draws at most one base per round; and it answers at once, without
    drawing, for 2 and 3 ([True]) and for the numbers below 2 and the
    even numbers ([False]). *)
Theorem is_prime_never_raises
  (rnd : nat -> Z) (n : Z) (k : nat) (pos : nat) :
  exists b pos',
    is_prime rnd n k pos = Done b pos'
    /\ (pos <= pos' <= pos + k)%nat
    /\ (n = 2 \/ n = 3 -> b = true /\ pos' = pos)
    /\ (n <= 1 \/ (n mod 2 = 0 /\ n <> 2) -> b = false /\ pos' = pos).
Proof.
  unfold is_prime.
  destruct (Z.eqb_spec n 2) as [->|H2].
  { exists true, pos. split; [reflexivity|]. split; [lia|].
    split; intros Hc; [split; reflexivity|exfalso].
    destruct Hc as [Hc|[_ Hc]]; [lia|contradiction]. }
  destruct (Z.eqb_spec n 3) as [->|H3].
  { exists true, pos. split; [reflexivity|]. split; [lia|].
    split; intros Hc; [split; reflexivity|exfalso].
    destruct Hc as [Hc|[Hc _]]; [lia|discriminate]. }
  cbn [orb]. destruct (Z.leb_spec n 1) as [H1|H1].
  { exists false, pos. split; [reflexivity|]. split; [lia|].
    split; intros Hc; [exfalso; lia|split; reflexivity]. }
  cbn [orb]. destruct (Z.eqb_spec (n mod 2) 0) as [Hev|Hodd].
  { exists false, pos. split; [reflexivity|]. split; [lia|].
    split; intros Hc; [exfalso; lia|split; reflexivity]. }
  assert (H5 : 5 <= n).
  { destruct (Z.eq_dec n 4) as [->|]; [now compute in Hodd|]. lia. }
  destruct (n - 1) as [|p|p] eqn:Hp; try lia.
  pose proof (split_twos_nonneg p 0) as Hr.
  destruct (split_twos p 0) as [s r]. cbn [snd] in Hr.
  destruct (rounds_draws rnd n s r H5 Hr k pos) as (b & pos' & Hrun & Hpos).
  exists b, pos'. split; [assumption|]. split; [assumption|].
  split; intros H; exfalso; lia.
Qed.

(** X7: when the candidate built from the next draw is a prime,
    [generate_prime_number] returns it in this pass, after the one draw
    of the candidate and the draws of the rounds. *)
Theorem generate_prime_number_returns_prime
  (rnd : nat -> Z) (fuel : nat) (L : Z) (pos : nat) :
  1 <= L ->
  Z.prime (candidate_at rnd L pos) ->
  generate_prime_number rnd (S fuel) L pos
  = Done (candidate_at rnd L pos)
      (if (candidate_at rnd L pos =? 2) || (candidate_at rnd L pos =? 3)
       then S pos else (S pos + 128)%nat).
Proof.
  intros HL Hp. rewrite generate_prime_number_step by assumption.
  cbv zeta. fold (candidate_at rnd L pos).
  rewrite is_prime_accepts_primes by assumption. reflexivity.
Qed.

Lemma generate_prime_number_returns_prime_witness :
  1 <= 5
  /\ Z.prime (candidate_at tape_small 5 0)
  /\ generate_prime_number tape_small 1 5 0%nat
     = Done (candidate_at tape_small 5 0)
         (if (candidate_at tape_small 5 0 =? 2)
             || (candidate_at tape_small 5 0 =? 3)
          then 1%nat else (1 + 128)%nat).
Proof.
  assert (H1 : 1 <= 5) by lia.
  assert (H2 : Z.prime (candidate_at tape_small 5 0)) by exact prime_17.
  split; [exact H1|]. split; [exact H2|].
  exact (generate_prime_number_returns_prime tape_small 0 5 0%nat H1 H2).
Defined.

(** X8: [generate_prime_number] raises [ValueError] for a length below
    1 (the shift count is negative), and for the length 1 it never
    returns: the candidate is always 1. *)
Theorem generate_prime_number_short_lengths
  (rnd : nat -> Z) (fuel : nat) (pos : nat) :
  (forall L, L <= 0 ->
             generate_prime_number rnd (S fuel) L pos = Fail ValueError)
  /\ generate_prime_number rnd fuel 1 pos = Timeout.
Proof.
  split.
  - intros L HL. cbn [generate_prime_number]. unfold bind at 1, getrandbits.
    destruct (Z.ltb_spec L 0); [reflexivity|].
    unfold bind at 1, lift, shl1.
    destruct (Z.ltb_spec (L - 1) 0); [reflexivity|lia].
  - revert pos. induction fuel as [|f IH]; intros pos; [reflexivity|].
    rewrite generate_prime_number_step by lia. cbv zeta.
    assert (Hc : Z.lor (rnd pos mod 2 ^ 1) (Z.lor (Z.shiftl 1 (1 - 1)) 1) = 1).
    { change (Z.lor (Z.shiftl 1 (1 - 1)) 1) with 1. change (2 ^ 1) with 2.
      pose proof (Z.mod_pos_bound (rnd pos) 2 ltac:(lia)).
      assert (Hm : rnd pos mod 2 = 0 \/ rnd pos mod 2 = 1) by lia.
      destruct Hm as [-> | ->]; reflexivity. }
    rewrite Hc.
    change (is_prime rnd 1 128 (S pos)) with (@Done bool false (S pos)).
    apply IH.
Qed.

Lemma generate_prime_number_two (rnd : nat -> Z) (fuel : nat) (pos : nat) :
  generate_prime_number rnd (S fuel) 2 pos = Done 3 (S pos).
Proof.
  rewrite generate_prime_number_step by lia. cbv zeta.
  assert (Hc : Z.lor (rnd pos mod 2 ^ 2) (Z.lor (Z.shiftl 1 (2 - 1)) 1) = 3).
  { change (Z.lor (Z.shiftl 1 (2 - 1)) 1) with 3. change (2 ^ 2) with 4.
    pose proof (Z.mod_pos_bound (rnd pos) 4 ltac:(lia)).
    assert (Hm : rnd pos mod 4 = 0 \/ rnd pos mod 4 = 1
                 \/ rnd pos mod 4 = 2 \/ rnd pos mod 4 = 3) by lia.
    destruct Hm as [-> |[-> |[-> | ->]]]; reflexivity. }
  rewrite Hc. reflexivity.
Qed.

(** X9: [generate_keys] raises [ValueError] when [key_length] is below
    2, and never returns when [key_length] is 2 to 5: with one bit per
    prime no candidate is accepted, and with two bits both primes are
    always 3, so the pair is drawn again for ever. *)
Theorem generate_keys_short_lengths
  (rnd : nat -> Z) (fuel : nat) (self : RSA) (pos : nat) :
  (key_length self < 2 ->
   generate_keys rnd (S fuel) self pos = Fail ValueError)
  /\ (2 <= key_length self < 6 ->
      generate_keys rnd fuel self pos = Timeout).
Proof.
  split.
  - intros H. cbn [generate_keys]. unfold bind at 1.
    assert (HL : key_length self / 2 <= 0).
    { apply Z.lt_succ_r. apply Z.div_lt_upper_bound; lia. }
    now rewrite (proj1 (generate_prime_number_short_lengths rnd fuel pos)).
  - intros H. revert pos. induction fuel as [|f IH]; intros pos;
      [reflexivity|].
    cbn [generate_keys]. unfold bind at 1.
    assert (HL : key_length self / 2 = 1 \/ key_length self / 2 = 2).
    { assert (1 <= key_length self / 2) by (apply Z.div_le_lower_bound; lia).
      assert (key_length self / 2 < 3)
        by (apply Z.div_lt_upper_bound; lia).
      lia. }
    destruct HL as [-> | ->].
    + now rewrite (proj2 (generate_prime_number_short_lengths rnd (S f) pos)).
    + rewrite generate_prime_number_two. unfold bind at 1.
      rewrite generate_prime_number_two. cbn [Z.eqb Pos.eqb negb]. apply IH.
Qed.

(** X10: a key pair that [generate_keys] returns keeps [key_length],
    which is then at least 6; its modulus has [2 * (key_length // 2)]
    bits or one less, so it is above every code point from the length
    24 on and at least [2^256] from the length 258 on; and its private
    exponent lies between 1 and the totient. *)
Theorem generate_keys_sizes
  (rnd : nat -> Z) (fuel : nat) (self : RSA) (pos : nat)
  (self' : RSA) (pos' : nat) :
  generate_keys rnd fuel self pos = Done self' pos' ->
  exists kp,
    key_pair self' = Some kp
    /\ key_length self' = key_length self
    /\ 6 <= key_length self
    /\ 2 ^ (2 * (key_length self / 2) - 2) <= N (public_key kp)
       < 2 ^ (2 * (key_length self / 2))
    /\ (24 <= key_length self -> 1114111 < N (public_key kp))
    /\ (258 <= key_length self -> 2 ^ 256 <= N (public_key kp))
    /\ 1 <= D (private_key kp).
Proof.
  intros H. apply generated_key_facts in H.
  destruct H as (p & q & e & d & Hlen & Hkp & Hp & Hq & Hne & Hp3 & Hq3 & _
                 & Hl2 & _ & _ & _ & _ & Hd & Hed).
  destruct Hp as (Hpo & Hpb & _). destruct Hq as (Hqo & Hqb & _).
  unfold exact_bits in *. set (l := key_length self / 2) in *.
  exists (keys_of (p * q) e d). cbn [keys_of N D public_key private_key].
  assert (Hl3 : 3 <= l).
  { destruct (Z.lt_ge_cases l 3) as [Hlt|]; [exfalso|assumption].
    assert (Hl : l <= 0 \/ l = 1 \/ l = 2) by lia.
    destruct Hl as [Hl|[Hl|Hl]].
    - assert (2 ^ l <= 2 ^ 0) by (apply Z.pow_le_mono_r; lia).
      change (2 ^ 0) with 1 in *. lia.
    - rewrite Hl in *. change (2 ^ 1) with 2 in *. lia.
    - rewrite Hl in *. change (2 ^ 2) with 4 in *.
      change (2 ^ (2 - 1)) with 2 in *.
      assert (p = 3).
      { apply Z.odd_spec in Hpo. destruct Hpo as [m Hm]. lia. }
      assert (q = 3).
      { apply Z.odd_spec in Hqo. destruct Hqo as [m Hm]. lia. }
      lia. }
  assert (Hkl : 6 <= key_length self).
  { unfold l in Hl3. pose proof (Z.mul_div_le (key_length self) 2). lia. }
  assert (Hlow : 2 ^ (2 * l - 2) <= p * q).
  { replace (2 * l - 2) with ((l - 1) + (l - 1)) by lia.
    rewrite Z.pow_add_r by lia.
    assert (0 < 2 ^ (l - 1)) by (apply Z.pow_pos_nonneg; lia). nia. }
  assert (Hhigh : p * q < 2 ^ (2 * l)).
  { replace (2 * l) with (l + l) by lia. rewrite Z.pow_add_r by lia. nia. }
  repeat match goal with
         | |- _ /\ _ => split
         end; try assumption.
  - intros H24.
    assert (12 <= l) by (unfold l; apply Z.div_le_lower_bound; lia).
    assert (2 ^ 22 <= 2 ^ (2 * l - 2)) by (apply Z.pow_le_mono_r; lia).
    change (2 ^ 22) with 4194304 in *. lia.
  - intros H258.
    assert (129 <= l) by (unfold l; apply Z.div_le_lower_bound; lia).
    assert (2 ^ 256 <= 2 ^ (2 * l - 2)) by (apply Z.pow_le_mono_r; lia).
    lia.
  - destruct (Z.eq_dec d 0) as [->|]; [|lia].
    rewrite Z.mul_0_r, Z.mod_0_l in Hed by lia. discriminate.
Qed.

Lemma generate_keys_sizes_witness :
  generate_keys tape_small 1 (RSA_init 10) 0%nat = Done rsa_small 259
  /\ exists kp,
      key_pair rsa_small = Some kp
      /\ key_length rsa_small = key_length (RSA_init 10)
      /\ 6 <= key_length (RSA_init 10)
      /\ 2 ^ (2 * (key_length (RSA_init 10) / 2) - 2) <= N (public_key kp)
         < 2 ^ (2 * (key_length (RSA_init 10) / 2))
      /\ (24 <= key_length (RSA_init 10) -> 1114111 < N (public_key kp))
      /\ (258 <= key_length (RSA_init 10) -> 2 ^ 256 <= N (public_key kp))
      /\ 1 <= D (private_key kp).
Proof.
  assert (H : generate_keys tape_small 1 (RSA_init 10) 0%nat
              = Done rsa_small 259) by (vm_compute; reflexivity).
  split; [exact H|].
  exact (generate_keys_sizes tape_small 1 (RSA_init 10) 0%nat rsa_small 259 H).
Defined.

Lemma choose_e_spec (rnd : nat -> Z) (fuel : nat) (totient : Z) :
  forall pos,
    choose_e rnd fuel totient pos = Timeout
    \/ exists e pos', choose_e rnd fuel totient pos = Done e pos'.
Proof.
  induction fuel as [|f IH]; intros pos; [now left|].
  cbn [choose_e]. unfold bind.
  destruct (randrange_spec rnd (2 ^ 16) (2 ^ 17) pos) as (v & -> & _);
    [reflexivity|].
  destruct (gcd v totient =? 1); [|apply IH].
  right. now exists v, (S pos).
Qed.

(** X11: for a [key_length] of at least 2, [generate_keys] never
    raises, whatever is drawn: [lcm] does not divide by zero and
    [modinv] always finds its inverse.  The run is either still looping
    or has returned. *)
Theorem generate_keys_never_raises
  (rnd : nat -> Z) (fuel : nat) (self : RSA) (pos : nat) :
  2 <= key_length self ->
  generate_keys rnd fuel self pos = Timeout
  \/ exists self' pos', generate_keys rnd fuel self pos = Done self' pos'.
Proof.
  intros Hkl.
  assert (HL : 1 <= key_length self / 2)
    by (apply Z.div_le_lower_bound; lia).
  assert (Hgen : forall r, generate_keys rnd fuel self pos = r ->
                           r = Timeout \/ exists self' pos', r = Done self' pos').
  { revert pos. induction fuel as [|f IH]; intros pos r Hr;
      [left; now rewrite <- Hr|].
    cbn [generate_keys] in Hr. unfold bind at 1 in Hr.
    destruct (generate_prime_number_spec rnd (S f) _ HL pos)
      as [Ht|(p & pos1 & Hrun & Hp)]; rewrite ?Ht, ?Hrun in Hr;
      [left; now rewrite <- Hr|].
    unfold bind at 1 in Hr.
    destruct (generate_prime_number_spec rnd (S f) _ HL pos1)
      as [Ht|(q & pos2 & Hrun' & Hq)]; rewrite ?Ht, ?Hrun' in Hr;
      [left; now rewrite <- Hr|].
    destruct (Z.eqb_spec p q) as [|Hne]; cbn [negb] in Hr;
      [now apply (IH pos2)|].
    destruct (totient_of_candidates rnd _ p q Hp Hq) as (_ & _ & Hl & Hl2).
    unfold bind at 1, lift at 1 in Hr. rewrite Hl in Hr.
    unfold bind at 1 in Hr.
    destruct (choose_e_spec rnd (S f) (Z.lcm (p - 1) (q - 1)) pos2)
      as [Ht|(e & pos3 & He)]; rewrite ?Ht, ?He in Hr;
      [left; now rewrite <- Hr|].
    apply choose_e_Done in He. destruct He as [_ Hg].
    rewrite gcd_correct in Hg by lia.
    destruct (modinv_spec e (Z.lcm (p - 1) (q - 1))) as (d & Hd & _);
      [lia|assumption|].
    unfold bind, lift in Hr. rewrite Hd in Hr.
    right. eexists. eexists. now rewrite <- Hr. }
  apply Hgen. reflexivity.
Qed.

Lemma generate_keys_never_raises_witness :
  2 <= key_length (RSA_init 10)
  /\ (generate_keys tape_small 1 (RSA_init 10) 0%nat = Timeout
      \/ exists self' pos',
          generate_keys tape_small 1 (RSA_init 10) 0%nat
          = Done self' pos').
Proof.
  assert (H : 2 <= key_length (RSA_init 10)) by (cbn; lia).
  split; [exact H|].
  exact (generate_keys_never_raises tape_small 1 (RSA_init 10) 0%nat H).
Defined.

(** X12: on draws whose first two candidates are different primes
    above 3 and whose first exponent is coprime to the totient,
    [generate_keys] returns in its first pass, after 259 draws, the
    key pair of these numbers, with the inverse of the exponent as
    private exponent. *)
Theorem generate_keys_on_primes
  (rnd : nat -> Z) (fuel : nat) (self : RSA) (pos : nat) :
  let L := key_length self / 2 in
  let p := candidate_at rnd L pos in
  let q := candidate_at rnd L (pos + 129) in
  let e := exponent_at rnd (pos + 258) in
  1 <= L ->
  Z.prime p -> 3 < p -> Z.prime q -> 3 < q -> p <> q ->
  Z.gcd e (Z.lcm (p - 1) (q - 1)) = 1 ->
  exists d,
    generate_keys rnd (S fuel) self pos
    = Done {| key_length := key_length self;
              key_pair := Some (keys_of (p * q) e d) |} (pos + 259)
    /\ 0 <= d < Z.lcm (p - 1) (q - 1)
    /\ (e * d) mod Z.lcm (p - 1) (q - 1) = 1.
Proof.
  intros L p q e HL Hp Hp3 Hq Hq3 Hne Hg.
  assert (Hrp : generate_prime_number rnd (S fuel) L pos
                = Done p (pos + 129)).
  { unfold p. rewrite generate_prime_number_returns_prime by assumption.
    fold p. destruct (Z.eqb_spec p 2); [lia|].
    destruct (Z.eqb_spec p 3); [lia|]. cbn [orb]. f_equal. lia. }
  assert (Hrq : generate_prime_number rnd (S fuel) L (pos + 129)%nat
                = Done q (pos + 258)).
  { unfold q. rewrite generate_prime_number_returns_prime by assumption.
    fold q. destruct (Z.eqb_spec q 2); [lia|].
    destruct (Z.eqb_spec q 3); [lia|]. cbn [orb]. f_equal. lia. }
  assert (Hl : lcm (p - 1) (q - 1) = Ret (Z.lcm (p - 1) (q - 1)))
    by (apply lcm_correct; lia).
  assert (Hl2 : 2 <= Z.lcm (p - 1) (q - 1)).
  { pose proof (Z.lcm_nonneg (p - 1) (q - 1)).
    destruct (Z.divide_lcm_l (p - 1) (q - 1)) as [k Hk].
    assert (Z.lcm (p - 1) (q - 1) <> 0).
    { intros Hz. apply Z.lcm_eq_0 in Hz. lia. }
    assert (0 < k) by nia. nia. }
  destruct (modinv_spec e (Z.lcm (p - 1) (q - 1))) as (d & Hd & Hr & Hm);
    [lia|assumption|].
  exists d. split; [|split; assumption].
  cbn [generate_keys]. fold L. unfold bind at 1. rewrite Hrp.
  unfold bind at 1. rewrite Hrq.
  destruct (Z.eqb_spec p q); [contradiction|]. cbn [negb].
  unfold bind at 1, lift at 1. rewrite Hl.
  unfold bind at 1. cbn [choose_e]. unfold bind at 1, randrange.
  change (2 ^ 17 <=? 2 ^ 16) with false. cbv iota. fold (exponent_at rnd (pos + 258)).
  fold e. rewrite gcd_correct by lia. rewrite Hg. cbn [Z.eqb Pos.eqb].
  unfold ret, bind, lift. rewrite Hd. unfold keys_of. f_equal. lia.
Qed.

Lemma generate_keys_on_primes_witness :
  1 <= key_length (RSA_init 10) / 2
  /\ Z.prime (candidate_at tape_small (key_length (RSA_init 10) / 2) 0)
  /\ 3 < candidate_at tape_small (key_length (RSA_init 10) / 2) 0
  /\ Z.prime (candidate_at tape_small (key_length (RSA_init 10) / 2) (0 + 129))
  /\ 3 < candidate_at tape_small (key_length (RSA_init 10) / 2) (0 + 129)
  /\ candidate_at tape_small (key_length (RSA_init 10) / 2) 0
     <> candidate_at tape_small (key_length (RSA_init 10) / 2) (0 + 129)
  /\ Z.gcd (exponent_at tape_small (0 + 258))
       (Z.lcm (candidate_at tape_small (key_length (RSA_init 10) / 2) 0 - 1)
          (candidate_at tape_small (key_length (RSA_init 10) / 2) (0 + 129)
           - 1)) = 1
  /\ exists d,
      generate_keys tape_small 1 (RSA_init 10) 0%nat
      = Done {| key_length := key_length (RSA_init 10);
                key_pair :=
                  Some (keys_of
                          (candidate_at tape_small
                             (key_length (RSA_init 10) / 2) 0
                           * candidate_at tape_small
                               (key_length (RSA_init 10) / 2) (0 + 129))
                          (exponent_at tape_small (0 + 258)) d) |}
          (0 + 259)
      /\ 0 <= d < Z.lcm (candidate_at tape_small
                           (key_length (RSA_init 10) / 2) 0 - 1)
                     (candidate_at tape_small
                        (key_length (RSA_init 10) / 2) (0 + 129) - 1)
      /\ (exponent_at tape_small (0 + 258) * d)
           mod Z.lcm (candidate_at tape_small
                        (key_length (RSA_init 10) / 2) 0 - 1)
                 (candidate_at tape_small
                    (key_length (RSA_init 10) / 2) (0 + 129) - 1) = 1.
Proof.
  assert (H1 : 1 <= key_length (RSA_init 10) / 2) by (vm_compute; discriminate).
  assert (H2 : Z.prime (candidate_at tape_small (key_length (RSA_init 10) / 2) 0))
    by exact prime_17.
  assert (H3 : 3 < candidate_at tape_small (key_length (RSA_init 10) / 2) 0)
    by reflexivity.
  assert (H4 : Z.prime (candidate_at tape_small
                          (key_length (RSA_init 10) / 2) (0 + 129)))
    by exact prime_19.
  assert (H5 : 3 < candidate_at tape_small
                     (key_length (RSA_init 10) / 2) (0 + 129))
    by reflexivity.
  assert (H6 : candidate_at tape_small (key_length (RSA_init 10) / 2) 0
               <> candidate_at tape_small
                    (key_length (RSA_init 10) / 2) (0 + 129))
    by (vm_compute; discriminate).
  assert (H7 : Z.gcd (exponent_at tape_small (0 + 258))
                 (Z.lcm (candidate_at tape_small
                           (key_length (RSA_init 10) / 2) 0 - 1)
                    (candidate_at tape_small
                       (key_length (RSA_init 10) / 2) (0 + 129) - 1)) = 1)
    by (vm_compute; reflexivity).
  repeat match goal with
         | |- _ /\ _ => split; [assumption|]
         end.
  exact (generate_keys_on_primes tape_small 0 (RSA_init 10) 0%nat
           H1 H2 H3 H4 H5 H6 H7).
Defined.

(** * Further properties of the cipher and the signatures *)

Lemma prime_53 : Z.prime 53.
Proof. trial_division. Qed.

Lemma prime_61 : Z.prime 61.
Proof. trial_division. Qed.

Lemma textbook_3233 : textbook_key (keys_of 3233 17 2753) 61 53.
Proof.
  unfold textbook_key. cbn [keys_of N E D public_key private_key].
  split; [exact prime_61|]. split; [exact prime_53|].
  split; [discriminate|]. split; [reflexivity|].
  split; [lia|]. split; [lia|]. reflexivity.
Qed.

Lemma textbook_key_exponent (kp : RSAKeyPair) (p q m : Z) :
  textbook_key kp p q ->
  m ^ (E (public_key kp) * D (private_key kp)) mod N (public_key kp)
  = m mod N (public_key kp)
  /\ 6 <= N (public_key kp).
Proof.
  intros (Hp & Hq & Hne & HN & He & Hd & Hed).
  pose proof (Z.prime_ge_2 p Hp). pose proof (Z.prime_ge_2 q Hq).
  rewrite HN. split; [|nia].
  apply (rsa_exponent p q (Z.lcm (p - 1) (q - 1))); try assumption.
  - apply Z.divide_lcm_l.
  - apply Z.divide_lcm_r.
  - pose proof (Z.lcm_nonneg (p - 1) (q - 1)).
    assert (Z.lcm (p - 1) (q - 1) <> 0).
    { intros Hz. apply Z.lcm_eq_0 in Hz. lia. }
    lia.
Qed.

(** X13: under a public key with a positive modulus and a non-negative
    exponent, [encrypt] never raises; it returns one unit per character,
    each in [[0, N)]. *)
Theorem encrypt_shape (message : pystr) (pk : PublicKey) :
  0 < N pk -> 0 <= E pk ->
  exists units,
    encrypt message pk = Ret units
    /\ length units = length message
    /\ Forall (fun c => 0 <= c < N pk) units.
Proof.
  intros Hn He. rewrite encrypt_units by lia.
  eexists. split; [reflexivity|]. split; [apply length_map|].
  apply Forall_forall. intros c Hc. apply in_map_iff in Hc.
  destruct Hc as (m & <- & _). apply Z.mod_pos_bound. assumption.
Qed.

Lemma encrypt_shape_witness :
  0 < N {| N := 3233; E := 17 |} /\ 0 <= E {| N := 3233; E := 17 |}
  /\ exists units,
      encrypt (lit "Hi") {| N := 3233; E := 17 |} = Ret units
      /\ length units = length (lit "Hi")
      /\ Forall (fun c => 0 <= c < N {| N := 3233; E := 17 |}) units.
Proof.
  assert (H1 : 0 < N {| N := 3233; E := 17 |}) by reflexivity.
  assert (H2 : 0 <= E {| N := 3233; E := 17 |}) by (cbn; lia).
  split; [exact H1|]. split; [exact H2|].
  exact (encrypt_shape (lit "Hi") {| N := 3233; E := 17 |} H1 H2).
Defined.

Lemma textbook_decrypt
  (self : RSA) (kp : RSAKeyPair) (p q : Z) (plaintext : pystr) :
  key_pair self = Some kp ->
  textbook_key kp p q ->
  valid_str plaintext ->
  decrypt self
    (int_list (map (fun c => c ^ E (public_key kp) mod N (public_key kp))
                 plaintext))
  = Ret (map (fun c => c mod N (public_key kp)) plaintext).
Proof.
  intros Hkp Hkey Hvalid.
  assert (Hn : 6 <= N (public_key kp))
    by apply (textbook_key_exponent kp p q 0 Hkey).
  pose proof Hkey as (_ & _ & _ & _ & He & Hd & _).
  apply (decrypt_units self kp); try assumption; try lia.
  - unfold valid_str. apply Forall_forall. unfold valid_codepoint.
    intros m Hm. apply in_map_iff in Hm. destruct Hm as (c & <- & Hc).
    unfold valid_str in Hvalid.
    rewrite Forall_forall in Hvalid. specialize (Hvalid c Hc).
    unfold valid_codepoint in Hvalid.
    pose proof (Z.mod_pos_bound c (N (public_key kp)) ltac:(lia)).
    pose proof (Z.mod_le c (N (public_key kp)) ltac:(lia) ltac:(lia)).
    lia.
  - rewrite map_map. apply map_ext. intros c.
    rewrite pow_mod_mod, <- Z.pow_mul_r by lia.
    apply (textbook_key_exponent kp p q c Hkey).
Qed.

Lemma mod_small_all (n : Z) (s : pystr) :
  valid_str s -> Forall (fun c => c < n) s ->
  map (fun c => c mod n) s = s.
Proof.
  intros Hvalid Hlt. rewrite <- (map_id s) at 2. apply map_ext_in.
  intros c Hc. unfold valid_str in Hvalid.
  rewrite Forall_forall in Hlt, Hvalid.
  specialize (Hlt c Hc). specialize (Hvalid c Hc).
  unfold valid_codepoint in Hvalid. apply Z.mod_small. lia.
Qed.

Lemma textbook_verify
  (self : RSA) (kp : RSAKeyPair) (p q : Z) (message : pystr) (h : Z) :
  key_pair self = Some kp ->
  textbook_key kp p q ->
  (hx <-- create_hash message ;; py_int 16 hx) = Ret h ->
  exists signature,
    sign self message = Ret signature
    /\ forall other h',
        (hx <-- create_hash other ;; py_int 16 hx) = Ret h' ->
        verify other (PInt signature) (Some (public_key kp))
        = Ret (h' =? h mod N (public_key kp)).
Proof.
  intros Hkp Hkey Hh.
  assert (Hn : 6 <= N (public_key kp))
    by apply (textbook_key_exponent kp p q 0 Hkey).
  pose proof Hkey as (_ & _ & _ & _ & He & Hd & _).
  set (n := N (public_key kp)) in *.
  set (sg := h ^ D (private_key kp) mod n).
  assert (Hback : sg ^ E (public_key kp) mod n = h mod n).
  { unfold sg. rewrite pow_mod_mod, <- Z.pow_mul_r by lia.
    rewrite (Z.mul_comm (D (private_key kp))).
    apply (textbook_key_exponent kp p q h Hkey). }
  exists sg. split.
  - unfold sign. rewrite Hkp.
    destruct (create_hash message) as [hex|]; [|discriminate].
    cbn [rbind] in *. rewrite Hh. cbn [rbind]. fold n.
    apply pow3_nonneg; lia.
  - intros other h' Hh'. unfold verify.
    destruct (create_hash other) as [hex'|]; [|discriminate].
    cbn [rbind as_int] in *. fold n. rewrite pow3_nonneg by lia.
    cbn [rbind]. rewrite Hh'. cbn [rbind]. now rewrite Hback.
Qed.

(** X14: under any textbook key pair, generated or loaded, decrypting
    what [encrypt] returned gives every character back reduced modulo
    [N]: the string itself when all its code points are below [N], and
    silently another string otherwise. *)
Theorem decrypt_encrypt_modulo
  (self : RSA) (kp : RSAKeyPair) (p q : Z) (plaintext : pystr) :
  key_pair self = Some kp ->
  textbook_key kp p q ->
  valid_str plaintext ->
  exists units,
    encrypt plaintext (public_key kp) = Ret units
    /\ decrypt self (int_list units)
       = Ret (map (fun c => c mod N (public_key kp)) plaintext)
    /\ (Forall (fun c => c < N (public_key kp)) plaintext ->
        decrypt self (int_list units) = Ret plaintext).
Proof.
  intros Hkp Hkey Hvalid.
  assert (Hn : 6 <= N (public_key kp))
    by apply (textbook_key_exponent kp p q 0 Hkey).
  pose proof Hkey as (_ & _ & _ & _ & He & Hd & _).
  pose proof (textbook_decrypt self kp p q plaintext Hkp Hkey Hvalid)
    as Hdec.
  exists (map (fun c => c ^ E (public_key kp) mod N (public_key kp)) plaintext).
  split; [apply encrypt_units; lia|]. split; [exact Hdec|].
  intros Hlt. rewrite Hdec. f_equal. now apply mod_small_all.
Qed.

Lemma decrypt_encrypt_modulo_witness :
  key_pair rsa_3233 = Some (keys_of 3233 17 2753)
  /\ textbook_key (keys_of 3233 17 2753) 61 53
  /\ valid_str [65; 8364]
  /\ exists units,
      encrypt [65; 8364] (public_key (keys_of 3233 17 2753)) = Ret units
      /\ decrypt rsa_3233 (int_list units)
         = Ret (map (fun c => c mod N (public_key (keys_of 3233 17 2753)))
                  [65; 8364])
      /\ (Forall (fun c => c < N (public_key (keys_of 3233 17 2753)))
            [65; 8364] ->
          decrypt rsa_3233 (int_list units) = Ret [65; 8364]).
Proof.
  assert (H1 : key_pair rsa_3233 = Some (keys_of 3233 17 2753))
    by reflexivity.
  assert (H3 : valid_str [65; 8364]).
  { repeat constructor; discriminate. }
  split; [exact H1|]. split; [exact textbook_3233|]. split; [exact H3|].
  exact (decrypt_encrypt_modulo rsa_3233 (keys_of 3233 17 2753) 61 53
           [65; 8364] H1 textbook_3233 H3).
Defined.

(** The euro sign, code point 8364, comes back under the modulus 3233
    as the character of code point 1898. *)
Example decrypt_encrypt_euro :
  (units <-- encrypt [65; 8364] {| N := 3233; E := 17 |} ;;
   decrypt rsa_3233 (int_list units)) = Ret [65; 1898].
Proof. vm_compute. reflexivity. Qed.

(** X15: under any textbook key pair, the signature of a message
    verifies on a message (the same or another) exactly when the hash
    of that message equals the hash of the signed one reduced modulo
    [N]; from [N >= 2^256] on, exactly when the two hashes are equal. *)
Theorem verify_compares_hashes
  (self : RSA) (kp : RSAKeyPair) (p q : Z)
  (message other : pystr) (data data' : bytes) :
  key_pair self = Some kp ->
  textbook_key kp p q ->
  encode message = Ret data ->
  encode other = Ret data' ->
  exists h h' signature,
    (hx <-- create_hash message ;; py_int 16 hx) = Ret h
    /\ (hx <-- create_hash other ;; py_int 16 hx) = Ret h'
    /\ sign self message = Ret signature
    /\ verify other (PInt signature) (Some (public_key kp))
       = Ret (h' =? h mod N (public_key kp))
    /\ (2 ^ 256 <= N (public_key kp) ->
        verify other (PInt signature) (Some (public_key kp))
        = Ret (h' =? h)).
Proof.
  intros Hkp Hkey Henc Henc'.
  destruct (hash_int message data Henc) as (hex & h & Hhash & Hint & Hh).
  destruct (hash_int other data' Henc') as (hex' & h' & Hhash' & Hint' & Hh').
  assert (H1 : (hx <-- create_hash message ;; py_int 16 hx) = Ret h)
    by now rewrite Hhash.
  assert (H2 : (hx <-- create_hash other ;; py_int 16 hx) = Ret h')
    by now rewrite Hhash'.
  destruct (textbook_verify self kp p q message h Hkp Hkey H1)
    as (sg & Hsign & Hverify).
  exists h, h', sg. repeat (split; [assumption|]).
  split; [now apply Hverify|].
  intros Hbig. rewrite (Hverify other h' H2).
  now rewrite (Z.mod_small h (N (public_key kp))) by lia.
Qed.

Lemma verify_compares_hashes_witness :
  key_pair rsa_3233 = Some (keys_of 3233 17 2753)
  /\ textbook_key (keys_of 3233 17 2753) 61 53
  /\ encode (lit "pay 10") = Ret (lit "pay 10")
  /\ encode (lit "pay 99") = Ret (lit "pay 99")
  /\ exists h h' signature,
      (hx <-- create_hash (lit "pay 10") ;; py_int 16 hx) = Ret h
      /\ (hx <-- create_hash (lit "pay 99") ;; py_int 16 hx) = Ret h'
      /\ sign rsa_3233 (lit "pay 10") = Ret signature
      /\ verify (lit "pay 99") (PInt signature)
           (Some (public_key (keys_of 3233 17 2753)))
         = Ret (h' =? h mod N (public_key (keys_of 3233 17 2753)))
      /\ (2 ^ 256 <= N (public_key (keys_of 3233 17 2753)) ->
          verify (lit "pay 99") (PInt signature)
            (Some (public_key (keys_of 3233 17 2753)))
          = Ret (h' =? h)).
Proof.
  assert (H1 : key_pair rsa_3233 = Some (keys_of 3233 17 2753))
    by reflexivity.
  assert (H3 : encode (lit "pay 10") = Ret (lit "pay 10")) by reflexivity.
  assert (H4 : encode (lit "pay 99") = Ret (lit "pay 99")) by reflexivity.
  split; [exact H1|]. split; [exact textbook_3233|].
  split; [exact H3|]. split; [exact H4|].
  exact (verify_compares_hashes rsa_3233 (keys_of 3233 17 2753) 61 53
           (lit "pay 10") (lit "pay 99") (lit "pay 10") (lit "pay 99")
           H1 textbook_3233 H3 H4).
Defined.

(** * UTF-8 *)

Ltac settle_tests :=
  repeat match goal with
         | |- context [?a <=? ?b] => destruct (Z.leb_spec a b); try lia
         | |- context [?a <? ?b] => destruct (Z.ltb_spec a b); try lia
         end.

Lemma decode_1 (b0 : Z) (rest : bytes) (s : pystr) :
  0 <= b0 < 128 -> decode rest = Ret s ->
  decode (b0 :: rest) = Ret (b0 :: s).
Proof.
  intros H0 Hrest. cbn [decode]. settle_tests. cbn [andb].
  rewrite Hrest. reflexivity.
Qed.

Lemma decode_2 (b0 b1 : Z) (rest : bytes) (s : pystr) :
  194 <= b0 <= 223 -> 128 <= b1 <= 191 -> decode rest = Ret s ->
  decode (b0 :: b1 :: rest) = Ret ((b0 - 192) * 64 + (b1 - 128) :: s).
Proof.
  intros H0 H1 Hrest. cbn [decode]. unfold is_cont. settle_tests.
  cbn [andb]. rewrite Hrest. reflexivity.
Qed.

Lemma decode_3 (b0 b1 b2 c : Z) (rest : bytes) (s : pystr) :
  224 <= b0 <= 239 -> 128 <= b1 <= 191 -> 128 <= b2 <= 191 ->
  (b0 - 224) * 4096 + (b1 - 128) * 64 + (b2 - 128) = c ->
  2048 <= c -> c < 55296 \/ 57343 < c ->
  decode rest = Ret s ->
  decode (b0 :: b1 :: b2 :: rest) = Ret (c :: s).
Proof.
  intros H0 H1 H2 Hv Hlo Hs Hrest. cbn [decode]. cbv zeta. rewrite Hv.
  unfold is_cont. settle_tests; cbn [andb negb]; rewrite Hrest; reflexivity.
Qed.

Lemma decode_4 (b0 b1 b2 b3 c : Z) (rest : bytes) (s : pystr) :
  240 <= b0 <= 244 -> 128 <= b1 <= 191 -> 128 <= b2 <= 191 ->
  128 <= b3 <= 191 ->
  (b0 - 240) * 262144 + (b1 - 128) * 4096 + (b2 - 128) * 64 + (b3 - 128)
  = c ->
  65536 <= c <= 1114111 ->
  decode rest = Ret s ->
  decode (b0 :: b1 :: b2 :: b3 :: rest) = Ret (c :: s).
Proof.
  intros H0 H1 H2 H3 Hv Hc Hrest. cbn [decode]. cbv zeta. rewrite Hv.
  unfold is_cont. settle_tests. cbn [andb]. rewrite Hrest. reflexivity.
Qed.

Ltac take_chunk H :=
  match type of H with
  | Ret ?x = Ret ?chunk =>
      let E := fresh in
      assert (E : chunk = x) by congruence; rewrite E; clear H E
  end.

Lemma decode_encode_char (c : Z) (chunk rest : bytes) (s : pystr) :
  encode_char c = Ret chunk -> decode rest = Ret s ->
  decode (chunk ++ rest) = Ret (c :: s).
Proof.
  unfold encode_char. intros Hc Hrest.
  destruct (Z.ltb_spec c 0); [discriminate|].
  destruct (Z.ltb_spec 1114111 c); [discriminate|]. cbn [orb] in Hc.
  destruct (Z.ltb_spec c 128).
  { take_chunk Hc. apply decode_1; [lia|assumption]. }
  destruct (Z.ltb_spec c 2048).
  { take_chunk Hc. cbn [app].
    replace c with ((192 + c / 64 - 192) * 64 + (128 + c mod 64 - 128))
      at 3 by (Z.div_mod_to_equations; lia).
    apply decode_2; [| |assumption]; Z.div_mod_to_equations; lia. }
  destruct (Z.leb_spec 55296 c); destruct (Z.leb_spec c 57343);
    cbn [andb] in Hc; try discriminate;
    (destruct (Z.ltb_spec c 65536); take_chunk Hc; cbn [app];
     [apply decode_3 | apply decode_4]; try assumption;
     Z.div_mod_to_equations; lia).
Qed.

Lemma decode_encode (s : pystr) (data : bytes) :
  encode s = Ret data -> decode data = Ret s.
Proof.
  unfold encode. revert data. induction s as [|c s IH]; intros data H.
  - injection H as <-. reflexivity.
  - cbn [mapM] in H. destruct (encode_char c) as [chunk|] eqn:Hc;
      [|discriminate]. cbn [rbind] in H.
    destruct (mapM encode_char s) as [chunks|]; [|discriminate].
    cbn [rbind] in *. injection H as <-. cbn [concat].
    apply decode_encode_char; [assumption|]. now apply IH.
Qed.

(** * The receive loop and the handler *)

(** X16: the handler never raises, whatever the text of the frame; it
    leaves the own key pair and the role as they are, and for a text
    that is not a handshake also the socket and the peer's key.  So a
    frame that decodes never ends the receive loop. *)
Theorem frame_never_ends_loop
  (json_loads : pystr -> res pyobj) (self : ChatApp) (message : pystr) :
  exists self',
    handle_received_message json_loads self message = Normal self'
    /\ rsa self' = rsa self /\ is_client self' = is_client self
    /\ (startswith message (lit "KEYS:") = false ->
        client_socket self' = client_socket self
        /\ other_public_key self' = other_public_key self)
    /\ forall st read st' body,
        receive st read = Ret (st', Some body) ->
        decode body = Ret message ->
        listen_step json_loads self st read = Listening self' st'.
Proof.
  destruct (handle_received_message_normal json_loads self message)
    as (self' & Hrun & Hrsa & Hcl & Henv).
  exists self'. repeat (split; [assumption|]).
  intros st read st' body Hrecv Hdec. unfold listen_step.
  now rewrite Hrecv, Hdec, Hrun.
Qed.

(** X17: a handshake line that [int] does not read ([KEYS:] not
    followed by two integers around a comma, or with a number of more
    than 4300 digits) is answered by "Public key error" alone: one
    line more on the display, the peer's key as it was and nothing
    written. *)
Theorem handshake_malformed
  (json_loads : pystr -> res pyobj) (self : ChatApp) (message : pystr)
  (e : PyErr) :
  startswith message (lit "KEYS:") = true ->
  parse_keys message = Raise e ->
  handle_received_message json_loads self message
  = Normal (update_chat self (PublicKeyError ValueError))
  /\ chat_text (update_chat self (PublicKeyError ValueError))
     = chat_text self ++ [PublicKeyError ValueError]
  /\ other_public_key (update_chat self (PublicKeyError ValueError))
     = other_public_key self
  /\ client_socket (update_chat self (PublicKeyError ValueError))
     = client_socket self.
Proof.
  intros Hs Hp. unfold handle_received_message. rewrite Hs, Hp.
  apply parse_keys_Raise in Hp. subst e. repeat split.
Qed.

Lemma handshake_malformed_witness :
  startswith (lit "KEYS:3233;17") (lit "KEYS:") = true
  /\ parse_keys (lit "KEYS:3233;17") = Raise ValueError
  /\ handle_received_message (loads_as PNone) (listener_app None)
       (lit "KEYS:3233;17")
     = Normal (update_chat (listener_app None) (PublicKeyError ValueError)).
Proof.
  assert (H1 : startswith (lit "KEYS:3233;17") (lit "KEYS:") = true)
    by reflexivity.
  assert (H2 : parse_keys (lit "KEYS:3233;17") = Raise ValueError)
    by reflexivity.
  split; [exact H1|]. split; [exact H2|].
  exact (proj1 (handshake_malformed (loads_as PNone) (listener_app None)
                  (lit "KEYS:3233;17") ValueError H1 H2)).
Defined.

(** What [int] reads is wider than ASCII digits: the Arabic-Indic
    digits of 3127, blanks around a number, a sign and underscores
    between digits all parse, and the key is stored. *)
Example handshake_other_scripts :
  parse_keys (lit "KEYS:" ++ [1635; 1633; 1634; 1639] ++ lit ",13")
  = Ret {| N := 3127; E := 13 |}
  /\ parse_keys (lit "KEYS: 3_127 ,+13") = Ret {| N := 3127; E := 13 |}
  /\ parse_keys (lit "KEYS:" ++ [12288] ++ lit "-3127" ++ [160] ++ lit ",13")
     = Ret {| N := -3127; E := 13 |}
  /\ parse_keys (lit "KEYS:31" ++ [233] ++ lit "27,13") = Raise ValueError
  /\ handle_received_message (loads_as PNone) (client_app None true)
       (lit "KEYS:" ++ [1635; 1633; 1634; 1639] ++ lit ",13")
     = Normal (update_chat
                 (client_app (Some {| N := 3127; E := 13 |}) true)
                 ReceivedPublicKey).
Proof. repeat split; vm_compute; reflexivity. Qed.

(** X18: the receive loop is the frame decoder followed by the handler:
    when the decoder hands on [bodies] over the reads and each of them
    decodes, the loop has called the handler on the texts in order, and
    stands where the decoder stands. *)
Theorem listen_loop_feed
  (json_loads : pystr -> res pyobj) (reads : list bytes) :
  forall (self : ChatApp) (st st' : rx) (bodies : list bytes)
         (texts : list pystr),
    feed st reads = Ret (st', bodies) ->
    mapM decode bodies = Ret texts ->
    listen_loop json_loads self st reads
    = listening_after (handle_all json_loads self texts) st'.
Proof.
  induction reads as [|message more IH];
    intros self st st' bodies texts Hfeed Hdec.
  - cbn [feed] in Hfeed. injection Hfeed as <- <-.
    cbn [mapM] in Hdec. injection Hdec as <-. reflexivity.
  - cbn [feed] in Hfeed.
    destruct (receive st message) as [[st1 o]|] eqn:Hrecv; [|discriminate].
    cbn [rbind fst snd] in Hfeed.
    destruct (feed st1 more) as [[st2 l]|] eqn:Hmore; [|discriminate].
    cbn [rbind fst snd] in Hfeed. injection Hfeed as <- <-.
    cbn [listen_loop]. unfold listen_step. rewrite Hrecv.
    destruct o as [body|].
    + cbn [mapM] in Hdec.
      destruct (decode body) as [text|]; [|discriminate].
      cbn [rbind] in Hdec.
      destruct (mapM decode l) as [ts|] eqn:Hts; [|discriminate].
      cbn [rbind] in Hdec. injection Hdec as <-. cbn [handle_all].
      destruct (handle_received_message json_loads self text)
        as [self1|self1 e]; cbn [and_then].
      * now apply (IH self1 st1 st2 l ts).
      * reflexivity.
    + now apply (IH self st1 st2 l texts).
Qed.

Lemma listen_loop_feed_witness :
  feed rx_initial [lit "12        KEYS:3"; lit "127,13"]
  = Ret (rx_between 12, [lit "KEYS:3127,13"])
  /\ mapM decode [lit "KEYS:3127,13"] = Ret [lit "KEYS:3127,13"]
  /\ listen_loop (loads_as PNone) (listener_app None) rx_initial
       [lit "12        KEYS:3"; lit "127,13"]
     = listening_after
         (handle_all (loads_as PNone) (listener_app None)
            [lit "KEYS:3127,13"])
         (rx_between 12).
Proof.
  assert (H1 : feed rx_initial [lit "12        KEYS:3"; lit "127,13"]
               = Ret (rx_between 12, [lit "KEYS:3127,13"]))
    by (vm_compute; reflexivity).
  assert (H2 : mapM decode [lit "KEYS:3127,13"] = Ret [lit "KEYS:3127,13"])
    by (vm_compute; reflexivity).
  split; [exact H1|]. split; [exact H2|].
  exact (listen_loop_feed (loads_as PNone) _ (listener_app None)
           rx_initial (rx_between 12) _ _ H1 H2).
Defined.

(** X19: what [send_data] writes on an open socket, read on the other
    side in non-empty pieces of which the first holds the digits of the
    length, makes the peer's handler run once, on exactly the text that
    was sent, and leaves the peer's loop waiting for the next frame. *)
Theorem sent_data_is_handled
  (json_loads : pystr -> res pyobj) (sender receiver : ChatApp)
  (sock : socket) (data : pystr) (body : bytes) (reads : list bytes) :
  client_socket sender = Some sock -> sock_open sock = true ->
  encode data = Ret body ->
  well_split body reads ->
  exists receiver',
    send_data sender data
    = Normal (set_client_socket sender
                (Some {| sock_open := true;
                         outbox := outbox sock ++ [concat reads] |}))
    /\ handle_received_message json_loads receiver data = Normal receiver'
    /\ listen_for_messages json_loads receiver reads
       = Listening receiver' (rx_between (Z.of_nat (length body))).
Proof.
  intros Hs Ho Henc Hsplit.
  destruct (handle_received_message_normal json_loads receiver data)
    as (receiver' & Hrun & _).
  exists receiver'. split; [|split; [exact Hrun|]].
  - destruct Hsplit as (_ & _ & _ & -> & _).
    now apply send_data_open.
  - unfold listen_for_messages.
    rewrite (listen_loop_feed json_loads reads receiver rx_initial
               (rx_between (Z.of_nat (length body))) [body] [data]).
    + cbn [handle_all]. rewrite Hrun. reflexivity.
    + now apply feed_frame.
    + cbn [mapM]. rewrite (decode_encode data body Henc). reflexivity.
Qed.

Lemma sent_data_is_handled_witness :
  client_socket (listener_app None)
  = Some {| sock_open := true; outbox := [] |}
  /\ sock_open {| sock_open := true; outbox := [] |} = true
  /\ encode [72; 233; 8364] = Ret [72; 195; 169; 226; 130; 172]
  /\ well_split [72; 195; 169; 226; 130; 172]
       [lit "6  "; lit "       " ++ [72; 195; 169]; [226; 130; 172]]
  /\ exists receiver',
      send_data (listener_app None) [72; 233; 8364]
      = Normal (set_client_socket (listener_app None)
                  (Some {| sock_open := true;
                           outbox :=
                             outbox {| sock_open := true; outbox := [] |}
                             ++ [concat [lit "6  ";
                                         lit "       " ++ [72; 195; 169];
                                         [226; 130; 172]]] |}))
      /\ handle_received_message (loads_as PNone) (listener_app None)
           [72; 233; 8364]
         = Normal receiver'
      /\ listen_for_messages (loads_as PNone) (listener_app None)
           [lit "6  "; lit "       " ++ [72; 195; 169]; [226; 130; 172]]
         = Listening receiver'
             (rx_between
                (Z.of_nat (length [72; 195; 169; 226; 130; 172]))).
Proof.
  assert (H1 : client_socket (listener_app None)
               = Some {| sock_open := true; outbox := [] |}) by reflexivity.
  assert (H2 : sock_open {| sock_open := true; outbox := [] |} = true)
    by reflexivity.
  assert (H3 : encode [72; 233; 8364] = Ret [72; 195; 169; 226; 130; 172])
    by (vm_compute; reflexivity).
  assert (H4 : well_split [72; 195; 169; 226; 130; 172]
                 [lit "6  "; lit "       " ++ [72; 195; 169];
                  [226; 130; 172]]).
  { unfold well_split. split; [reflexivity|]. split; [discriminate|].
    split; [repeat constructor; discriminate|]. split; [reflexivity|].
    vm_compute. repeat constructor. }
  split; [exact H1|]. split; [exact H2|]. split; [exact H3|].
  split; [exact H4|].
  exact (sent_data_is_handled (loads_as PNone) (listener_app None)
           (listener_app None) _ _ _ _ H1 H2 H3 H4).
Defined.

(** * The handshake *)

Lemma handshake_on_client
  (json_loads : pystr -> res pyobj) (self : ChatApp) (n e : Z) :
  printable n -> printable e ->
  is_client self = true ->
  handle_received_message json_loads self (handshake_message n e)
  = Normal (update_chat
              (set_other_public_key self (Some {| N := n; E := e |}))
              ReceivedPublicKey).
Proof.
  intros Hn He Hc. unfold handle_received_message.
  change (startswith (handshake_message n e) (lit "KEYS:")) with true.
  cbn iota. rewrite parse_keys_handshake by assumption.
  cbn [is_client update_chat set_other_public_key]. rewrite Hc.
  reflexivity.
Qed.

Lemma handshake_on_server
  (json_loads : pystr -> res pyobj) (self : ChatApp) (n e : Z)
  (sock : socket) (kp : RSAKeyPair) :
  printable n -> printable e ->
  is_client self = false ->
  client_socket self = Some sock -> sock_open sock = true ->
  key_pair (rsa self) = Some kp ->
  printable (N (public_key kp)) -> printable (E (public_key kp)) ->
  handle_received_message json_loads self (handshake_message n e)
  = Normal (update_chat
              (set_client_socket
                 (update_chat
                    (set_other_public_key self (Some {| N := n; E := e |}))
                    ReceivedPublicKey)
                 (Some (wrote sock (packet_of (key_message kp)))))
              PublicKeySent).
Proof.
  intros Hn He Hc Hs Ho Hk Hpn Hpe. unfold handle_received_message.
  change (startswith (handshake_message n e) (lit "KEYS:")) with true.
  cbn iota. rewrite parse_keys_handshake by assumption.
  set (self1 := update_chat
                  (set_other_public_key self (Some {| N := n; E := e |}))
                  ReceivedPublicKey).
  change (is_client self1) with (is_client self). rewrite Hc. cbn [negb].
  now rewrite (send_public_key_open self1 sock kp).
Qed.

Lemma printable_key_3233 :
  printable (N (public_key (keys_of 3233 17 2753)))
  /\ printable (E (public_key (keys_of 3233 17 2753))).
Proof. split; apply printable_small; cbn; lia. Qed.

Lemma printable_key_323 :
  printable (N (public_key (keys_of 323 5 29)))
  /\ printable (E (public_key (keys_of 323 5 29))).
Proof. split; apply printable_small; cbn; lia. Qed.

Lemma key_message_handshake (kp : RSAKeyPair) :
  key_message kp
  = handshake_message (N (public_key kp)) (E (public_key kp)).
Proof. reflexivity. Qed.

Lemma public_key_eta (pk : PublicKey) : {| N := N pk; E := E pk |} = pk.
Proof. destruct pk; reflexivity. Qed.

(** X20: the handshake as a whole.  The listening side accepts, the
    other connects, each holding a key pair on an open socket, the
    numbers of both public keys of at most 4300 digits; each announces
    its key at once, the connecting side reads the announcement, the
    listening side reads the other's and answers, and the connecting
    side reads the answer.  Then each side holds the other's public
    key; the listening side has written its key twice and the
    connecting side once. *)
Theorem handshake_exchange
  (json_loads : pystr -> res pyobj) (server client : ChatApp)
  (conn_s conn_c : socket) (ks kc : RSAKeyPair) :
  key_pair (rsa server) = Some ks -> key_pair (rsa client) = Some kc ->
  printable (N (public_key ks)) /\ printable (E (public_key ks)) ->
  printable (N (public_key kc)) /\ printable (E (public_key kc)) ->
  sock_open conn_s = true -> sock_open conn_c = true ->
  exists server2 client2 client3,
    handle_received_message json_loads (connect_to_server client conn_c)
      (key_message ks) = Normal client2
    /\ handle_received_message json_loads (accept_connections server conn_s)
         (key_message kc) = Normal server2
    /\ handle_received_message json_loads client2 (key_message ks)
       = Normal client3
    /\ other_public_key server2 = Some (public_key kc)
    /\ other_public_key client3 = Some (public_key ks)
    /\ client_socket server2
       = Some {| sock_open := true;
                 outbox := outbox conn_s
                           ++ [packet_of (key_message ks);
                               packet_of (key_message ks)] |}
    /\ client_socket client3
       = Some {| sock_open := true;
                 outbox := outbox conn_c ++ [packet_of (key_message kc)] |}
    /\ rsa server2 = rsa server /\ rsa client3 = rsa client.
Proof.
  intros Hks Hkc [Hsn Hse] [Hcn Hce] Hos Hoc.
  assert (Hacc : accept_connections server conn_s
                 = {| rsa := rsa server;
                      client_socket :=
                        Some (wrote conn_s (packet_of (key_message ks)));
                      other_public_key := other_public_key server;
                      is_client := false;
                      nickname_entry := nickname_entry server;
                      message_entry := message_entry server;
                      chat_text := chat_text server
                                   ++ [ConnectedTo; PublicKeySent] |}).
  { unfold accept_connections, connected. cbv zeta.
    erewrite send_public_key_open;
      [|reflexivity|exact Hos|exact Hks|exact Hsn|exact Hse].
    unfold update_chat, set_client_socket.
    cbn [rsa client_socket other_public_key is_client nickname_entry
         message_entry chat_text].
    now rewrite <- app_assoc. }
  assert (Hcon : connect_to_server client conn_c
                 = {| rsa := rsa client;
                      client_socket :=
                        Some (wrote conn_c (packet_of (key_message kc)));
                      other_public_key := other_public_key client;
                      is_client := true;
                      nickname_entry := nickname_entry client;
                      message_entry := message_entry client;
                      chat_text := chat_text client
                                   ++ [ConnectedToServer; PublicKeySent] |}).
  { unfold connect_to_server, connected. cbv zeta.
    erewrite send_public_key_open;
      [|reflexivity|exact Hoc|exact Hkc|exact Hcn|exact Hce].
    unfold update_chat, set_client_socket.
    cbn [rsa client_socket other_public_key is_client nickname_entry
         message_entry chat_text].
    now rewrite <- app_assoc. }
  set (pks := {| N := N (public_key ks); E := E (public_key ks) |}).
  set (pkc := {| N := N (public_key kc); E := E (public_key kc) |}).
  set (server1 := accept_connections server conn_s) in *.
  set (client1 := connect_to_server client conn_c) in *.
  set (client2 := update_chat (set_other_public_key client1 (Some pks))
                    ReceivedPublicKey).
  exists (update_chat
            (set_client_socket
               (update_chat (set_other_public_key server1 (Some pkc))
                  ReceivedPublicKey)
               (Some (wrote (wrote conn_s (packet_of (key_message ks)))
                        (packet_of (key_message ks)))))
            PublicKeySent),
    client2,
    (update_chat (set_other_public_key client2 (Some pks))
       ReceivedPublicKey).
  rewrite !key_message_handshake.
  split; [apply handshake_on_client; try assumption; now rewrite Hcon|].
  split.
  { apply handshake_on_server; try rewrite Hacc; try reflexivity;
      assumption. }
  split; [apply handshake_on_client; try assumption; cbn; now rewrite Hcon|].
  cbn [other_public_key client_socket rsa update_chat set_client_socket
       set_other_public_key client2].
  unfold pks, pkc. rewrite !public_key_eta, Hacc, Hcon.
  unfold wrote. cbn [outbox rsa client_socket].
  rewrite <- app_assoc. repeat split.
Qed.

Lemma handshake_exchange_witness :
  key_pair (rsa (listener_app None)) = Some (keys_of 3233 17 2753)
  /\ key_pair (rsa (client_app None true)) = Some (keys_of 323 5 29)
  /\ exists server2 client2 client3,
      handle_received_message (loads_as PNone)
        (connect_to_server (client_app None true)
           {| sock_open := true; outbox := [] |})
        (key_message (keys_of 3233 17 2753)) = Normal client2
      /\ handle_received_message (loads_as PNone)
           (accept_connections (listener_app None)
              {| sock_open := true; outbox := [] |})
           (key_message (keys_of 323 5 29)) = Normal server2
      /\ handle_received_message (loads_as PNone) client2
           (key_message (keys_of 3233 17 2753))
         = Normal client3
      /\ other_public_key server2 = Some (public_key (keys_of 323 5 29))
      /\ other_public_key client3
         = Some (public_key (keys_of 3233 17 2753))
      /\ client_socket server2
         = Some {| sock_open := true;
                   outbox := outbox {| sock_open := true; outbox := [] |}
                             ++ [packet_of
                                   (key_message (keys_of 3233 17 2753));
                                 packet_of
                                   (key_message (keys_of 3233 17 2753))] |}
      /\ client_socket client3
         = Some {| sock_open := true;
                   outbox := outbox {| sock_open := true; outbox := [] |}
                             ++ [packet_of
                                   (key_message (keys_of 323 5 29))] |}
      /\ rsa server2 = rsa (listener_app None)
      /\ rsa client3 = rsa (client_app None true).
Proof.
  assert (H1 : key_pair (rsa (listener_app None))
               = Some (keys_of 3233 17 2753)) by reflexivity.
  assert (H2 : key_pair (rsa (client_app None true))
               = Some (keys_of 323 5 29)) by reflexivity.
  split; [exact H1|]. split; [exact H2|].
  exact (handshake_exchange (loads_as PNone) (listener_app None)
           (client_app None true)
           {| sock_open := true; outbox := [] |}
           {| sock_open := true; outbox := [] |}
           _ _ H1 H2 printable_key_3233 printable_key_323
           eq_refl eq_refl).
Defined.

Lemma unprintable_limit : ~ printable (10 ^ int_max_str_digits).
Proof.
  unfold printable. rewrite Z.abs_eq by (apply Z.pow_nonneg; lia).
  apply Z.lt_irrefl.
Qed.

(** Beyond the bound the announcement is not made: with a modulus of
    4301 digits the accepting side shows "Connection error" and writes
    nothing, and a peer that is sent a number of 4301 digits shows
    "Public key error" and stores nothing. *)
Example handshake_beyond_the_limit :
  accept_connections
    {| rsa := rsa_unprintable; client_socket := None;
       other_public_key := None; is_client := false;
       nickname_entry := []; message_entry := []; chat_text := [] |}
    {| sock_open := true; outbox := [] |}
  = {| rsa := rsa_unprintable;
       client_socket := Some {| sock_open := true; outbox := [] |};
       other_public_key := None; is_client := false;
       nickname_entry := []; message_entry := [];
       chat_text := [ConnectedTo; ConnectionError ValueError] |}
  /\ handle_received_message (loads_as PNone) (client_app None true)
       (handshake_message (10 ^ int_max_str_digits) 3)
     = Normal (update_chat (client_app None true)
                 (PublicKeyError ValueError)).
Proof.
  split.
  - unfold accept_connections. cbv zeta.
    erewrite send_public_key_unprintable; [reflexivity|reflexivity| |].
    + reflexivity.
    + left. apply format_int_unprintable, unprintable_limit.
  - unfold handle_received_message.
    change (startswith (handshake_message (10 ^ int_max_str_digits) 3)
              (lit "KEYS:")) with true.
    cbn iota. rewrite parse_keys_handshake_over; [reflexivity|].
    left. exact unprintable_limit.
Qed.

(** X21: a side that connects or accepts before a key pair exists
    announces nothing: the display shows that the key cannot be sent,
    and nothing is written on the new connection. *)
Theorem connected_without_keys (self : ChatApp) (conn : socket) :
  key_pair (rsa self) = None ->
  client_socket (accept_connections self conn) = Some conn
  /\ chat_text (accept_connections self conn)
     = chat_text self ++ [ConnectedTo; CannotSendPublicKey]
  /\ is_client (accept_connections self conn) = false
  /\ client_socket (connect_to_server self conn) = Some conn
  /\ chat_text (connect_to_server self conn)
     = chat_text self ++ [ConnectedToServer; CannotSendPublicKey]
  /\ is_client (connect_to_server self conn) = true.
Proof.
  intros Hk. unfold accept_connections, connect_to_server, connected,
    send_public_key. cbv zeta.
  cbn [client_socket rsa update_chat set_client_socket].
  rewrite Hk. cbn [client_socket chat_text is_client update_chat].
  rewrite <- !app_assoc. repeat split.
Qed.

Lemma connected_without_keys_witness :
  key_pair (rsa ChatApp_init) = None
  /\ client_socket
       (accept_connections ChatApp_init {| sock_open := true; outbox := [] |})
     = Some {| sock_open := true; outbox := [] |}
  /\ chat_text
       (accept_connections ChatApp_init {| sock_open := true; outbox := [] |})
     = chat_text ChatApp_init ++ [ConnectedTo; CannotSendPublicKey]
  /\ is_client
       (accept_connections ChatApp_init {| sock_open := true; outbox := [] |})
     = false
  /\ client_socket
       (connect_to_server ChatApp_init {| sock_open := true; outbox := [] |})
     = Some {| sock_open := true; outbox := [] |}
  /\ chat_text
       (connect_to_server ChatApp_init {| sock_open := true; outbox := [] |})
     = chat_text ChatApp_init ++ [ConnectedToServer; CannotSendPublicKey]
  /\ is_client
       (connect_to_server ChatApp_init {| sock_open := true; outbox := [] |})
     = true.
Proof.
  assert (H : key_pair (rsa ChatApp_init) = None) by reflexivity.
  split; [exact H|].
  exact (connected_without_keys ChatApp_init
           {| sock_open := true; outbox := [] |} H).
Defined.

(** * Sending a message *)

Lemma send_message_ready
  (json_dumps : pyobj -> pystr) (self : ChatApp) (other : PublicKey)
  (kp : RSAKeyPair) (signature : Z) (units : list Z) :
  other_public_key self = Some other -> key_pair (rsa self) = Some kp ->
  sign (rsa self) (message_entry self) = Ret signature ->
  encrypt (message_entry self) other = Ret units ->
  send_message json_dumps self
  = and_then
      (send_data self
         (json_dumps (envelope (nickname_of self) units signature)))
      (fun self' =>
         Normal (set_message_entry
                   (update_chat self' (YouSaid (message_entry self))) [])).
Proof.
  intros Ho Hk Hs He. unfold send_message. rewrite Ho, Hk, Hs.
  cbn [rbind]. rewrite He. reflexivity.
Qed.

Lemma envelope_message (nickname : pystr) (units : list Z) (signature : Z) :
  subscript (envelope nickname units signature) (lit "message")
  = Ret (int_list units).
Proof. reflexivity. Qed.

Lemma envelope_signature (nickname : pystr) (units : list Z)
  (signature : Z) :
  subscript (envelope nickname units signature) (lit "signature")
  = Ret (PInt signature).
Proof. reflexivity. Qed.

Lemma envelope_nickname (nickname : pystr) (units : list Z)
  (signature : Z) :
  py_get (envelope nickname units signature) (lit "nickname")
    (PStr (lit "Unknown"))
  = Ret (PStr nickname).
Proof. reflexivity. Qed.

Lemma hash_below (h n : Z) :
  0 <= h -> 0 < n -> (h =? h mod n) = (h <? n).
Proof.
  intros Hh Hn. pose proof (Z.mod_pos_bound h n Hn).
  destruct (Z.ltb_spec h n).
  - rewrite Z.mod_small by lia. apply Z.eqb_refl.
  - apply Z.eqb_neq. lia.
Qed.

(** X22: a message from end to end.  Both sides hold textbook key pairs
    and each other's public key; the sender's socket is open, the text
    has no code point from the peer's modulus on, and the envelope
    printed by [json.dumps] encodes, does not start with [KEYS:] and is
    read back by [json.loads] as the same object.  Then [send_message]
    writes one packet, shows "You: ..." and clears the entry, and the
    peer's handler, on the text of that packet, shows the nickname and
    the very message when the message's hash is below the sender's
    modulus, and "Signature verification failed." otherwise. *)
Theorem message_delivered
  (json_loads : pystr -> res pyobj) (json_dumps : pyobj -> pystr)
  (alice bob : ChatApp) (ka kb : RSAKeyPair) (pa qa pb qb : Z)
  (sock : socket) (signature : Z) (units : list Z) (body : bytes) :
  key_pair (rsa alice) = Some ka -> textbook_key ka pa qa ->
  key_pair (rsa bob) = Some kb -> textbook_key kb pb qb ->
  other_public_key alice = Some (public_key kb) ->
  other_public_key bob = Some (public_key ka) ->
  client_socket alice = Some sock -> sock_open sock = true ->
  valid_str (message_entry alice) ->
  Forall (fun c => c < N (public_key kb)) (message_entry alice) ->
  sign (rsa alice) (message_entry alice) = Ret signature ->
  encrypt (message_entry alice) (public_key kb) = Ret units ->
  json_loads (json_dumps (envelope (nickname_of alice) units signature))
  = Ret (envelope (nickname_of alice) units signature) ->
  startswith (json_dumps (envelope (nickname_of alice) units signature))
    (lit "KEYS:") = false ->
  encode (json_dumps (envelope (nickname_of alice) units signature))
  = Ret body ->
  exists h,
    (hx <-- create_hash (message_entry alice) ;; py_int 16 hx) = Ret h
    /\ send_message json_dumps alice
       = Normal (set_message_entry
                   (update_chat
                      (set_client_socket alice
                         (Some (wrote sock (packet_of body))))
                      (YouSaid (message_entry alice))) [])
    /\ handle_received_message json_loads bob
         (json_dumps (envelope (nickname_of alice) units signature))
       = Normal (update_chat bob
                   (if h <? N (public_key ka)
                    then ChatFrom (PStr (nickname_of alice))
                           (message_entry alice)
                    else SignatureVerificationFailed)).
Proof.
  intros Hka Hta Hkb Htb Hoa Hob Hsock Hopen Hvalid Hlt Hsign Henc
    Hloads Hprefix Hbody.
  set (message := message_entry alice) in *.
  assert (Hna : 6 <= N (public_key ka))
    by apply (textbook_key_exponent ka pa qa 0 Hta).
  assert (Hnb : 6 <= N (public_key kb))
    by apply (textbook_key_exponent kb pb qb 0 Htb).
  pose proof Htb as (_ & _ & _ & _ & Heb & _).
  (* the hash, as [sign] computed it *)
  assert (Hh : exists h,
             (hx <-- create_hash message ;; py_int 16 hx) = Ret h
             /\ 0 <= h).
  { unfold sign in Hsign. rewrite Hka in Hsign.
    destruct (create_hash message) as [hex|] eqn:Hc; [|discriminate].
    pose proof Hc as Hc0. unfold create_hash in Hc0.
    destruct (encode message) as [data|] eqn:Hd; [|discriminate].
    destruct (hash_int message data Hd) as (hex' & h & Hc' & Hi & Hr).
    rewrite Hc in Hc'. injection Hc' as <-.
    exists h. cbn [rbind]. split; [exact Hi|lia]. }
  destruct Hh as (h & Hh & Hh0).
  destruct (textbook_verify (rsa alice) ka pa qa message h Hka Hta Hh)
    as (sg & Hsign' & Hverify).
  assert (sg = signature) by congruence. subst sg.
  exists h. split; [exact Hh|]. split.
  - rewrite (send_message_ready json_dumps alice (public_key kb) ka
               signature units Hoa Hka Hsign Henc).
    rewrite (send_data_open alice sock _ body Hsock Hopen Hbody).
    reflexivity.
  - unfold handle_received_message. rewrite Hprefix.
    unfold open_envelope. rewrite Hloads.
    cbn [rbind].
    rewrite envelope_message. cbn [rbind].
    rewrite envelope_signature. cbn [rbind].
    rewrite envelope_nickname.
    cbn [rbind].
    rewrite encrypt_units in Henc by lia. injection Henc as <-.
    rewrite (textbook_decrypt (rsa bob) kb pb qb message Hkb Htb Hvalid).
    rewrite (mod_small_all _ message Hvalid Hlt). cbn [rbind].
    rewrite Hob, (Hverify message h Hh). cbn [rbind].
    rewrite hash_below by lia. reflexivity.
Qed.

Lemma textbook_323 : textbook_key (keys_of 323 5 29) 17 19.
Proof.
  unfold textbook_key. cbn [keys_of N E D public_key private_key].
  split; [exact prime_17|]. split; [exact prime_19|].
  split; [discriminate|]. split; [reflexivity|].
  split; [lia|]. split; [lia|]. reflexivity.
Qed.

Lemma message_delivered_witness :
  textbook_key (keys_of 323 5 29) 17 19
  /\ textbook_key (keys_of 3233 17 2753) 61 53
  /\ sign rsa_323 (lit "Hi") = Ret 147
  /\ encrypt (lit "Hi") {| N := 3233; E := 17 |} = Ret [3000; 3179]
  /\ exists h,
      (hx <-- create_hash (lit "Hi") ;; py_int 16 hx) = Ret h
      /\ send_message (fun _ => lit "{}")
           (client_app (Some {| N := 3233; E := 17 |}) true)
         = Normal (set_message_entry
                     (update_chat
                        (set_client_socket
                           (client_app (Some {| N := 3233; E := 17 |}) true)
                           (Some (wrote {| sock_open := true; outbox := [] |}
                                    (packet_of (lit "{}")))))
                        (YouSaid (lit "Hi"))) [])
      /\ handle_received_message
           (loads_as (envelope (lit "Bob") [3000; 3179] 147))
           (listener_app (Some {| N := 323; E := 5 |})) (lit "{}")
         = Normal (update_chat (listener_app (Some {| N := 323; E := 5 |}))
                     (if h <? 323
                      then ChatFrom (PStr (lit "Bob")) (lit "Hi")
                      else SignatureVerificationFailed)).
Proof.
  assert (H1 : sign rsa_323 (lit "Hi") = Ret 147)
    by (vm_compute; reflexivity).
  assert (H2 : encrypt (lit "Hi") {| N := 3233; E := 17 |}
               = Ret [3000; 3179]) by (vm_compute; reflexivity).
  assert (H3 : valid_str (lit "Hi")).
  { repeat constructor; discriminate. }
  assert (H4 : Forall (fun c => c < 3233) (lit "Hi")).
  { repeat constructor. }
  split; [exact textbook_323|]. split; [exact textbook_3233|].
  split; [exact H1|]. split; [exact H2|].
  exact (message_delivered
           (loads_as (envelope (lit "Bob") [3000; 3179] 147))
           (fun _ => lit "{}")
           (client_app (Some {| N := 3233; E := 17 |}) true)
           (listener_app (Some {| N := 323; E := 5 |}))
           (keys_of 323 5 29) (keys_of 3233 17 2753) 17 19 61 53
           {| sock_open := true; outbox := [] |} 147 [3000; 3179]
           (lit "{}")
           eq_refl textbook_323 eq_refl textbook_3233 eq_refl eq_refl
           eq_refl eq_refl H3 H4 H1 H2 eq_refl eq_refl eq_refl).
Defined.

(** X23: when the keys are exchanged but the socket is gone or closed,
    [send_message] still shows "You: ..." after the error line and
    clears the entry, although nothing was written. *)
Theorem send_message_unsent
  (json_dumps : pyobj -> pystr) (self : ChatApp) (other : PublicKey)
  (kp : RSAKeyPair) (signature : Z) (units : list Z) (body : bytes) :
  other_public_key self = Some other -> key_pair (rsa self) = Some kp ->
  sign (rsa self) (message_entry self) = Ret signature ->
  encrypt (message_entry self) other = Ret units ->
  encode (json_dumps (envelope (nickname_of self) units signature))
  = Ret body ->
  (forall sock, client_socket self = Some sock -> sock_open sock = false) ->
  exists self' line,
    send_message json_dumps self = Normal self'
    /\ (line = NotConnected \/ line = SendingError OSError)
    /\ chat_text self'
       = chat_text self ++ [line; YouSaid (message_entry self)]
    /\ message_entry self' = []
    /\ client_socket self' = client_socket self.
Proof.
  intros Ho Hk Hs He Hb Hclosed.
  rewrite (send_message_ready json_dumps self other kp signature units
             Ho Hk Hs He).
  unfold send_data.
  destruct (client_socket self) as [sock|] eqn:Hsock.
  - rewrite Hb. cbn [rbind]. rewrite message_header_eq. cbn [rbind].
    unfold sendall. rewrite (Hclosed sock eq_refl). cbn [and_then].
    do 2 eexists. split; [reflexivity|]. split; [now right|].
    cbn [chat_text message_entry client_socket update_chat
         set_message_entry].
    rewrite <- app_assoc. repeat split. assumption.
  - cbn [and_then].
    do 2 eexists. split; [reflexivity|]. split; [now left|].
    cbn [chat_text message_entry client_socket update_chat
         set_message_entry].
    rewrite <- app_assoc. repeat split. assumption.
Qed.

Lemma send_message_unsent_witness :
  sign rsa_323 (lit "Hi") = Ret 147
  /\ encrypt (lit "Hi") {| N := 3233; E := 17 |} = Ret [3000; 3179]
  /\ exists self' line,
      send_message (fun _ => lit "{}")
        (client_app (Some {| N := 3233; E := 17 |}) false)
      = Normal self'
      /\ (line = NotConnected \/ line = SendingError OSError)
      /\ chat_text self'
         = chat_text (client_app (Some {| N := 3233; E := 17 |}) false)
           ++ [line; YouSaid (lit "Hi")]
      /\ message_entry self' = []
      /\ client_socket self'
         = client_socket (client_app (Some {| N := 3233; E := 17 |}) false).
Proof.
  assert (H1 : sign rsa_323 (lit "Hi") = Ret 147)
    by (vm_compute; reflexivity).
  assert (H2 : encrypt (lit "Hi") {| N := 3233; E := 17 |}
               = Ret [3000; 3179]) by (vm_compute; reflexivity).
  assert (H3 : forall sock,
             client_socket (client_app (Some {| N := 3233; E := 17 |}) false)
             = Some sock -> sock_open sock = false).
  { intros sock [= <-]. reflexivity. }
  split; [exact H1|]. split; [exact H2|].
  exact (send_message_unsent (fun _ => lit "{}")
           (client_app (Some {| N := 3233; E := 17 |}) false)
           {| N := 3233; E := 17 |} (keys_of 323 5 29) 147 [3000; 3179]
           (lit "{}") eq_refl eq_refl H1 H2 eq_refl H3).
Defined.

(** X24: once a peer key with modulus 0 is stored (the handler stores
    any pair of integers), [send_message] raises out of [pow] on every
    non-empty message: nothing is written, and the display and the
    entry stay as they are. *)
Theorem zero_modulus_blocks_sending
  (json_dumps : pyobj -> pystr) (self : ChatApp) (other : PublicKey) :
  other_public_key self = Some other -> N other = 0 ->
  key_pair (rsa self) <> None ->
  message_entry self <> [] ->
  exists err,
    send_message json_dumps self = Raised self err
    /\ (err = ValueError \/ err = UnicodeEncodeError).
Proof.
  intros Ho Hn Hk Hm. unfold send_message. rewrite Ho.
  destruct (key_pair (rsa self)) as [kp|] eqn:Hkp; [|contradiction].
  destruct (message_entry self) as [|c s] eqn:Hmsg; [contradiction|].
  destruct (sign (rsa self) (c :: s)) as [sg|err] eqn:Hs; cbn [rbind].
  - exists ValueError. unfold encrypt. cbn [mapM]. unfold pow3 at 1.
    rewrite Hn. cbn [Z.eqb rbind]. split; [reflexivity|now left].
  - exists err. split; [reflexivity|].
    destruct (sign_Raise (rsa self) kp (c :: s) err Hkp Hs); tauto.
Qed.

Lemma zero_modulus_blocks_sending_witness :
  handle_received_message (loads_as PNone) (client_app None true)
    (lit "KEYS:0,5")
  = Normal (update_chat (client_app (Some {| N := 0; E := 5 |}) true)
              ReceivedPublicKey)
  /\ exists err,
      send_message dumps_nothing
        (update_chat (client_app (Some {| N := 0; E := 5 |}) true)
           ReceivedPublicKey)
      = Raised (update_chat (client_app (Some {| N := 0; E := 5 |}) true)
                  ReceivedPublicKey) err
      /\ (err = ValueError \/ err = UnicodeEncodeError).
Proof.
  split; [vm_compute; reflexivity|].
  apply (zero_modulus_blocks_sending dumps_nothing
           (update_chat (client_app (Some {| N := 0; E := 5 |}) true)
              ReceivedPublicKey)
           {| N := 0; E := 5 |}); [reflexivity|reflexivity| |];
    discriminate.
Defined.

(** * The socket's two ends, the hash and the shape of the cipher *)

(** X25: an empty read (the peer closed the connection) ends the
    receive loop with "Receiving error" only when it comes where a
    header is expected; in the middle of a frame it changes nothing,
    and the loop goes on reading for as long as reads come back
    empty. *)
Theorem listen_empty_read
  (json_loads : pystr -> res pyobj) (self : ChatApp) (st : rx) :
  (new_msg st = true ->
   listen_step json_loads self st []
   = Stopped (update_chat self (ReceivingError ValueError)))
  /\ (new_msg st = false ->
      Z.of_nat (length (full_message st)) - header_size <> msg_length st ->
      forall n, listen_loop json_loads self st (repeat [] n)
                = Listening self st).
Proof.
  split.
  - intros Hnew. unfold listen_step, receive. rewrite Hnew. reflexivity.
  - intros Hnew Hlen n. induction n as [|n IH]; [reflexivity|].
    cbn [repeat listen_loop]. unfold listen_step, receive.
    rewrite Hnew. cbn [rbind]. rewrite app_nil_r.
    destruct (Z.eqb_spec (Z.of_nat (length (full_message st)) - header_size)
                (msg_length st)); [contradiction|].
    replace {| full_message := full_message st; new_msg := false;
               msg_length := msg_length st |} with st
      by (destruct st; cbn in *; now subst).
    exact IH.
Qed.

(** X26: [send_data] with no socket shows "Not connected" and writes
    nothing.  With a socket it raises only for a text that cannot be
    encoded, before anything is written; otherwise it returns, having
    written one packet on an open socket, or shown "Sending error" on a
    closed one.  The packet is the body behind a header of ten bytes
    that read back as the body's length, for bodies below [10^10]
    bytes. *)
Theorem send_data_outcomes (self : ChatApp) (data : pystr) :
  match client_socket self, encode data with
  | None, _ => send_data self data = Normal (update_chat self NotConnected)
  | Some sock, Raise e =>
      e = UnicodeEncodeError
      /\ send_data self data = Raised self UnicodeEncodeError
  | Some sock, Ret body =>
      send_data self data
      = Normal (if sock_open sock
                then set_client_socket self
                       (Some (wrote sock (packet_of body)))
                else update_chat self (SendingError OSError))
      /\ (Z.of_nat (length body) < 10 ^ 10 ->
          length (packet_of body) = (10 + length body)%nat
          /\ py_int 10 (firstn (Z.to_nat header_size) (packet_of body))
             = Ret (Z.of_nat (length body))
          /\ skipn (Z.to_nat header_size) (packet_of body) = body)
  end.
Proof.
  unfold send_data.
  destruct (client_socket self) as [sock|]; [|reflexivity].
  destruct (encode data) as [body|e] eqn:He; cbn [rbind].
  - rewrite message_header_eq. cbn [rbind]. unfold sendall.
    split; [destruct (sock_open sock); reflexivity|].
    intros Hlen. destruct (header_shape body Hlen) as (pad & Hshape & Hpad).
    assert (Hl : length (packet_of body) = (10 + length body)%nat).
    { rewrite Hshape, !length_app, repeat_length. lia. }
    split; [exact Hl|]. split.
    + apply (first_read_length body (packet_of body) []); try assumption.
      * apply app_nil_r.
      * rewrite Hl. lia.
    + rewrite Hshape, app_assoc.
      change (Z.to_nat header_size) with 10%nat.
      rewrite skipn_app.
      replace (10 - _)%nat with 0%nat
        by (rewrite length_app, repeat_length; lia).
      rewrite skipn_all2 by (rewrite length_app, repeat_length; lia).
      reflexivity.
  - apply encode_Raise in He. subst e. split; reflexivity.
Qed.

(** X27: [encrypt] works character by character, with neither padding
    nor chaining: the units of a concatenation are the units of its
    parts, so equal characters give equal units wherever they stand. *)
Theorem encrypt_app (s1 s2 : pystr) (pk : PublicKey) :
  encrypt (s1 ++ s2) pk
  = (u1 <-- encrypt s1 pk ;; u2 <-- encrypt s2 pk ;; Ret (u1 ++ u2)).
Proof. unfold encrypt. apply mapM_app. Qed.

(** X28: [create_hash] raises only [UnicodeEncodeError], and exactly
    when the message cannot be encoded; otherwise it returns 64
    characters that [int(_, 16)] reads as a number below [2^256]. *)
Theorem create_hash_shape (message : pystr) :
  match encode message with
  | Raise _ => create_hash message = Raise UnicodeEncodeError
  | Ret data =>
      exists h,
        create_hash message = Ret (Sha256.hexdigest data)
        /\ length (Sha256.hexdigest data) = 64%nat
        /\ py_int 16 (Sha256.hexdigest data) = Ret h
        /\ 0 <= h < 2 ^ 256
  end.
Proof.
  destruct (encode message) as [data|e] eqn:He.
  - destruct (hash_int message data He) as (hex & h & Hc & Hi & Hr).
    assert (Hx : create_hash message = Ret (Sha256.hexdigest data))
      by (unfold create_hash; now rewrite He).
    assert (hex = Sha256.hexdigest data) by congruence. subst hex.
    exists h. split; [exact Hx|]. split; [apply hexdigest_digits|].
    split; [exact Hi|exact Hr].
  - unfold create_hash. rewrite He. apply encode_Raise in He. now subst e.
Qed.

(** X29: the handler shows a chat line of a peer only for an envelope
    whose units [decrypt] turned into the text shown and whose
    signature [verify] accepted for that text under the stored peer
    key. *)
Theorem shown_only_if_verified
  (json_loads : pystr -> res pyobj) (self : ChatApp) (message : pystr)
  (nickname : pyobj) (text : pystr) :
  startswith message (lit "KEYS:") = false ->
  handle_received_message json_loads self message
  = Normal (update_chat self (ChatFrom nickname text)) ->
  exists received_data encrypted_message signature,
    json_loads message = Ret received_data
    /\ subscript received_data (lit "message") = Ret encrypted_message
    /\ subscript received_data (lit "signature") = Ret signature
    /\ decrypt (rsa self) encrypted_message = Ret text
    /\ verify text signature (other_public_key self) = Ret true.
Proof.
  intros Hp. unfold handle_received_message. rewrite Hp.
  unfold open_envelope.
  destruct (json_loads message) as [d|e0] eqn:Hd; cbn [rbind];
    [|destruct e0; intros [= H]; apply app_inv_head in H; discriminate].
  destruct (subscript d (lit "message")) as [em|e1] eqn:Hem; cbn [rbind];
    [|destruct e1; intros [= H]; apply app_inv_head in H; discriminate].
  destruct (subscript d (lit "signature")) as [sg|e2] eqn:Hsg;
    cbn [rbind];
    [|destruct e2; intros [= H]; apply app_inv_head in H; discriminate].
  destruct (py_get d (lit "nickname") (PStr (lit "Unknown"))) as [nk|e3];
    cbn [rbind];
    [|destruct e3; intros [= H]; apply app_inv_head in H; discriminate].
  destruct (decrypt (rsa self) em) as [tx|e4] eqn:Htx; cbn [rbind];
    [|destruct e4; intros [= H]; apply app_inv_head in H; discriminate].
  destruct (verify tx sg (other_public_key self)) as [ok|e5] eqn:Hv;
    cbn [rbind];
    [|destruct e5; intros [= H]; apply app_inv_head in H; discriminate].
  destruct ok; intros [= H]; apply app_inv_head in H;
    [|discriminate].
  injection H as -> ->. exists d, em, sg.
  split; [reflexivity|]. split; [exact Hem|]. split; [exact Hsg|].
  split; [exact Htx|exact Hv].
Qed.

Lemma shown_only_if_verified_witness :
  startswith (lit "{}") (lit "KEYS:") = false
  /\ handle_received_message
       (loads_as (envelope (lit "Eve") [3000; 3179] hash_Hi))
       (listener_app (Some open_key)) (lit "{}")
     = Normal (update_chat (listener_app (Some open_key))
                 (ChatFrom (PStr (lit "Eve")) (lit "Hi")))
  /\ exists received_data encrypted_message signature,
      loads_as (envelope (lit "Eve") [3000; 3179] hash_Hi) (lit "{}")
      = Ret received_data
      /\ subscript received_data (lit "message") = Ret encrypted_message
      /\ subscript received_data (lit "signature") = Ret signature
      /\ decrypt (rsa (listener_app (Some open_key))) encrypted_message
         = Ret (lit "Hi")
      /\ verify (lit "Hi") signature
           (other_public_key (listener_app (Some open_key)))
         = Ret true.
Proof.
  assert (H1 : startswith (lit "{}") (lit "KEYS:") = false) by reflexivity.
  assert (H2 : handle_received_message
                 (loads_as (envelope (lit "Eve") [3000; 3179] hash_Hi))
                 (listener_app (Some open_key)) (lit "{}")
               = Normal (update_chat (listener_app (Some open_key))
                           (ChatFrom (PStr (lit "Eve")) (lit "Hi"))))
    by (vm_compute; reflexivity).
  split; [exact H1|]. split; [exact H2|].
  exact (shown_only_if_verified
           (loads_as (envelope (lit "Eve") [3000; 3179] hash_Hi))
           (listener_app (Some open_key)) (lit "{}")
           (PStr (lit "Eve")) (lit "Hi") H1 H2).
Defined.

(** The empty read on a fresh decoder, and in the middle of a frame of
    twelve bytes of which six have come. *)
Example listen_empty_read_runs :
  listen_step (loads_as PNone) (listener_app None) rx_initial []
  = Stopped (update_chat (listener_app None) (ReceivingError ValueError))
  /\ listen_loop (loads_as PNone) (listener_app None)
       {| full_message := lit "12        KEYS:3"; new_msg := false;
          msg_length := 12 |}
       [[]; []; []]
     = Listening (listener_app None)
         {| full_message := lit "12        KEYS:3"; new_msg := false;
            msg_length := 12 |}.
Proof. split; vm_compute; reflexivity. Qed.
